(** * Prehistoric Docu-Gen (App.tsx): a shallow embedding and its properties

    The React component [App] of src/App.tsx keeps its state in hooks and
    changes it from event handlers.  Each handler is embedded here as a
    function on the part of the state it reads and writes.  An asynchronous
    handler is cut at its [await]: the code before and the code after are
    separate functions, and how the awaited call ended (file reader, text
    service, image service) is an argument of the latter.

    The image handlers share the scene sequence and may be under way
    together.  They are put into one transition function [step] on the
    state of the app: an action is an invocation of a handler or the
    settling of one outstanding call, and a session is any sequence of
    actions.  The effects a handler performs on the shared state are
    values of type [Effect]; handler code with [try]/[catch] is written in
    a small monad [Run] that collects them.

    Definitions come first, the properties follow in the second part. *)

From Stdlib Require Import List ZArith NArith Arith Bool String Ascii DecimalString Lia Permutation.
From Stdlib Require DecimalPos DecimalZ.
Import ListNotations.
Local Open Scope string_scope.
Local Open Scope list_scope.
Local Open Scope Z_scope.

(* ================================================================= *)
(** ** JavaScript values *)

(** A JavaScript string whose characters the code inspects (scenario text,
    script text) is a sequence of UTF-16 code units. *)
Definition Text := list N.

(** ECMAScript WhiteSpace and LineTerminator code units: what
    [String.prototype.trim] strips and what the regular expression class
    [\s] matches. *)
Definition isWhiteSpace (c : N) : bool :=
  ((9 <=? c) && (c <=? 13) || (c =? 32) || (c =? 160) || (c =? 5760)
   || (8192 <=? c) && (c <=? 8202) || (c =? 8232) || (c =? 8233)
   || (c =? 8239) || (c =? 8287) || (c =? 12288) || (c =? 65279))%N.

Fixpoint trimStart (s : Text) : Text :=
  match s with
  | c :: r => if isWhiteSpace c then trimStart r else s
  | [] => []
  end.

Definition trimEnd (s : Text) : Text := rev (trimStart (rev s)).

(** [s.trim()] *)
Definition trim (s : Text) : Text := trimEnd (trimStart s).

Definition isEmptyText (s : Text) : bool :=
  match s with [] => true | _ => false end.

(** [s.split(/\s+/)]: the pieces between the maximal runs of white space.
    [afterSpace] tells that the code unit before [s] belonged to a run, so
    that a run opens one new piece only. *)
Fixpoint splitSpaces (afterSpace : bool) (s : Text) : list Text :=
  match s with
  | [] => [[]]
  | c :: r =>
      if isWhiteSpace c then
        if afterSpace then splitSpaces true r else [] :: splitSpaces true r
      else
        match splitSpaces false r with
        | piece :: pieces => (c :: piece) :: pieces
        | [] => [[c]]
        end
  end.

Definition split_ws (s : Text) : list Text := splitSpaces false s.

(** Truthiness of an optional string ([undefined], [null] and the empty
    string are falsy) and of an optional boolean. *)
Definition truthy (s : option string) : bool :=
  match s with
  | Some EmptyString => false
  | Some _ => true
  | None => false
  end.

Definition istrue (b : option bool) : bool :=
  match b with Some true => true | _ => false end.

(** [s || ""] *)
Definition orEmpty (s : option string) : string :=
  match s with Some u => u | None => "" end.

(** A JavaScript number that the code only obtains from [parseInt],
    [Math.ceil] and literals: an integer or NaN. *)
Inductive JsNumber := NaN | Num (z : Z).

(** [d > 0] *)
Definition positive (d : JsNumber) : bool :=
  match d with NaN => false | Num z => 0 <? z end.

(** [Array.prototype.slice(start, end)]; negative indices count from the
    end of the array. *)
Definition slice {A} (s e : Z) (l : list A) : list A :=
  let len := Z.of_nat (List.length l) in
  let k := if s <? 0 then Z.max (len + s) 0 else Z.min s len in
  let final := if e <? 0 then Z.max (len + e) 0 else Z.min e len in
  firstn (Z.to_nat (final - k)) (skipn (Z.to_nat k) l).

(** [Math.ceil(n / d)] for a non-negative integer [n] and a positive
    integer [d] (the quotient is far below the precision limit of a double
    for any array length). *)
Definition ceilDiv (n d : Z) : Z := (n + d - 1) / d.

(* ================================================================= *)
(** ** Types and constants of App.tsx *)

Record ImageFile := {
  name : string;
  dataUrl : string;
  base64 : option string;
  mimeType : string
}.

Module ScenePrompt.
Record t := {
  id : Z;
  phase : string;
  imagePrompt : string;
  videoPrompt : string;
  generatedImageUrl : option string;
  isLoading : option bool;
  generationFailed : option bool
}.
End ScenePrompt.
Abbreviation ScenePrompt := ScenePrompt.t.

Inductive ToastType := success | error | warning | info.

Module ToastMessage.
Record t := {
  id : nat;
  type : ToastType;
  title : string;
  message : string;
  persistent : option bool
}.
End ToastMessage.
Abbreviation ToastMessage := ToastMessage.t.

Definition SCENE_DURATION_SECONDS : Z := 8.
Definition MAX_REFERENCE_IMAGES : Z := 3.
Definition MAX_CONCURRENT_GENERATIONS : Z := 4.

(* ================================================================= *)
(** ** Control panel: the [canBuild] memo *)

(** [referenceImages.length === MAX_REFERENCE_IMAGES &&
     (!!scriptFileName || scenario.trim() !== "") && duration > 0] *)
Definition canBuild (referenceImages : list ImageFile)
    (scriptFileName : option string) (scenario : Text)
    (duration : JsNumber) : bool :=
  (Z.of_nat (List.length referenceImages) =? MAX_REFERENCE_IMAGES)
  && (truthy scriptFileName || negb (isEmptyText (trim scenario)))
  && positive duration.

(** The inputs of plan generation held by [App]. *)
Record Inputs := {
  scenario : Text;
  duration : JsNumber;
  referenceImages : list ImageFile;
  scriptFileName : option string;
  scriptContent : option Text
}.

(** The predicate as the specification words it: exactly three reference
    images, a non-empty script loaded or a non-empty scenario text, and a
    duration above zero. *)
Definition canBuildPlan_spec (i : Inputs) : Prop :=
  List.length (referenceImages i) = 3%nat
  /\ ((exists t, scriptContent i = Some t /\ t <> []) \/ scenario i <> [])
  /\ (exists z, duration i = Num z /\ 0 < z).

(* ================================================================= *)
(** ** Script upload and removal *)

(** [text.split(/\s+/).length] *)
Definition wordCount (text : Text) : Z := Z.of_nat (List.length (split_ws text)).

(** The [reader.onload] callback of [handleScriptUpload], run after
    [setScriptFileName(file.name)]. *)
Definition handleScriptUpload (fileName : string) (text : Text) (i : Inputs)
    : Inputs :=
  {| scenario := scenario i;
     duration := Num (ceilDiv (wordCount text) 150);
     referenceImages := referenceImages i;
     scriptFileName := Some fileName;
     scriptContent := Some text |}.

Definition handleRemoveScript (i : Inputs) : Inputs :=
  {| scenario := scenario i;
     duration := Num 1;
     referenceImages := referenceImages i;
     scriptFileName := None;
     scriptContent := None |}.

(* ================================================================= *)
(** ** Reference images *)

Module File.
(** A browser [File]: its name, its MIME type and what a [FileReader]
    delivers for it ([None]: the reader reports an error). *)
Record t := {
  name : string;
  type : string;
  readAsDataURL : option string
}.
End File.

(** [fileToDataUrl]: the promise resolves with the data URL and the MIME
    type, or rejects. *)
Definition fileToDataUrl (file : File.t) : option (string * string) :=
  match File.readAsDataURL file with
  | Some url => Some (url, File.type file)
  | None => None
  end.

(** [s.split(',')] *)
Fixpoint splitComma (s : string) : list string :=
  match s with
  | EmptyString => [EmptyString]
  | String c r =>
      if Ascii.eqb c "," then EmptyString :: splitComma r
      else match splitComma r with
           | piece :: pieces => String c piece :: pieces
           | [] => [String c EmptyString]
           end
  end.

(** [dataUrl.split(',')[1]] *)
Definition dataUrlToBase64 (url : string) : option string :=
  nth_error (splitComma url) 1.

Definition toImageFile (file : File.t) : option ImageFile :=
  match fileToDataUrl file with
  | Some (url, mime) =>
      Some {| name := File.name file; dataUrl := url;
              base64 := dataUrlToBase64 url; mimeType := mime |}
  | None => None
  end.

(** [Promise.all] over already settled conversions: all results in order,
    or a rejection as soon as one of them rejected. *)
Fixpoint promiseAll {A} (l : list (option A)) : option (list A) :=
  match l with
  | [] => Some []
  | Some a :: r =>
      match promiseAll r with Some v => Some (a :: v) | None => None end
  | None :: _ => None
  end.

(** [handleImageUpload].  [snapshot] is the [referenceImages] the handler
    closed over, [prev] the state at the time the functional update runs
    (the same list unless another upload completed in between).  The
    result is the new state, and whether the handler's promise rejected. *)
Definition handleImageUpload (files : option (list File.t))
    (snapshot prev : list ImageFile) : list ImageFile * bool :=
  match files with
  | None => (prev, false)
  | Some newFiles =>
      let taken :=
        slice 0 (MAX_REFERENCE_IMAGES - Z.of_nat (List.length snapshot)) newFiles in
      match promiseAll (map toImageFile taken) with
      | Some processed => (slice 0 MAX_REFERENCE_IMAGES (prev ++ processed), false)
      | None => (prev, true)
      end
  end.

(* ================================================================= *)
(** ** Spreadsheet export *)

(** The app hands the rows to the xlsx package, which is not part of the
    repository.  The three calls it makes are modelled after the package's
    documented behaviour: [json_to_sheet] writes a header row made of the
    keys of the row objects in order of first appearance and then one row
    per object; it is given no [header] option here, so the header row has
    exactly the keys found in the rows. *)
Inductive CellValue := VNum (z : Z) | VStr (s : string).

(** An object literal: its own keys in insertion order. *)
Definition JsObject := list (string * CellValue).

Definition Worksheet := list (list (option CellValue)).
Definition Workbook := list (string * Worksheet).

Definition addKey (hdr : list string) (k : string) : list string :=
  if existsb (String.eqb k) hdr then hdr else hdr ++ [k].

Definition headerOf (js : list JsObject) : list string :=
  fold_left (fun hdr o => fold_left addKey (map fst o) hdr) js [].

Fixpoint field (k : string) (o : JsObject) : option CellValue :=
  match o with
  | [] => None
  | (k', v) :: r => if String.eqb k k' then Some v else field k r
  end.

Definition json_to_sheet (js : list JsObject) : Worksheet :=
  let hdr := headerOf js in
  map (fun k => Some (VStr k)) hdr :: map (fun o => map (fun k => field k o) hdr) js.

Definition book_new : Workbook := [].

Definition book_append_sheet (wb : Workbook) (ws : Worksheet) (sheetName : string)
    : Workbook := wb ++ [(sheetName, ws)].

(** The file that [XLSX.writeFile] offers for download. *)
Record Download := { filename : string; workbook : Workbook }.

(** How a call of [XLSX.writeFile] ends: with the file, or with the
    [Error] that the writer throws (its message). *)
Inductive WriteResult := Written (file : Download) | WriteError (message : string).

(** The writer refuses a text cell of more than 32767 characters. *)
Definition MAX_CELL_TEXT : Z := 32767.

Definition cellFits (c : option CellValue) : bool :=
  match c with
  | Some (VStr s) => Z.of_nat (String.length s) <=? MAX_CELL_TEXT
  | _ => true
  end.

(** [XLSX.writeFile(workbook, filename)]: the xlsx writer goes through
    the cells of every sheet and throws at a text cell that is too long;
    nothing is written then. *)
Definition writeFile (wb : Workbook) (name : string) : WriteResult :=
  if forallb (fun sheet => forallb (forallb cellFits) (snd sheet)) wb then
    Written {| filename := name; workbook := wb |}
  else WriteError "Text length must not exceed 32767 characters".

Definition exportRow (p : ScenePrompt) : JsObject :=
  [ ("ID", VNum (ScenePrompt.id p));
    ("Phase", VStr (ScenePrompt.phase p));
    ("Image Prompt", VStr (ScenePrompt.imagePrompt p));
    ("Video Prompt", VStr (ScenePrompt.videoPrompt p));
    ("Image URL", VStr (orEmpty (ScenePrompt.generatedImageUrl p))) ].

(** [downloadXLSX]; an exception of the writer leaves the handler
    uncaught. *)
Definition downloadXLSX (prompts : list ScenePrompt) : WriteResult :=
  let worksheet := json_to_sheet (map exportRow prompts) in
  let workbook := book_new in
  let workbook := book_append_sheet workbook worksheet "Prompts" in
  writeFile workbook "Prehistoric_Project_Prompts.xlsx".

(* ================================================================= *)
(** ** Scene records and their updates *)

(** The three functional updates the image handlers pass to [setPrompts];
    each rewrites the records whose id is [id] and keeps the others. *)

(** [p.id === id ? { ...p, isLoading: true, generationFailed: false } : p] *)
Definition setLoading (id : Z) (p : ScenePrompt) : ScenePrompt :=
  if ScenePrompt.id p =? id then
    {| ScenePrompt.id := ScenePrompt.id p;
       ScenePrompt.phase := ScenePrompt.phase p;
       ScenePrompt.imagePrompt := ScenePrompt.imagePrompt p;
       ScenePrompt.videoPrompt := ScenePrompt.videoPrompt p;
       ScenePrompt.generatedImageUrl := ScenePrompt.generatedImageUrl p;
       ScenePrompt.isLoading := Some true;
       ScenePrompt.generationFailed := Some false |}
  else p.

(** [p.id === id ? { ...p, generatedImageUrl: imageUrl, isLoading: false } : p] *)
Definition setImage (id : Z) (imageUrl : string) (p : ScenePrompt) : ScenePrompt :=
  if ScenePrompt.id p =? id then
    {| ScenePrompt.id := ScenePrompt.id p;
       ScenePrompt.phase := ScenePrompt.phase p;
       ScenePrompt.imagePrompt := ScenePrompt.imagePrompt p;
       ScenePrompt.videoPrompt := ScenePrompt.videoPrompt p;
       ScenePrompt.generatedImageUrl := Some imageUrl;
       ScenePrompt.isLoading := Some false;
       ScenePrompt.generationFailed := ScenePrompt.generationFailed p |}
  else p.

(** [p.id === id ? { ...p, isLoading: false, generationFailed: true } : p] *)
Definition setFailed (id : Z) (p : ScenePrompt) : ScenePrompt :=
  if ScenePrompt.id p =? id then
    {| ScenePrompt.id := ScenePrompt.id p;
       ScenePrompt.phase := ScenePrompt.phase p;
       ScenePrompt.imagePrompt := ScenePrompt.imagePrompt p;
       ScenePrompt.videoPrompt := ScenePrompt.videoPrompt p;
       ScenePrompt.generatedImageUrl := ScenePrompt.generatedImageUrl p;
       ScenePrompt.isLoading := Some false;
       ScenePrompt.generationFailed := Some true |}
  else p.

(** [!!p.generatedImageUrl], the test every reader of the field makes. *)
Definition hasImage (p : ScenePrompt) : bool :=
  truthy (ScenePrompt.generatedImageUrl p).

(** The record carries no state field.  The four generation states of the
    specification are what the flags say after the update that the
    specification calls the transition into that state: [setLoading] leads
    to Pending, [setFailed] to Failed, [setImage] to Succeeded, and a
    record no handler has touched is Idle. *)
Inductive GenerationState := Idle | Pending | Succeeded | Failed.

Definition generationState (p : ScenePrompt) : GenerationState :=
  if istrue (ScenePrompt.isLoading p) then Pending
  else if istrue (ScenePrompt.generationFailed p) then Failed
  else if hasImage p then Succeeded
  else Idle.

(** A record as [JSON.parse] delivers it under the response schema: the
    four required fields and nothing else. *)
Definition planned (id : Z) (phase imagePrompt videoPrompt : string) : ScenePrompt :=
  {| ScenePrompt.id := id;
     ScenePrompt.phase := phase;
     ScenePrompt.imagePrompt := imagePrompt;
     ScenePrompt.videoPrompt := videoPrompt;
     ScenePrompt.generatedImageUrl := None;
     ScenePrompt.isLoading := None;
     ScenePrompt.generationFailed := None |}.

Definition isPlanned (p : ScenePrompt) : Prop :=
  ScenePrompt.generatedImageUrl p = None
  /\ ScenePrompt.isLoading p = None
  /\ ScenePrompt.generationFailed p = None.

(* ================================================================= *)
(** ** Effects of the handlers *)

(** A value that is thrown or that a promise rejects with: an [Error]
    with its message, or anything else. *)
Inductive Exception := Error (message : string) | NotAnError.

(** What a handler does to the outside of its own local variables, in the
    order in which it does it. *)
Inductive Effect :=
  | SetIsBuilding (b : bool)
  | SetIsBatchGenerating (b : bool)
  | SetPrompts (value : list ScenePrompt)
  | SetLoading (prompt : ScenePrompt)
  | Request (prompt : ScenePrompt)            (* generateImageFromPrompt(prompt.imagePrompt, ...) *)
  | SetImage (prompt : ScenePrompt) (imageUrl : string)
  | SetFailed (prompt : ScenePrompt)
  | ConsoleError (e : Exception)
  | AddToast (type : ToastType) (title message : string) (persistent : option bool).

(** How the promise of [generateImageFromPrompt] ends.  The function lives
    in services/geminiService; only its result is used here. *)
Inductive Settlement := Resolved (imageUrl : string) | Rejected (reason : Exception).

(** Completion of a piece of handler code. *)
Inductive Completion (A : Type) := Normal (a : A) | Thrown (e : Exception).
Arguments Normal {A} a.
Arguments Thrown {A} e.

(** Handler code over local variables of type [S]: it performs effects,
    changes the local variables and completes normally or throws. *)
Definition Run (S A : Type) : Type := S -> list Effect * S * Completion A.

Definition ret {S A} (a : A) : Run S A := fun s => ([], s, Normal a).

Definition bind {S A B} (m : Run S A) (k : A -> Run S B) : Run S B :=
  fun s =>
    match m s with
    | (out, s', Normal a) =>
        match k a s' with (out', s'', c) => (out ++ out', s'', c) end
    | (out, s', Thrown e) => (out, s', Thrown e)
    end.

Definition throw {S A} (e : Exception) : Run S A := fun s => ([], s, Thrown e).

Definition perform {S} (e : Effect) : Run S unit := fun s => ([e], s, Normal tt).

Definition modify {S} (f : S -> S) : Run S unit := fun s => ([], f s, Normal tt).

(** [try { body } catch (e) { handler(e) }] *)
Definition tryCatch {S A} (body : Run S A) (handler : Exception -> Run S A) : Run S A :=
  fun s =>
    match body s with
    | (out, s', Normal a) => (out, s', Normal a)
    | (out, s', Thrown e) =>
        match handler e s' with (out', s'', c) => (out ++ out', s'', c) end
    end.

(** [try { body } finally { final }] *)
Definition tryFinally {S A} (body : Run S A) (final : Run S unit) : Run S A :=
  fun s =>
    match body s with
    | (out, s', c) =>
        match final s' with
        | (out', s'', Normal _) => (out ++ out', s'', c)
        | (out', s'', Thrown e) => (out ++ out', s'', Thrown e)
        end
    end.

(** [await] on a promise that has settled. *)
Definition await {S} (r : Settlement) : Run S string :=
  match r with
  | Resolved imageUrl => ret imageUrl
  | Rejected reason => throw reason
  end.

Declare Scope run_scope.
Delimit Scope run_scope with run.
Notation "x <- m ;; k" := (bind m (fun x => k))
  (at level 61, m at next level, right associativity) : run_scope.
Notation "m ;; k" := (bind m (fun _ => k))
  (at level 61, right associativity) : run_scope.

(* ================================================================= *)
(** ** The batch handler [handleGenerateAllImages] *)

(** The two counters declared with [let] in the handler. *)
Record Tally := { successCount : nat; failureCount : nat }.

Definition countSuccess (t : Tally) : Tally :=
  {| successCount := S (successCount t); failureCount := failureCount t |}.

Definition countFailure (t : Tally) : Tally :=
  {| successCount := successCount t; failureCount := S (failureCount t) |}.

(** [let successCount = 0; let failureCount = 0;] *)
Definition noTally : Tally := {| successCount := 0; failureCount := 0 |}.

(** [prompts.filter(p => !p.generatedImageUrl)] *)
Definition pendingOf (prompts : list ScenePrompt) : list ScenePrompt :=
  filter (fun p => negb (hasImage p)) prompts.

(** The callback mapped over a chunk, up to its [await]: the optimistic
    update and the call. *)
Definition memberStart (prompt : ScenePrompt) : Run Tally unit :=
  (perform (SetLoading prompt) ;; perform (Request prompt))%run.

(** The same callback from its [await] on, once the call has settled. *)
Definition memberResume (prompt : ScenePrompt) (r : Settlement) : Run Tally unit :=
  tryCatch
    (imageUrl <- await r ;;
     perform (SetImage prompt imageUrl) ;;
     modify countSuccess)%run
    (fun e =>
       perform (ConsoleError e) ;;
       perform (SetFailed prompt) ;;
       modify countFailure)%run.

(** [chunk.map(async (prompt) => ...)]: every callback runs up to its
    [await] before the next one starts. *)
Fixpoint startAll (chunk : list ScenePrompt) : Run Tally unit :=
  match chunk with
  | [] => ret tt
  | prompt :: rest => (memberStart prompt ;; startAll rest)%run
  end.

(** The chunks the [for] loop slices, [i] being the loop variable; the
    loop makes at most one round per element. *)
Fixpoint chunksFrom {A} (fuel : nat) (i : Z) (l : list A) : list (list A) :=
  match fuel with
  | O => []
  | S fuel' =>
      if i <? Z.of_nat (List.length l) then
        slice i (i + MAX_CONCURRENT_GENERATIONS) l
          :: chunksFrom fuel' (i + MAX_CONCURRENT_GENERATIONS) l
      else []
  end.

Definition chunks {A} (l : list A) : list (list A) :=
  chunksFrom (List.length l) 0 l.

Inductive Status :=
  | Returned          (* left at the guard [prompts.length === 0] *)
  | Waiting           (* suspended in [await Promise.all(...)] *)
  | Completed         (* ran to its end *)
  | Aborted (e : Exception).   (* the awaited [Promise.all] rejected *)

(** The local state of one invocation of the handler. *)
Record Batch := {
  snapshot : list ScenePrompt;      (* [prompts] as the invocation sees it *)
  i : Z;                            (* loop variable *)
  awaited : list ScenePrompt;       (* members of the chunk not yet settled *)
  tally : Tally;
  status : Status
}.

Definition pendingPrompts (b : Batch) : list ScenePrompt := pendingOf (snapshot b).

Definition showNat (n : nat) : string := NilZero.string_of_uint (Nat.to_uint n).

Definition batchToast (t : Tally) : Effect :=
  AddToast (if (0 <? failureCount t)%nat then warning else success)
    "Batch Generation Complete"
    ("Successfully generated: " ++ showNat (successCount t) ++ " images."
     ++ String (ascii_of_nat 10) "Failed: "
     ++ showNat (failureCount t) ++ " images.")%string
    (Some true).

(** The head of the [for] loop with loop variable [from]: either the next
    chunk is sliced and all its members are started (none of them can
    throw before its [await]), or the loop is left, the flag is cleared
    and the toast is posted.  The result is the new local state and the
    effects performed. *)
Definition enterLoop (from : Z) (b : Batch) : Batch * list Effect :=
  if from <? Z.of_nat (List.length (pendingPrompts b)) then
    let chunk := slice from (from + MAX_CONCURRENT_GENERATIONS) (pendingPrompts b) in
    match startAll chunk (tally b) with
    | (out, t, _) =>
        ({| snapshot := snapshot b; i := from; awaited := chunk; tally := t;
            status := Waiting |}, out)
    end
  else
    ({| snapshot := snapshot b; i := from; awaited := []; tally := tally b;
        status := Completed |},
     [SetIsBatchGenerating false; batchToast (tally b)]).

(** The invocation up to its first [await] (or to its end when there is
    nothing to wait for). *)
Definition handleGenerateAllImages (prompts : list ScenePrompt) : Batch * list Effect :=
  let start st :=
    {| snapshot := prompts; i := 0; awaited := []; tally := noTally;
       status := st |} in
  match prompts with
  | [] => (start Returned, [])
  | _ =>
      match enterLoop 0 (start Waiting) with
      | (b, out) => (b, SetIsBatchGenerating true :: out)
      end
  end.

Fixpoint removeNth {A} (k : nat) (l : list A) : list A :=
  match k, l with
  | _, [] => []
  | O, _ :: r => r
  | S k', x :: r => x :: removeNth k' r
  end.

(** The call of the [k]-th awaited member settles with [r]: its callback
    resumes; when it was the last one awaited, [Promise.all] resolves and
    the loop goes on with [i += chunkSize].  A callback that threw would
    reject [Promise.all] and with it the handler, while the callbacks of
    the other members would still run when their calls settle. *)
Definition memberSettles (k : nat) (r : Settlement) (b : Batch) : Batch * list Effect :=
  match nth_error (awaited b) k with
  | None => (b, [])
  | Some prompt =>
      match memberResume prompt r (tally b) with
      | (out, t, c) =>
          let rest := removeNth k (awaited b) in
          let after st :=
            {| snapshot := snapshot b; i := i b; awaited := rest; tally := t;
               status := st |} in
          match status b, c with
          | Waiting, Normal _ =>
              match rest with
              | [] =>
                  match enterLoop (i b + MAX_CONCURRENT_GENERATIONS) (after Waiting) with
                  | (b', out') => (b', out ++ out')
                  end
              | _ => (after Waiting, out)
              end
          | Waiting, Thrown e => (after (Aborted e), out)
          | st, _ => (after st, out)
          end
      end
  end.

(* ================================================================= *)
(** ** The single-scene handler [handleGenerateImage] *)

(** [`${id}`] for an integer id: its decimal digits.  (JavaScript prints
    an integer of 22 digits or more in exponent form; ids of that size
    are not printed as the engine prints them.) *)
Definition showZ (z : Z) : string := NilZero.string_of_int (Z.to_int z).

(** [prompts.find(p => p.id === id)] *)
Definition findPrompt (id : Z) (prompts : list ScenePrompt) : option ScenePrompt :=
  find (fun p => ScenePrompt.id p =? id) prompts.

(** The handler up to its [await]; [None] when it returns at
    [if (!prompt) return]. *)
Definition handleGenerateImage (id : Z) (prompts : list ScenePrompt)
    : option (ScenePrompt * list Effect) :=
  match findPrompt id prompts with
  | None => None
  | Some prompt => Some (prompt, [SetLoading prompt; Request prompt])
  end.

(** The handler from its [await] on. *)
Definition callResume (prompt : ScenePrompt) (r : Settlement) : Run unit unit :=
  tryCatch
    (imageUrl <- await r ;;
     perform (SetImage prompt imageUrl))%run
    (fun _ =>
       perform (SetFailed prompt) ;;
       perform (AddToast error
                  ("Scene " ++ showZ (ScenePrompt.id prompt) ++ " Error")%string
                  "Failed to generate image." None))%run.

(* ================================================================= *)
(** ** The state of [App] and what the effects do to it *)

(** An invocation of the batch handler together with the effects it has
    performed so far; the latter is a record kept for the proofs, not
    data of the program. *)
Record Invocation := { batch : Batch; log : list Effect }.

(** The invocation after a step of the handler that led to the local
    state and performed the effects [res]. *)
Definition record (before : list Effect) (res : Batch * list Effect) : Invocation :=
  {| batch := fst res; log := before ++ snd res |}.

Record App := {
  prompts : list ScenePrompt;
  isBuilding : bool;
  isBatchGenerating : bool;
  toasts : list ToastMessage;
  timeouts : list nat;        (* ids whose [setTimeout(removeToast)] is pending *)
  random : nat;               (* how many ids [Math.random] has been asked for *)
  runs : list Invocation;     (* invocations of [handleGenerateAllImages] *)
  calls : list ScenePrompt    (* unsettled calls of [handleGenerateImage] *)
}.

Definition withPrompts (f : list ScenePrompt -> list ScenePrompt) (a : App) : App :=
  {| prompts := f (prompts a); isBuilding := isBuilding a;
     isBatchGenerating := isBatchGenerating a; toasts := toasts a;
     timeouts := timeouts a; random := random a; runs := runs a;
     calls := calls a |}.

Definition withIsBuilding (v : bool) (a : App) : App :=
  {| prompts := prompts a; isBuilding := v;
     isBatchGenerating := isBatchGenerating a; toasts := toasts a;
     timeouts := timeouts a; random := random a; runs := runs a;
     calls := calls a |}.

Definition withIsBatchGenerating (v : bool) (a : App) : App :=
  {| prompts := prompts a; isBuilding := isBuilding a;
     isBatchGenerating := v; toasts := toasts a;
     timeouts := timeouts a; random := random a; runs := runs a;
     calls := calls a |}.

Definition withRuns (v : list Invocation) (a : App) : App :=
  {| prompts := prompts a; isBuilding := isBuilding a;
     isBatchGenerating := isBatchGenerating a; toasts := toasts a;
     timeouts := timeouts a; random := random a; runs := v;
     calls := calls a |}.

Definition withCalls (v : list ScenePrompt) (a : App) : App :=
  {| prompts := prompts a; isBuilding := isBuilding a;
     isBatchGenerating := isBatchGenerating a; toasts := toasts a;
     timeouts := timeouts a; random := random a; runs := runs a;
     calls := v |}.

(** [addToast]: the id is the next draw of [Math.random] (an opaque token,
    here the number of the draw); a timeout is set unless the toast is
    persistent. *)
Definition addToast (type : ToastType) (title message : string)
    (persistent : option bool) (a : App) : App :=
  let id := random a in
  {| prompts := prompts a; isBuilding := isBuilding a;
     isBatchGenerating := isBatchGenerating a;
     toasts := toasts a ++ [ {| ToastMessage.id := id;
                                ToastMessage.type := type;
                                ToastMessage.title := title;
                                ToastMessage.message := message;
                                ToastMessage.persistent := persistent |} ];
     timeouts := if istrue persistent then timeouts a else timeouts a ++ [id];
     random := S (random a); runs := runs a; calls := calls a |}.

(** [removeToast] *)
Definition removeToast (id : nat) (a : App) : App :=
  {| prompts := prompts a; isBuilding := isBuilding a;
     isBatchGenerating := isBatchGenerating a;
     toasts := filter (fun t => negb (ToastMessage.id t =? id)%nat) (toasts a);
     timeouts := timeouts a; random := random a; runs := runs a;
     calls := calls a |}.

Definition applyEffect (a : App) (e : Effect) : App :=
  match e with
  | SetIsBuilding b => withIsBuilding b a
  | SetIsBatchGenerating b => withIsBatchGenerating b a
  | SetPrompts value => withPrompts (fun _ => value) a
  | SetLoading prompt => withPrompts (map (setLoading (ScenePrompt.id prompt))) a
  | Request _ => a
  | SetImage prompt imageUrl =>
      withPrompts (map (setImage (ScenePrompt.id prompt) imageUrl)) a
  | SetFailed prompt => withPrompts (map (setFailed (ScenePrompt.id prompt))) a
  | ConsoleError _ => a
  | AddToast type title message persistent => addToast type title message persistent a
  end.

Definition applyEffects (out : list Effect) (a : App) : App :=
  fold_left applyEffect out a.

(* ================================================================= *)
(** ** A session: handler invocations and settling calls in any order *)

Inductive Action :=
  | GenerateAllImages                              (* handleGenerateAllImages() *)
  | GenerateImage (id : Z)                         (* handleGenerateImage(id) *)
  | MemberSettles (run k : nat) (r : Settlement)   (* a call of batch [run] settles *)
  | CallSettles (k : nat) (r : Settlement)         (* a single-scene call settles *)
  | RemoveToast (id : nat)                         (* the close button of a toast *)
  | TimeoutFires (k : nat).                        (* a pending timeout runs *)

Fixpoint replaceNth {A} (k : nat) (x : A) (l : list A) : list A :=
  match k, l with
  | _, [] => []
  | O, _ :: r => x :: r
  | S k', y :: r => y :: replaceNth k' x r
  end.

Definition step (a : App) (act : Action) : App :=
  match act with
  | GenerateAllImages =>
      let res := handleGenerateAllImages (prompts a) in
      applyEffects (snd res) (withRuns (runs a ++ [record [] res]) a)
  | GenerateImage id =>
      match handleGenerateImage id (prompts a) with
      | None => a
      | Some (prompt, out) => applyEffects out (withCalls (calls a ++ [prompt]) a)
      end
  | MemberSettles run k r =>
      match nth_error (runs a) run with
      | None => a
      | Some inv =>
          let res := memberSettles k r (batch inv) in
          applyEffects (snd res)
            (withRuns (replaceNth run (record (log inv) res) (runs a)) a)
      end
  | CallSettles k r =>
      match nth_error (calls a) k with
      | None => a
      | Some prompt =>
          match callResume prompt r tt with
          | (out, _, _) => applyEffects out (withCalls (removeNth k (calls a)) a)
          end
      end
  | RemoveToast id => removeToast id a
  | TimeoutFires k =>
      match nth_error (timeouts a) k with
      | None => a
      | Some id =>
          removeToast id
            {| prompts := prompts a; isBuilding := isBuilding a;
               isBatchGenerating := isBatchGenerating a; toasts := toasts a;
               timeouts := removeNth k (timeouts a); random := random a;
               runs := runs a; calls := calls a |}
      end
  end.

Definition session (acts : list Action) (a : App) : App := fold_left step acts a.

(** The app showing the plan [plan] with nothing under way. *)
Definition showing (plan : list ScenePrompt) : App :=
  {| prompts := plan; isBuilding := false; isBatchGenerating := false;
     toasts := []; timeouts := []; random := 0; runs := []; calls := [] |}.

(** What the rendered page lets the user trigger: the button "Generate All
    Images" exists when there are prompts and is disabled while
    [isBatchGenerating]; a card's "Generate Image" button exists when the
    card has no image and is not loading, its "Regenerate" button when it
    has an image, and both are disabled while [isBatchGenerating]. *)
Definition offered (a : App) (act : Action) : bool :=
  match act with
  | GenerateAllImages =>
      negb (Nat.eqb (List.length (prompts a)) 0) && negb (isBatchGenerating a)
  | GenerateImage id =>
      negb (isBatchGenerating a)
      && existsb (fun p => (ScenePrompt.id p =? id)
                           && (hasImage p || negb (istrue (ScenePrompt.isLoading p))))
           (prompts a)
  | _ => true
  end.

(** A session in which the user acts through the page only. *)
Fixpoint throughPage (acts : list Action) (a : App) : bool :=
  match acts with
  | [] => true
  | act :: rest => offered a act && throughPage rest (step a act)
  end.

(** Batch [run] is driven to its end: its awaited calls settle one after
    the other, the [n]-th of them as [outcome n] says. *)
Fixpoint drain (fuel : nat) (run : nat) (outcome : nat -> Settlement) (n : nat)
    (a : App) : App :=
  match fuel with
  | O => a
  | S fuel' =>
      drain fuel' run outcome (S n) (step a (MemberSettles run 0 (outcome n)))
  end.

(* ================================================================= *)
(** ** Plan generation: [buildPrompts] *)

(** How [ai.models.generateContent] ends: with a response whose [text] may
    be missing, or with a rejection. *)
Inductive Reply := Response (text : option string) | Refused (reason : Exception).

Definition errorMessage (e : Exception) : string :=
  match e with Error message => message | NotAnError => "Unknown error" end.

Section PlanGeneration.

(** [JSON.parse] on the response text: the scene array or the
    [SyntaxError] it throws.  The request carries a response schema that
    asks for an array of scene objects; a text that is JSON of another
    shape has no counterpart here. *)
Variable JSON_parse : string -> Exception + list ScenePrompt.

(** The handler up to its [await]. *)
Definition buildPromptsStart : list Effect :=
  [SetIsBuilding true; SetPrompts []].

(** The handler from its [await] on. *)
Definition buildPromptsResume (reply : Reply) : Run unit unit :=
  tryFinally
    (tryCatch
       (jsonText <- (match reply with
                     | Response text => ret text
                     | Refused reason => throw reason
                     end) ;;
        if truthy jsonText then
          match JSON_parse (orEmpty jsonText) with
          | inr generatedData =>
              perform (SetPrompts generatedData) ;;
              perform (AddToast success "Prompts Generated"
                         ("Successfully created "
                          ++ showNat (List.length generatedData)
                          ++ " scene prompts.")%string None)
          | inl e => throw e
          end
        else throw (Error "No response from AI"))%run
       (fun e =>
          perform (ConsoleError e) ;;
          perform (AddToast error "Generation Failed" (errorMessage e) None))%run)
    (perform (SetIsBuilding false)).

Definition buildPromptsBegin (a : App) : App := applyEffects buildPromptsStart a.

Definition buildPromptsEnd (reply : Reply) (a : App) : App :=
  match buildPromptsResume reply tt with
  | (out, _, _) => applyEffects out a
  end.

End PlanGeneration.

(* ================================================================= *)
(** ** Vocabulary of the properties *)

(** The effects of starting the members of a group, in order. *)
Definition launchEffects (group : list ScenePrompt) : list Effect :=
  flat_map (fun prompt => [SetLoading prompt; Request prompt]) group.

(** The effects of one settling call. *)
Definition settleEffect (s : ScenePrompt * Settlement) : list Effect :=
  match snd s with
  | Resolved imageUrl => [SetImage (fst s) imageUrl]
  | Rejected e => [ConsoleError e; SetFailed (fst s)]
  end.

Definition settleEffects (settled : list (ScenePrompt * Settlement)) : list Effect :=
  flat_map settleEffect settled.

Definition isResolved (s : ScenePrompt * Settlement) : bool :=
  match snd s with Resolved _ => true | Rejected _ => false end.

Definition resolvedIn (settled : list (ScenePrompt * Settlement)) : nat :=
  List.length (filter isResolved settled).

Definition rejectedIn (settled : list (ScenePrompt * Settlement)) : nat :=
  List.length (filter (fun s => negb (isResolved s)) settled).

(** A round: a group and the settlements observed for it, in the order in
    which they arrived. *)
Definition Round : Type := list ScenePrompt * list (ScenePrompt * Settlement).

Definition roundEffects (round : Round) : list Effect :=
  launchEffects (fst round) ++ settleEffects (snd round).

(** Every member of the group has settled, once. *)
Definition finishedRound (round : Round) : Prop :=
  Permutation (map fst (snd round)) (fst round).

(** The invocation [inv] has worked through the groups [groups] one after
    the other: its log is the flag being set, then one finished round per
    group in order, and then either the round under way (all its members
    started, some settled, the others awaited) or, at the end, the flag
    being cleared followed by the toast.  The counters count the
    settlements seen.  An invocation that left at the guard has done
    nothing. *)
Definition InOrder (groups : list (list ScenePrompt)) (inv : Invocation) : Prop :=
  match status (batch inv) with
  | Returned => snapshot (batch inv) = [] /\ awaited (batch inv) = [] /\ log inv = []
  | Waiting =>
      exists (done : list Round) (group : list ScenePrompt)
             (rest : list (list ScenePrompt))
             (settled : list (ScenePrompt * Settlement)),
        groups = map fst done ++ group :: rest
        /\ Forall finishedRound done
        /\ Permutation (map fst settled ++ awaited (batch inv)) group
        /\ awaited (batch inv) <> []
        /\ i (batch inv) = MAX_CONCURRENT_GENERATIONS * Z.of_nat (List.length done)
        /\ log inv = SetIsBatchGenerating true
                       :: flat_map roundEffects done
                       ++ launchEffects group ++ settleEffects settled
        /\ successCount (tally (batch inv))
           = resolvedIn (flat_map snd done ++ settled)
        /\ failureCount (tally (batch inv))
           = rejectedIn (flat_map snd done ++ settled)
  | Completed =>
      exists done : list Round,
        groups = map fst done
        /\ Forall finishedRound done
        /\ awaited (batch inv) = []
        /\ snapshot (batch inv) <> []
        /\ log inv = SetIsBatchGenerating true
                       :: flat_map roundEffects done
                       ++ [SetIsBatchGenerating false; batchToast (tally (batch inv))]
        /\ successCount (tally (batch inv)) = resolvedIn (flat_map snd done)
        /\ failureCount (tally (batch inv)) = rejectedIn (flat_map snd done)
  | Aborted _ => False
  end.

(** [InOrder] for the groups the invocation's own pending prompts are
    cut into. *)
Definition Orderly (inv : Invocation) : Prop :=
  InOrder (chunks (pendingPrompts (batch inv))) inv.

Definition isRequest (e : Effect) : bool :=
  match e with Request _ => true | _ => false end.

Definition isSettle (e : Effect) : bool :=
  match e with SetImage _ _ | SetFailed _ => true | _ => false end.

Definition isToast (e : Effect) : bool :=
  match e with AddToast _ _ _ _ => true | _ => false end.

(** Calls started and calls settled according to a log. *)
Definition requested (l : list Effect) : nat := List.length (filter isRequest l).
Definition settledIn (l : list Effect) : nat := List.length (filter isSettle l).

Definition isWaiting (inv : Invocation) : bool :=
  match status (batch inv) with Waiting => true | _ => false end.

(** The ids of all image calls that have not settled. *)
Definition outstanding (a : App) : list Z :=
  map ScenePrompt.id (calls a)
  ++ flat_map (fun inv => map ScenePrompt.id (awaited (batch inv))) (runs a).

(** The prompts for which an action starts a call. *)
Definition startedBy (a : App) (act : Action) : list ScenePrompt :=
  match act with
  | GenerateAllImages => awaited (fst (handleGenerateAllImages (prompts a)))
  | GenerateImage id =>
      match findPrompt id (prompts a) with Some prompt => [prompt] | None => [] end
  | MemberSettles run k r =>
      match nth_error (runs a) run with
      | Some inv =>
          let b := fst (memberSettles k r (batch inv)) in
          if i b =? i (batch inv) then [] else awaited b
      | None => []
      end
  | _ => []
  end.

(** An action that starts calls only for scenes that have no image yet and
    no call outstanding, and no two calls for one id. *)
Definition careful (a : App) (act : Action) : Prop :=
  NoDup (map ScenePrompt.id (startedBy a act))
  /\ forall q, In q (startedBy a act) ->
       ~ In (ScenePrompt.id q) (outstanding a)
       /\ forall p, In p (prompts a) -> ScenePrompt.id p = ScenePrompt.id q ->
            hasImage p = false.

Fixpoint carefully (acts : list Action) (a : App) : Prop :=
  match acts with
  | [] => True
  | act :: rest => careful a act /\ carefully rest (step a act)
  end.

(** The number of maximal runs of white space in a text, [afterSpace]
    telling whether the text continues such a run. *)
Fixpoint spaceRuns (afterSpace : bool) (s : Text) : nat :=
  match s with
  | [] => O
  | c :: r =>
      if isWhiteSpace c then
        if afterSpace then spaceRuns true r else S (spaceRuns true r)
      else spaceRuns false r
  end.

(** The header row and the cells of a scene's row in the exported sheet. *)
Definition columns : list string :=
  ["ID"; "Phase"; "Image Prompt"; "Video Prompt"; "Image URL"].

Definition headerRow : list (option CellValue) :=
  map (fun k => Some (VStr k)) columns.

Definition sceneRow (p : ScenePrompt) : list (option CellValue) :=
  [ Some (VNum (ScenePrompt.id p));
    Some (VStr (ScenePrompt.phase p));
    Some (VStr (ScenePrompt.imagePrompt p));
    Some (VStr (ScenePrompt.videoPrompt p));
    Some (VStr (orEmpty (ScenePrompt.generatedImageUrl p))) ].

(** A text that the xlsx writer accepts in a cell, and a scene all of
    whose texts it accepts. *)
Definition fitsCell (s : string) : bool :=
  Z.of_nat (String.length s) <=? MAX_CELL_TEXT.

Definition exportable (p : ScenePrompt) : bool :=
  fitsCell (ScenePrompt.phase p)
  && fitsCell (ScenePrompt.imagePrompt p)
  && fitsCell (ScenePrompt.videoPrompt p)
  && fitsCell (orEmpty (ScenePrompt.generatedImageUrl p)).

(** An effect that leaves the plan in place (it may rewrite records). *)
Definition keepsPlan (e : Effect) : bool :=
  match e with SetPrompts _ => false | _ => true end.

(** An effect on the scene records alone. *)
Definition sceneOnly (e : Effect) : bool :=
  match e with
  | SetLoading _ | Request _ | SetImage _ _ | SetFailed _ | ConsoleError _ => true
  | _ => false
  end.

(** What an effect does to the scene sequence. *)
Definition rewritePrompts (ps : list ScenePrompt) (e : Effect) : list ScenePrompt :=
  match e with
  | SetPrompts value => value
  | SetLoading prompt => map (setLoading (ScenePrompt.id prompt)) ps
  | SetImage prompt imageUrl => map (setImage (ScenePrompt.id prompt) imageUrl) ps
  | SetFailed prompt => map (setFailed (ScenePrompt.id prompt)) ps
  | _ => ps
  end.

(** The calls of an invocation that have not settled: those awaited and
    those of the groups not yet started. *)
Definition remaining (b : Batch) : nat :=
  (List.length (awaited b)
   + (List.length (pendingPrompts b)
      - Z.to_nat (i b + MAX_CONCURRENT_GENERATIONS)))%nat.

(** How many of the settlements number [n], ..., [n + m - 1] of an outcome
    function are resolutions, and how many are rejections. *)
Definition resolves (r : Settlement) : bool :=
  match r with Resolved _ => true | Rejected _ => false end.

Definition resolvedAmong (outcome : nat -> Settlement) (n m : nat) : nat :=
  List.length (filter (fun k => resolves (outcome k)) (seq n m)).

Definition rejectedAmong (outcome : nat -> Settlement) (n m : nat) : nat :=
  List.length (filter (fun k => negb (resolves (outcome k))) (seq n m)).

(** The toast of a finished batch with the given counts, as it stands in
    the list of toasts under the id [id]. *)
Definition aggregateToast (id : nat) (t : Tally) : ToastMessage :=
  {| ToastMessage.id := id;
     ToastMessage.type := if (0 <? failureCount t)%nat then warning else success;
     ToastMessage.title := "Batch Generation Complete";
     ToastMessage.message :=
       ("Successfully generated: " ++ showNat (successCount t) ++ " images."
        ++ String (ascii_of_nat 10) "Failed: "
        ++ showNat (failureCount t) ++ " images.")%string;
     ToastMessage.persistent := Some true |}.

(** The part of an invocation's local state that decides how it goes on. *)
Definition control (b : Batch) : list ScenePrompt * Z * list ScenePrompt * Status :=
  (snapshot b, i b, awaited b, status b).

(** [careful] and [carefully] as tests that can be run. *)
Fixpoint distinct (l : list Z) : bool :=
  match l with
  | [] => true
  | x :: r => negb (existsb (Z.eqb x) r) && distinct r
  end.

Definition carefulb (a : App) (act : Action) : bool :=
  distinct (map ScenePrompt.id (startedBy a act))
  && forallb
       (fun q =>
          negb (existsb (Z.eqb (ScenePrompt.id q)) (outstanding a))
          && forallb (fun p => negb (ScenePrompt.id p =? ScenePrompt.id q)
                               || negb (hasImage p)) (prompts a))
       (startedBy a act).

Fixpoint carefullyb (acts : list Action) (a : App) : bool :=
  match acts with
  | [] => true
  | act :: rest => carefulb a act && carefullyb rest (step a act)
  end.

(** The call that an action settles, with its outcome. *)
Definition settledBy (a : App) (act : Action) : option (ScenePrompt * Settlement) :=
  match act with
  | MemberSettles run k r =>
      match nth_error (runs a) run with
      | Some inv =>
          match nth_error (awaited (batch inv)) k with
          | Some prompt => Some (prompt, r)
          | None => None
          end
      | None => None
      end
  | CallSettles k r =>
      match nth_error (calls a) k with
      | Some prompt => Some (prompt, r)
      | None => None
      end
  | _ => None
  end.

(** What a settling call does to one scene record, and what the start of
    calls for [started] does to it. *)
Definition settleOne (s : ScenePrompt * Settlement) (q : ScenePrompt) : ScenePrompt :=
  match snd s with
  | Resolved imageUrl => setImage (ScenePrompt.id (fst s)) imageUrl q
  | Rejected _ => setFailed (ScenePrompt.id (fst s)) q
  end.

Definition loadAll (started : list ScenePrompt) (q : ScenePrompt) : ScenePrompt :=
  fold_left (fun q' s => setLoading (ScenePrompt.id s) q') started q.

(** The flags of every record agree with the calls under way: a record
    whose id has a call outstanding is loading, not failed and without an
    image; a record whose id has none is not loading and, if it has an
    image, not failed.  No id has two calls outstanding. *)
Definition Consistent (a : App) : Prop :=
  NoDup (outstanding a)
  /\ forall p, In p (prompts a) ->
       (In (ScenePrompt.id p) (outstanding a) ->
        istrue (ScenePrompt.isLoading p) = true
        /\ istrue (ScenePrompt.generationFailed p) = false
        /\ hasImage p = false)
       /\ (~ In (ScenePrompt.id p) (outstanding a) ->
           istrue (ScenePrompt.isLoading p) = false
           /\ (hasImage p = true -> istrue (ScenePrompt.generationFailed p) = false)).

(* ================================================================= *)
(** ** Sample data *)

Definition threeImages : list ImageFile :=
  let img n := {| name := n; dataUrl := "data:image/png;base64,AAAA";
                  base64 := Some "AAAA"; mimeType := "image/png" |} in
  [img "a.png"; img "b.png"; img "c.png"].

(** The inputs with three images, no script, a scenario of one space and
    the default duration. *)
Definition blankScenarioInputs : Inputs :=
  {| scenario := [32%N]; duration := Num 1; referenceImages := threeImages;
     scriptFileName := None; scriptContent := None |}.

Definition pngFile (n : string) : File.t :=
  {| File.name := n; File.type := "image/png";
     File.readAsDataURL := Some "data:image/png;base64,AAAA" |}.


Definition scene (n : Z) : ScenePrompt := planned n "Hook" "image" "video".

Definition tenScenes : list ScenePrompt := map scene [1; 2; 3; 4; 5; 6; 7; 8; 9; 10].

(** The data URL of an image of 32768 base64 characters, and the first
    sample scene with this image. *)
Fixpoint replicate (n : nat) (c : ascii) : string :=
  match n with
  | O => ""
  | S n' => String c (replicate n' c)
  end.

Definition longImageUrl : string :=
  ("data:image/png;base64," ++ replicate (Z.to_nat 32768) "A")%string.

Definition sceneWithLongImage : ScenePrompt := setImage 1 longImageUrl (scene 1).

(** A script of 150 words, one blank between two words and a line break
    at the end. *)
Definition sampleScript : Text :=
  (flat_map (fun _ => [97; 32]) (seq 0 149) ++ [97; 10])%N.

(** A parser that accepts nothing. *)
Definition rejectingParser (text : string) : Exception + list ScenePrompt :=
  inl (Error "Unexpected token").

(** Three of ten calls fail: the first three to settle. *)
Definition threeFail (n : nat) : Settlement :=
  if (n <? 3)%nat then Rejected (Error "503") else Resolved "data:image/png;base64,AAAA".

(** Every call fails. *)
Definition allFail (n : nat) : Settlement := Rejected (Error "503").

(** A batch over two scenes: the call of the first resolves, the call of
    the second rejects. *)
Definition twoScenes : list ScenePrompt := [scene 1; scene 2].

Definition oneOfTwoFails : list Action :=
  [GenerateAllImages;
   MemberSettles 0 0 (Resolved "data:image/png;base64,AAAA");
   MemberSettles 0 0 (Rejected (Error "503"))].

(* ================================================================= *)
(** ** Further handlers of [App] *)

(** The result of arithmetic on a number of the state: NaN, an integer
    that is a double, or an infinity.  (The sign of a zero is not kept;
    no test and no printout of the app tells the two zeros apart.) *)
Inductive Double := DNaN | DNum (z : Z) | DInfinity (negative : bool).

(** The double nearest to the integer [z], ties going to the even
    significand: integers below 2^53 in absolute value are doubles; a
    longer one keeps its 53 leading bits, rounded; from 2^1024 - 2^970 on
    the result is an infinity. *)
Definition roundDouble (z : Z) : Double :=
  let m := Z.abs z in
  if m <? 2 ^ 53 then DNum z
  else
    let e := Z.log2 m - 52 in
    let q := Z.shiftr m e in
    let r := Z.land m (Z.ones e) in
    let half := Z.shiftl 1 (e - 1) in
    let q' := if (half <? r) || ((r =? half) && Z.odd q) then q + 1 else q in
    if 2 ^ 1024 <=? Z.shiftl q' e then DInfinity (z <? 0)
    else DNum (Z.sgn z * Z.shiftl q' e).

(** [d > 0] on such a result. *)
Definition dpositive (d : Double) : bool :=
  match d with
  | DNaN => false
  | DNum z => 0 <? z
  | DInfinity negative => negb negative
  end.

(** [Math.ceil((duration * 60) / SCENE_DURATION_SECONDS)], the scene count
    [buildPrompts] asks for.  The product is rounded to a double; the
    division by 8 and the ceiling of the quotient are exact. *)
Definition totalScenes (duration : JsNumber) : Double :=
  match duration with
  | NaN => DNaN
  | Num d =>
      match roundDouble (d * 60) with
      | DNum v => DNum (ceilDiv v SCENE_DURATION_SECONDS)
      | other => other
      end
  end.

(** [scriptContent || scenario], the narrative [buildPrompts] puts into
    its request. *)
Definition narrative (scriptContent : option Text) (scenario : Text) : Text :=
  match scriptContent with
  | Some (c :: r) => c :: r
  | _ => scenario
  end.

(** [disabled={!canBuild || isBuilding || !hasApiKey}] of the button that
    calls [buildPrompts]. *)
Definition buildDisabled (canBuild isBuilding hasApiKey : bool) : bool :=
  negb canBuild || isBuilding || negb hasApiKey.

(** [l.join(sep)] *)
Fixpoint join (sep : string) (l : list string) : string :=
  match l with
  | [] => ""
  | [x] => x
  | x :: r => (x ++ sep ++ join sep r)%string
  end.

(** The argument of [copyAllPrompts]: ['image'] or ['video']. *)
Inductive PromptKind := ImagePrompts | VideoPrompts.

Definition kindName (type : PromptKind) : string :=
  match type with ImagePrompts => "image" | VideoPrompts => "video" end.

Definition blankLine : string := String (ascii_of_nat 10) (String (ascii_of_nat 10) "").

(** [copyAllPrompts]: the text written to the clipboard and the toast. *)
Definition copyAllPrompts (type : PromptKind) (prompts : list ScenePrompt)
    : string * Effect :=
  (join blankLine
     (map (fun p => match type with
                    | ImagePrompts => ScenePrompt.imagePrompt p
                    | VideoPrompts => ScenePrompt.videoPrompt p
                    end) prompts),
   AddToast info "Copied"
     ("All " ++ kindName type ++ " prompts copied to clipboard.")%string None).

(** A download started by a timeout: after [delay] milliseconds the link
    [href] is clicked with the file name [download]. *)
Record ScheduledDownload := { delay : Z; href : string; download : string }.

(** [`scene-${p.id}.png`] *)
Definition sceneFileName (id : Z) : string :=
  ("scene-" ++ showZ id ++ ".png")%string.

(** [images.forEach(p => { setTimeout(..., delay); delay += 200; })] *)
Fixpoint scheduleDownloads (delay : Z) (images : list ScenePrompt)
    : list ScheduledDownload :=
  match images with
  | [] => []
  | p :: rest =>
      {| delay := delay;
         href := orEmpty (ScenePrompt.generatedImageUrl p);
         download := sceneFileName (ScenePrompt.id p) |}
      :: scheduleDownloads (delay + 200) rest
  end.

(** [downloadAllImages]: the downloads it schedules and the toast. *)
Definition downloadAllImages (prompts : list ScenePrompt)
    : list ScheduledDownload * Effect :=
  let images := filter hasImage prompts in
  match images with
  | [] => ([], AddToast warning "No Images" "Generate images first." None)
  | _ =>
      (scheduleDownloads 0 images,
       AddToast info "Downloading"
         ("Downloading " ++ showNat (List.length images) ++ " images...")%string None)
  end.

(** [handleImageDownload] of a card: the link clicked, if any. *)
Definition handleImageDownload (prompt : ScenePrompt) : option (string * string) :=
  if hasImage prompt then
    Some (orEmpty (ScenePrompt.generatedImageUrl prompt),
          sceneFileName (ScenePrompt.id prompt))
  else None.

(** Everything that happens to the state of [App] while it shows a plan:
    the actions of a session, plan generation before and after its
    [await], and the two handlers of the bulk buttons that post a toast. *)
Inductive Event :=
  | Does (act : Action)
  | BuildPrompts                            (* buildPrompts() up to its await *)
  | BuildSettles (reply : Reply)            (* ... and from its await on *)
  | CopyAllPrompts (type : PromptKind)      (* copyAllPrompts(type) *)
  | DownloadAllImages.                      (* downloadAllImages() *)

Definition react (JSON_parse : string -> Exception + list ScenePrompt)
    (a : App) (ev : Event) : App :=
  match ev with
  | Does act => step a act
  | BuildPrompts => buildPromptsBegin a
  | BuildSettles reply => buildPromptsEnd JSON_parse reply a
  | CopyAllPrompts type => applyEffect a (snd (copyAllPrompts type (prompts a)))
  | DownloadAllImages => applyEffect a (snd (downloadAllImages (prompts a)))
  end.

Definition history (JSON_parse : string -> Exception + list ScenePrompt)
    (evs : list Event) (a : App) : App :=
  fold_left (react JSON_parse) evs a.

(** [parseInt(s, 10)]: leading white space is skipped, then an optional
    sign, then the longest run of decimal digits is read; without a digit
    the result is NaN, otherwise it is the double nearest to the signed
    value of the run. *)
Definition isDigit (c : N) : bool := ((48 <=? c) && (c <=? 57))%N.

Fixpoint digitsValue (acc : Z) (s : Text) : Z :=
  match s with
  | c :: r =>
      if isDigit c then digitsValue (10 * acc + Z.of_N (c - 48)) r else acc
  | [] => acc
  end.

Definition parseInt (s : Text) : Double :=
  let t := trimStart s in
  let signed :=
    match t with
    | 45%N :: r => (-1, r)
    | 43%N :: r => (1, r)
    | _ => (1, t)
    end in
  match snd signed with
  | c :: _ =>
      if isDigit c then roundDouble (fst signed * digitsValue 0 (snd signed))
      else DNaN
  | [] => DNaN
  end.

(** The numbers that the [duration] of [Inputs] holds: all but the
    infinities. *)
Definition asNumber (d : Double) : option JsNumber :=
  match d with
  | DNaN => Some NaN
  | DNum z => Some (Num z)
  | DInfinity _ => None
  end.

(** The [onChange] handler of the duration field:
    [setDuration(parseInt(e.target.value, 10))].  [None]: the field holds
    so long a run of digits that the duration becomes an infinity, a
    state outside [Inputs]. *)
Definition setDurationFromField (value : Text) (i : Inputs) : option Inputs :=
  match asNumber (parseInt value) with
  | Some d =>
      Some {| scenario := scenario i;
              duration := d;
              referenceImages := referenceImages i;
              scriptFileName := scriptFileName i;
              scriptContent := scriptContent i |}
  | None => None
  end.

(** [window.aistudio] as far as the app uses it: for each of the two
    methods, whether it is there and how its promise ends
    ([hasSelectedApiKey] resolves with a boolean; [openSelectKey] resolves,
    [true], or rejects, [false]). *)
Record AIStudio := {
  hasSelectedApiKey : option bool;
  openSelectKey : option bool
}.

(** [checkKey], run once when [App] mounts: the value it gives to
    [hasApiKey]. *)
Definition checkKey (aistudio : option AIStudio) : bool :=
  match aistudio with
  | Some studio =>
      match hasSelectedApiKey studio with
      | Some has => has
      | None => false
      end
  | None => false
  end.

(** [handleSelectKey]: the new value of [hasApiKey], and whether the
    alert was shown. *)
Definition handleSelectKey (aistudio : option AIStudio) (hasApiKey : bool)
    : bool * bool :=
  match aistudio with
  | Some studio =>
      match openSelectKey studio with
      | Some true => (true, false)
      | Some false => (hasApiKey, false)
      | None => (hasApiKey, true)
      end
  | None => (hasApiKey, true)
  end.

(** [hasApiKey] once [checkKey] has settled and "Select API Key" has
    then been clicked [n] times. *)
Fixpoint keyAfter (aistudio : option AIStudio) (n : nat) : bool :=
  match n with
  | O => checkKey aistudio
  | S n' => fst (handleSelectKey aistudio (keyAfter aistudio n'))
  end.

(** [addToast] when [Math.random] yields the token [id]; nothing makes
    the token differ from those drawn before. *)
Definition addToastAs (id : nat) (type : ToastType) (title message : string)
    (persistent : option bool) (a : App) : App :=
  {| prompts := prompts a; isBuilding := isBuilding a;
     isBatchGenerating := isBatchGenerating a;
     toasts := toasts a ++ [ {| ToastMessage.id := id;
                                ToastMessage.type := type;
                                ToastMessage.title := title;
                                ToastMessage.message := message;
                                ToastMessage.persistent := persistent |} ];
     timeouts := if istrue persistent then timeouts a else timeouts a ++ [id];
     random := S (random a); runs := runs a; calls := calls a |}.

(** What happens to the toasts: one is posted under some id, the toasts
    of an id are dismissed (the button of a toast calls [removeToast]
    with its id), or a pending timeout fires. *)
Inductive ToastEvent :=
  | Posted (id : nat) (type : ToastType) (title message : string)
      (persistent : option bool)
  | Dismissed (id : nat)
  | Fired (k : nat).

Definition toastStep (a : App) (ev : ToastEvent) : App :=
  match ev with
  | Posted id type title message persistent =>
      addToastAs id type title message persistent a
  | Dismissed id => step a (RemoveToast id)
  | Fired k => step a (TimeoutFires k)
  end.

Definition toastRun (evs : list ToastEvent) (a : App) : App :=
  fold_left toastStep evs a.

(* ================================================================= *)
(** ** Further vocabulary *)

(** What a scene is apart from its image and its flags. *)
Definition sceneText (p : ScenePrompt) : Z * string * string * string :=
  (ScenePrompt.id p, ScenePrompt.phase p, ScenePrompt.imagePrompt p,
   ScenePrompt.videoPrompt p).

(** [q] is a later form of the record [p]: the same scene, and still with
    an image field if [p] had one. *)
Definition laterForm (p q : ScenePrompt) : Prop :=
  sceneText q = sceneText p
  /\ (ScenePrompt.generatedImageUrl p <> None ->
      ScenePrompt.generatedImageUrl q <> None).

(** What an effect other than [SetPrompts] does to one record. *)
Definition rewriteOne (e : Effect) (q : ScenePrompt) : ScenePrompt :=
  match e with
  | SetLoading prompt => setLoading (ScenePrompt.id prompt) q
  | SetImage prompt imageUrl => setImage (ScenePrompt.id prompt) imageUrl q
  | SetFailed prompt => setFailed (ScenePrompt.id prompt) q
  | _ => q
  end.

(** The prompts for which a log holds a request, in the order of the
    requests. *)
Definition requestsOf (l : list Effect) : list ScenePrompt :=
  flat_map (fun e => match e with Request prompt => [prompt] | _ => [] end) l.

Definition isSetImage (e : Effect) : bool :=
  match e with SetImage _ _ => true | _ => false end.

Definition isSetFailed (e : Effect) : bool :=
  match e with SetFailed _ => true | _ => false end.

(** The bookkeeping of toasts: no two toasts and no two pending timeouts
    share an id, ids in use are below the number of draws, a pending
    timeout belongs to no persistent toast, and every toast that is not
    persistent has its timeout pending. *)
Definition ToastsKept (a : App) : Prop :=
  NoDup (map ToastMessage.id (toasts a))
  /\ NoDup (timeouts a)
  /\ (forall t, In t (toasts a) -> (ToastMessage.id t < random a)%nat)
  /\ (forall id, In id (timeouts a) -> (id < random a)%nat)
  /\ (forall t, In t (toasts a) -> In (ToastMessage.id t) (timeouts a) ->
        istrue (ToastMessage.persistent t) = false)
  /\ (forall t, In t (toasts a) -> istrue (ToastMessage.persistent t) = false ->
        In (ToastMessage.id t) (timeouts a)).

(** Every toast on the page that is not persistent has a removal
    timeout pending. *)
Definition TimeoutsPending (a : App) : Prop :=
  forall t, In t (toasts a) -> istrue (ToastMessage.persistent t) = false ->
            In (ToastMessage.id t) (timeouts a).

(** The event posts a toast under the id [id]. *)
Definition posts (id : nat) (ev : ToastEvent) : bool :=
  match ev with
  | Posted id' _ _ _ _ => (id' =? id)%nat
  | _ => false
  end.

(** A toast that an effect posts as persistent is the toast of a batch. *)
Definition batchOnlyPersistent (e : Effect) : Prop :=
  match e with
  | AddToast _ title _ persistent =>
      istrue persistent = true -> title = "Batch Generation Complete"
  | _ => True
  end.

(** Whether a text starts with white space (or is empty, so that its
    first piece is empty), and whether it ends with white space. *)
Definition headBlank (text : Text) : bool :=
  match text with [] => true | c :: _ => isWhiteSpace c end.

Definition lastBlank (text : Text) : bool :=
  match text with [] => false | c :: r => isWhiteSpace (last r c) end.

(** A string without a comma. *)
Fixpoint noComma (s : string) : bool :=
  match s with
  | EmptyString => true
  | String c r => negb (Ascii.eqb c ",") && noComma r
  end.

(** The pieces of a split that are words, i.e. not empty. *)
Definition wordsOf (text : Text) : list Text :=
  filter (fun piece => negb (isEmptyText piece)) (split_ws text).

(** The word count as the specification words it: the number of words
    that white space delimits, a word being a maximal run of code units
    that are not white space.  [inWord] tells that the code unit before
    [s] belonged to a word. *)
Fixpoint wordRuns (inWord : bool) (s : Text) : nat :=
  match s with
  | [] => O
  | c :: r =>
      if isWhiteSpace c then wordRuns false r
      else if inWord then wordRuns true r else S (wordRuns true r)
  end.

Definition wordCount_spec (text : Text) : Z := Z.of_nat (wordRuns false text).

(** Three images of the sample store and an unreadable file. *)
Definition brokenFile : File.t :=
  {| File.name := "broken.png"; File.type := "image/png";
     File.readAsDataURL := None |}.

(** A parser that accepts the text "[]" as the empty plan and one scene
    otherwise. *)
Definition sampleParser (text : string) : Exception + list ScenePrompt :=
  if String.eqb text "[]" then inr [] else inr [scene 1].

(** The two sample scenes after both their images arrived. *)
Definition paintedScenes : list ScenePrompt :=
  map (fun p => setImage (ScenePrompt.id p) "data:image/png;base64,AAAA" p) twoScenes.

(** The invocation of the sample session in which one of two calls
    fails. *)
Definition sampleRun : Invocation :=
  nth 0 (runs (session oneOfTwoFails (showing twoScenes)))
    (record [] (handleGenerateAllImages [])).

(** A batch on the two scenes that have their images, and then "Copy
    All": the page shows the batch's toast and the toast of the copy. *)
Definition copyAfterBatch : list Event :=
  [Does GenerateAllImages; CopyAllPrompts ImagePrompts].

Definition copiedToast : ToastMessage :=
  {| ToastMessage.id := 1;
     ToastMessage.type := info;
     ToastMessage.title := "Copied";
     ToastMessage.message := "All image prompts copied to clipboard.";
     ToastMessage.persistent := None |}.

(** Two toasts posted under the same id, and the first of them. *)
Definition sameIdTwice : list ToastEvent :=
  [Posted 3 info "Copied" "All image prompts copied to clipboard." None;
   Posted 3 error "Scene 1 Error" "Failed to generate image." None].

Definition firstOfTwo : ToastMessage :=
  {| ToastMessage.id := 3;
     ToastMessage.type := info;
     ToastMessage.title := "Copied";
     ToastMessage.message := "All image prompts copied to clipboard.";
     ToastMessage.persistent := None |}.

(* ================================================================= *)
(** * Properties *)

(* ----------------------------------------------------------------- *)
(** ** Text helpers *)

Lemma trimStart_nil (s : Text) :
  trimStart s = [] <-> Forall (fun c => isWhiteSpace c = true) s.
Proof.
  induction s as [|c r IH]; simpl.
  - split; auto.
  - destruct (isWhiteSpace c) eqn:E.
    + rewrite IH. split; intro H.
      * constructor; assumption.
      * inversion H; assumption.
    + split; intro H; [discriminate|].
      inversion H; congruence.
Qed.

Lemma trimStart_blank (s : Text) :
  Forall (fun c => isWhiteSpace c = true) (trimStart s) -> trimStart s = [].
Proof.
  induction s as [|c r IH]; simpl; auto.
  destruct (isWhiteSpace c) eqn:E; auto.
  intro H. inversion H; congruence.
Qed.

Lemma trim_nil (s : Text) :
  trim s = [] <-> Forall (fun c => isWhiteSpace c = true) s.
Proof.
  unfold trim, trimEnd. split.
  - intro H. apply trimStart_nil, trimStart_blank.
    apply (f_equal (@rev N)) in H. rewrite rev_involutive in H. simpl in H.
    apply trimStart_nil in H. apply Forall_rev in H.
    now rewrite rev_involutive in H.
  - intro H. apply trimStart_nil in H. rewrite H. reflexivity.
Qed.

Lemma not_blank_iff (s : Text) :
  isEmptyText (trim s) = false <-> Exists (fun c => isWhiteSpace c = false) s.
Proof.
  split.
  - intro H.
    destruct (Forall_Exists_dec (fun c => isWhiteSpace c = true)
                (fun c => bool_dec (isWhiteSpace c) true) s) as [F|E].
    + apply trim_nil in F. rewrite F in H. discriminate.
    + apply Exists_exists in E. destruct E as [c [Hin Hc]].
      apply Exists_exists. exists c. split; auto.
      destruct (isWhiteSpace c); congruence.
  - intro E. destruct (trim s) eqn:T; auto.
    apply trim_nil in T. apply Exists_exists in E. destruct E as [c [Hin Hc]].
    rewrite Forall_forall in T. specialize (T c Hin). congruence.
Qed.

Lemma truthy_iff (s : option string) :
  truthy s = true <-> exists n, s = Some n /\ n <> "".
Proof.
  destruct s as [[|c r]|]; simpl; split; intro H; try discriminate; auto.
  - destruct H as [n [E N]]. inversion E; subst. congruence.
  - exists (String c r). split; [reflexivity|discriminate].
  - destruct H as [n [E _]]. discriminate.
Qed.

Lemma splitSpaces_length (b : bool) (s : Text) :
  List.length (splitSpaces b s) = S (spaceRuns b s).
Proof.
  revert b. induction s as [|c r IH]; intro b; simpl; auto.
  destruct (isWhiteSpace c).
  - destruct b; simpl; rewrite IH; reflexivity.
  - specialize (IH false).
    destruct (splitSpaces false r) as [|piece pieces]; simpl in *; congruence.
Qed.

Lemma ceilDiv_bounds (n d : Z) :
  0 < d -> d * (ceilDiv n d - 1) < n <= d * ceilDiv n d.
Proof.
  intro Hd. unfold ceilDiv.
  pose proof (Z.div_mod (n + d - 1) d ltac:(lia)) as E.
  pose proof (Z.mod_pos_bound (n + d - 1) d Hd) as B.
  nia.
Qed.

(* ----------------------------------------------------------------- *)
(** ** The [canBuild] predicate *)

(** C6 (as amended): [canBuild] holds exactly when there are three
    reference images, a script file is loaded (its name is a non-empty
    string) or the scenario text has a code unit that is not white space,
    and the duration is a number above zero. *)
Theorem canBuild_iff (refs : list ImageFile) (script : option string)
    (text : Text) (d : JsNumber) :
  canBuild refs script text d = true
  <-> List.length refs = 3%nat
      /\ ((exists n, script = Some n /\ n <> "")
          \/ Exists (fun c => isWhiteSpace c = false) text)
      /\ (exists z, d = Num z /\ 0 < z).
Proof.
  unfold canBuild, MAX_REFERENCE_IMAGES.
  rewrite !andb_true_iff, orb_true_iff, Z.eqb_eq, negb_true_iff.
  rewrite truthy_iff, not_blank_iff.
  split.
  - intros [[H1 H2] H3]. repeat split; auto; try lia.
    destruct d as [|z]; simpl in H3; [discriminate|].
    exists z. split; auto. apply Z.ltb_lt; assumption.
  - intros [H1 [H2 [z [E Hz]]]]. repeat split; auto; try lia.
    subst d. simpl. apply Z.ltb_lt; assumption.
Qed.

(** C6 (as stated) fails: a scenario consisting of one space is a
    non-empty text, yet [canBuild] is false because the text is trimmed
    before it is compared with the empty string. *)
Lemma canBuild_blank_scenario :
  ~ (canBuild (referenceImages blankScenarioInputs)
       (scriptFileName blankScenarioInputs) (scenario blankScenarioInputs)
       (duration blankScenarioInputs) = true
     <-> canBuildPlan_spec blankScenarioInputs).
Proof.
  intros [_ H].
  assert (S : canBuildPlan_spec blankScenarioInputs).
  { unfold canBuildPlan_spec; simpl. repeat split.
    - right. discriminate.
    - exists 1. split; [reflexivity|lia]. }
  specialize (H S). vm_compute in H. discriminate.
Qed.

(* ----------------------------------------------------------------- *)
(** ** Duration derived from a script *)

Lemma last_cons {A} (x d : A) (l : list A) : last (x :: l) d = last l x.
Proof.
  revert x d. induction l as [|y l IH]; intros x d; [reflexivity|].
  change (last (x :: y :: l) d) with (last (y :: l) d).
  rewrite IH. symmetry. apply IH.
Qed.

Lemma lastBlank_cons (c : N) (r : Text) :
  lastBlank (c :: r) = match r with [] => isWhiteSpace c | _ => lastBlank r end.
Proof.
  destruct r as [|c' r']; [reflexivity|].
  unfold lastBlank. now rewrite last_cons.
Qed.

Lemma splitSpaces_head (s : Text) :
  exists piece pieces,
    splitSpaces false s = piece :: pieces /\ isEmptyText piece = headBlank s.
Proof.
  destruct s as [|c r]; simpl.
  - eauto.
  - destruct (isWhiteSpace c) eqn:E.
    + eauto.
    + destruct (splitSpaces false r); eauto.
Qed.

Lemma splitSpaces_pieces (b : bool) (s : Text) :
  Forall (Forall (fun c => isWhiteSpace c = false)) (splitSpaces b s).
Proof.
  revert b. induction s as [|c r IH]; intro b; simpl.
  - repeat constructor.
  - destruct (isWhiteSpace c) eqn:E.
    + destruct b; [apply IH | constructor; [constructor | apply IH]].
    + specialize (IH false). destruct (splitSpaces false r) as [|piece pieces].
      * repeat constructor; auto.
      * inversion IH; subst. constructor; [constructor; auto | auto].
Qed.

Lemma splitSpaces_count (s : Text) :
  List.length (splitSpaces false s)
  = (List.length (filter (fun piece => negb (isEmptyText piece)) (splitSpaces false s))
     + Nat.b2n (headBlank s) + Nat.b2n (lastBlank s))%nat
  /\ List.length (splitSpaces true s)
     = (List.length (filter (fun piece => negb (isEmptyText piece)) (splitSpaces true s))
        + Nat.b2n (match s with [] => true | _ => lastBlank s end))%nat.
Proof.
  induction s as [|c r [IHf IHt]]; [split; reflexivity|].
  rewrite lastBlank_cons.
  cbn [splitSpaces headBlank]. destruct (isWhiteSpace c) eqn:E.
  - split.
    + cbn [List.length filter isEmptyText negb Nat.b2n]. rewrite IHt at 1. lia.
    + exact IHt.
  - destruct (splitSpaces_head r) as [piece [pieces [P Q]]].
    rewrite P in *. cbn [List.length filter isEmptyText negb Nat.b2n] in *.
    assert (L : Nat.b2n (lastBlank r)
                = Nat.b2n (match r with [] => false | _ => lastBlank r end))
      by (destruct r; reflexivity).
    rewrite <- L. rewrite <- Q in IHf.
    destruct piece; cbn [isEmptyText negb Nat.b2n List.length] in *; split; lia.
Qed.

Lemma wordRuns_pieces (s : Text) :
  (forall b, List.length (filter (fun piece => negb (isEmptyText piece))
                             (splitSpaces b s)) = wordRuns false s)
  /\ List.length (filter (fun piece => negb (isEmptyText piece))
                    (tl (splitSpaces false s))) = wordRuns true s.
Proof.
  induction s as [|c r [IH1 IH2]]; [split; [intro b|]; reflexivity|].
  cbn [splitSpaces wordRuns]. destruct (isWhiteSpace c) eqn:E.
  - split.
    + intros [|]; [apply IH1|].
      cbn [filter isEmptyText negb]. apply IH1.
    + cbn [tl]. apply IH1.
  - destruct (splitSpaces_head r) as [piece [pieces [P _]]].
    rewrite P in *. cbn [tl] in IH2. split.
    + intros _. cbn [filter isEmptyText negb List.length]. now rewrite IH2.
    + cbn [tl]. exact IH2.
Qed.

(** C8 (as amended): after a script is read, the duration is the least
    whole number of minutes that holds [wordCount] words at 150 words a
    minute, and it is at least 1; [wordCount] is the number of pieces into
    which the runs of white space cut the text, which is the number of
    words that white space delimits, plus one if the text is empty or
    begins with white space, plus one if it ends with white space.  For a
    text that begins and ends with a word the duration is thus the
    ceiling of the number of words over 150.  Removing the script sets the
    duration to 1. *)
Theorem script_duration (fileName : string) (text : Text) (i j : Inputs) :
  duration (handleScriptUpload fileName text i)
    = Num (ceilDiv (wordCount text) 150)
  /\ wordCount text
     = wordCount_spec text + Z.b2z (headBlank text) + Z.b2z (lastBlank text)
  /\ (headBlank text = false -> lastBlank text = false ->
      duration (handleScriptUpload fileName text i)
      = Num (ceilDiv (wordCount_spec text) 150))
  /\ 150 * (ceilDiv (wordCount text) 150 - 1) < wordCount text
       <= 150 * ceilDiv (wordCount text) 150
  /\ 1 <= ceilDiv (wordCount text) 150
  /\ duration (handleRemoveScript j) = Num 1.
Proof.
  assert (W : wordCount text = Z.of_nat (S (spaceRuns false text))).
  { unfold wordCount, split_ws. now rewrite splitSpaces_length. }
  assert (C : wordCount text
              = wordCount_spec text + Z.b2z (headBlank text)
                + Z.b2z (lastBlank text)).
  { unfold wordCount, wordCount_spec, split_ws.
    rewrite (proj1 (splitSpaces_count text)).
    rewrite (proj1 (wordRuns_pieces text) false).
    destruct (headBlank text), (lastBlank text); cbn [Nat.b2n Z.b2z]; lia. }
  assert (P : 0 < 150) by lia.
  pose proof (ceilDiv_bounds (wordCount text) 150 P) as B.
  split; [reflexivity|]. split; [exact C|]. split; [|split; [exact B|split]].
  - intros H T. rewrite H, T in C. cbn [Z.b2z] in C.
    cbn [handleScriptUpload duration]. rewrite C. do 2 f_equal. lia.
  - lia.
  - reflexivity.
Qed.

(** C8 (as stated) fails: a script of 150 words that ends with a line
    break has a word too many counted, so its duration is 2 minutes and
    not the ceiling of 150 / 150. *)
Lemma script_duration_trailing_newline :
  wordCount_spec sampleScript = 150
  /\ duration (handleScriptUpload "script.txt" sampleScript blankScenarioInputs)
     = Num 2
  /\ duration (handleScriptUpload "script.txt" sampleScript blankScenarioInputs)
     <> Num (ceilDiv (wordCount_spec sampleScript) 150).
Proof.
  split; [vm_compute; reflexivity|]. split; [vm_compute; reflexivity|].
  vm_compute. discriminate.
Qed.

(* ----------------------------------------------------------------- *)
(** ** Reference images *)

Lemma slice_from_0 {A} (e : Z) (l : list A) :
  slice 0 e l
  = firstn (Z.to_nat (if e <? 0 then Z.max (Z.of_nat (List.length l) + e) 0
                      else Z.min e (Z.of_nat (List.length l)))) l.
Proof.
  unfold slice. simpl (0 <? 0).
  rewrite (Z.min_l 0) by lia. simpl (Z.to_nat 0). simpl skipn.
  now rewrite Z.sub_0_r.
Qed.

Lemma firstn_min_length {A} (n : nat) (l : list A) :
  firstn (Nat.min n (List.length l)) l = firstn n l.
Proof.
  destruct (Nat.le_gt_cases n (List.length l)).
  - now rewrite Nat.min_l.
  - rewrite Nat.min_r by lia. rewrite firstn_all. symmetry.
    apply firstn_all2. lia.
Qed.

Lemma slice_firstn {A} (n : nat) (l : list A) :
  slice 0 (Z.of_nat n) l = firstn n l.
Proof.
  rewrite slice_from_0.
  destruct (Z.of_nat n <? 0) eqn:E; [apply Z.ltb_lt in E; lia|].
  rewrite <- (firstn_min_length n). f_equal. lia.
Qed.







(* ----------------------------------------------------------------- *)
(** ** Spreadsheet export *)

Lemma headerOf_rows_from (prompts : list ScenePrompt) :
  fold_left (fun hdr o => fold_left addKey (map fst o) hdr)
    (map exportRow prompts) columns = columns.
Proof.
  induction prompts as [|p r IH]; simpl; auto.
Qed.

Lemma headerOf_rows (p : ScenePrompt) (r : list ScenePrompt) :
  headerOf (map exportRow (p :: r)) = columns.
Proof.
  unfold headerOf. simpl map. simpl fold_left at 1.
  exact (headerOf_rows_from r).
Qed.

Lemma sceneRow_cells (p : ScenePrompt) :
  map (fun k => field k (exportRow p)) columns = sceneRow p.
Proof. reflexivity. Qed.

Lemma sceneRow_fits (p : ScenePrompt) :
  forallb cellFits (sceneRow p) = exportable p.
Proof.
  unfold sceneRow, exportable, fitsCell. cbn [forallb cellFits].
  now rewrite andb_true_r, !andb_assoc.
Qed.

Lemma sheet_fits (prompts : list ScenePrompt) :
  forallb (forallb cellFits) (headerRow :: map sceneRow prompts)
  = forallb exportable prompts.
Proof.
  cbn [forallb]. change (forallb cellFits headerRow) with true. cbn [andb].
  induction prompts as [|p r IH]; [reflexivity|].
  cbn [map forallb]. now rewrite sceneRow_fits, IH.
Qed.

Lemma export_rows (p : ScenePrompt) (r : list ScenePrompt) :
  json_to_sheet (map exportRow (p :: r)) = headerRow :: map sceneRow (p :: r).
Proof.
  unfold json_to_sheet. rewrite headerOf_rows. f_equal.
  rewrite map_map. apply map_ext. intro q. apply sceneRow_cells.
Qed.

Lemma writeFile_sheet (sheetName name : string) (rows : Worksheet) :
  writeFile [(sheetName, rows)] name
  = if forallb (forallb cellFits) rows then
      Written {| filename := name; workbook := [(sheetName, rows)] |}
    else WriteError "Text length must not exceed 32767 characters".
Proof.
  unfold writeFile. cbn [forallb snd]. now rewrite andb_true_r.
Qed.

(** C9 (as amended): for a scene sequence that is not empty and whose
    texts all fit into a cell (at most 32767 characters each) the export
    offers the file "Prehistoric_Project_Prompts.xlsx" with the single
    sheet "Prompts", whose first row holds the headers ID, Phase, Image
    Prompt, Video Prompt, Image URL in this order and whose further rows
    hold one scene each, the last cell being the empty string when the
    scene has no image.  For the empty sequence the file and the sheet
    are the same but the sheet has no header cell: the headers are the
    keys of the row objects, and there is no row.  When a text is longer,
    the writer throws and no file is offered. *)
Theorem export_sheet (prompts : list ScenePrompt) :
  (prompts <> [] -> forallb exportable prompts = true ->
   downloadXLSX prompts
   = Written {| filename := "Prehistoric_Project_Prompts.xlsx";
                workbook := [("Prompts", headerRow :: map sceneRow prompts)] |})
  /\ (forall p, In p prompts -> ScenePrompt.generatedImageUrl p = None ->
        nth_error (sceneRow p) 4 = Some (Some (VStr "")))
  /\ downloadXLSX []
     = Written {| filename := "Prehistoric_Project_Prompts.xlsx";
                  workbook := [("Prompts", [[]])] |}
  /\ (forallb exportable prompts = false ->
      downloadXLSX prompts
      = WriteError "Text length must not exceed 32767 characters").
Proof.
  split; [|split; [|split]].
  - intros N F. destruct prompts as [|p r]; [congruence|].
    unfold downloadXLSX, book_append_sheet, book_new.
    rewrite export_rows. cbn [app].
    rewrite writeFile_sheet, sheet_fits, F. reflexivity.
  - intros p _ H. unfold sceneRow. rewrite H. reflexivity.
  - reflexivity.
  - intro F. destruct prompts as [|p r]; [discriminate|].
    unfold downloadXLSX, book_append_sheet, book_new.
    rewrite export_rows. cbn [app].
    rewrite writeFile_sheet, sheet_fits, F. reflexivity.
Qed.

Lemma export_sheet_populated :
  downloadXLSX [scene 1]
  = Written {| filename := "Prehistoric_Project_Prompts.xlsx";
               workbook :=
                 [("Prompts",
                   [ headerRow;
                     [Some (VNum 1); Some (VStr "Hook"); Some (VStr "image");
                      Some (VStr "video"); Some (VStr "")] ])] |}
  /\ downloadXLSX [sceneWithLongImage]
     = WriteError "Text length must not exceed 32767 characters".
Proof.
  split.
  - apply (proj1 (export_sheet [scene 1])); [discriminate | reflexivity].
  - apply (proj2 (proj2 (proj2 (export_sheet [sceneWithLongImage])))).
    vm_compute. reflexivity.
Defined.

(** C9 (as stated) fails for the empty sequence: the sheet written then
    has no header row with the five column names. *)
Lemma export_empty_no_headers :
  ~ (exists rows,
       downloadXLSX []
       = Written {| filename := "Prehistoric_Project_Prompts.xlsx";
                    workbook := [("Prompts", headerRow :: rows)] |}).
Proof.
  intros [rows H]. vm_compute in H. discriminate.
Qed.

(* ----------------------------------------------------------------- *)
(** ** What the handlers perform *)

Lemma startAll_spec (chunk : list ScenePrompt) (t : Tally) :
  startAll chunk t = (launchEffects chunk, t, Normal tt).
Proof.
  induction chunk as [|p r IH]; simpl; auto.
  unfold bind, memberStart, bind, perform. simpl. rewrite IH. reflexivity.
Qed.

Lemma memberResume_spec (p : ScenePrompt) (r : Settlement) (t : Tally) :
  memberResume p r t
  = (settleEffect (p, r),
     (if isResolved (p, r) then countSuccess t else countFailure t),
     Normal tt).
Proof. destruct r; reflexivity. Qed.

Lemma callResume_spec (p : ScenePrompt) (r : Settlement) :
  callResume p r tt
  = (match r with
     | Resolved imageUrl => [SetImage p imageUrl]
     | Rejected _ =>
         [SetFailed p;
          AddToast error ("Scene " ++ showZ (ScenePrompt.id p) ++ " Error")%string
            "Failed to generate image." None]
     end, tt, Normal tt).
Proof. destruct r; reflexivity. Qed.

Lemma enterLoop_spec (from : Z) (b : Batch) :
  enterLoop from b
  = if from <? Z.of_nat (List.length (pendingPrompts b)) then
      let chunk := slice from (from + MAX_CONCURRENT_GENERATIONS) (pendingPrompts b) in
      ({| snapshot := snapshot b; i := from; awaited := chunk; tally := tally b;
          status := Waiting |}, launchEffects chunk)
    else
      ({| snapshot := snapshot b; i := from; awaited := []; tally := tally b;
          status := Completed |},
       [SetIsBatchGenerating false; batchToast (tally b)]).
Proof.
  unfold enterLoop. destruct (from <? _); auto.
  cbv zeta. rewrite startAll_spec. reflexivity.
Qed.

(* ----------------------------------------------------------------- *)
(** ** The chunks of the batch loop *)

Lemma slice_chunk {A} (j : nat) (l : list A) :
  slice (Z.of_nat j) (Z.of_nat j + MAX_CONCURRENT_GENERATIONS) l
  = firstn 4 (skipn j l).
Proof.
  unfold slice, MAX_CONCURRENT_GENERATIONS.
  destruct (Z.of_nat j <? 0) eqn:E1; [apply Z.ltb_lt in E1; lia|].
  destruct (Z.of_nat j + 4 <? 0) eqn:E2; [apply Z.ltb_lt in E2; lia|].
  destruct (Nat.le_gt_cases j (List.length l)) as [H|H].
  - rewrite (Z.min_l (Z.of_nat j)) by lia. rewrite Nat2Z.id.
    rewrite <- (firstn_min_length 4). f_equal. rewrite length_skipn. lia.
  - rewrite (Z.min_r (Z.of_nat j)) by lia. rewrite Nat2Z.id.
    rewrite (skipn_all2 l) by lia. rewrite (skipn_all2 l) by lia.
    now rewrite !firstn_nil.
Qed.

Lemma firstn_plus {A} (a b : nat) (l : list A) :
  firstn (a + b) l = firstn a l ++ firstn b (skipn a l).
Proof.
  revert l. induction a as [|a IH]; intro l; simpl; auto.
  destruct l as [|x r]; simpl.
  - now rewrite firstn_nil.
  - now rewrite IH.
Qed.

Lemma chunksFrom_concat {A} (fuel j : nat) (l : list A) :
  List.concat (chunksFrom fuel (Z.of_nat j) l) = firstn (4 * fuel) (skipn j l).
Proof.
  revert j. induction fuel as [|f IH]; intro j; simpl chunksFrom.
  - reflexivity.
  - destruct (Z.of_nat j <? Z.of_nat (List.length l)) eqn:E.
    + simpl List.concat. rewrite slice_chunk.
      replace (Z.of_nat j + MAX_CONCURRENT_GENERATIONS) with (Z.of_nat (j + 4))
        by (unfold MAX_CONCURRENT_GENERATIONS; lia).
      rewrite IH. replace (4 * S f)%nat with (4 + 4 * f)%nat by lia.
      rewrite (firstn_plus 4 (4 * f)). f_equal. f_equal.
      rewrite skipn_skipn. f_equal. lia.
    + apply Z.ltb_ge in E. rewrite skipn_all2 by lia.
      now rewrite firstn_nil.
Qed.

Lemma chunks_concat {A} (l : list A) : List.concat (chunks l) = l.
Proof.
  unfold chunks. change 0 with (Z.of_nat 0).
  rewrite (chunksFrom_concat (List.length l) 0 l).
  simpl skipn. apply firstn_all2. lia.
Qed.

Lemma chunksFrom_nth {A} (fuel : nat) (from : Z) (l : list A) (k : nat) :
  nth_error (chunksFrom fuel from l) k
  = if (k <? fuel)%nat
       && (from + MAX_CONCURRENT_GENERATIONS * Z.of_nat k <? Z.of_nat (List.length l))
    then Some (slice (from + MAX_CONCURRENT_GENERATIONS * Z.of_nat k)
                 (from + MAX_CONCURRENT_GENERATIONS * Z.of_nat k
                  + MAX_CONCURRENT_GENERATIONS) l)
    else None.
Proof.
  unfold MAX_CONCURRENT_GENERATIONS.
  revert from k. induction fuel as [|f IH]; intros from k; simpl chunksFrom.
  - destruct k; reflexivity.
  - destruct (from <? Z.of_nat (List.length l)) eqn:E.
    + destruct k as [|k].
      * simpl nth_error. rewrite Z.mul_0_r, Z.add_0_r, E. reflexivity.
      * simpl nth_error. rewrite IH. unfold MAX_CONCURRENT_GENERATIONS.
        replace (from + 4 + 4 * Z.of_nat k) with (from + 4 * Z.of_nat (S k)) by lia.
        reflexivity.
    + apply Z.ltb_ge in E.
      replace (from + 4 * Z.of_nat k <? Z.of_nat (List.length l)) with false
        by (symmetry; apply Z.ltb_ge; lia).
      rewrite andb_false_r. destruct k; reflexivity.
Qed.

Lemma chunks_nth {A} (l : list A) (k : nat) :
  nth_error (chunks l) k
  = if MAX_CONCURRENT_GENERATIONS * Z.of_nat k <? Z.of_nat (List.length l)
    then Some (slice (MAX_CONCURRENT_GENERATIONS * Z.of_nat k)
                 (MAX_CONCURRENT_GENERATIONS * Z.of_nat k
                  + MAX_CONCURRENT_GENERATIONS) l)
    else None.
Proof.
  unfold chunks. rewrite chunksFrom_nth. rewrite !Z.add_0_l.
  unfold MAX_CONCURRENT_GENERATIONS.
  destruct (4 * Z.of_nat k <? Z.of_nat (List.length l)) eqn:E.
  - apply Z.ltb_lt in E.
    replace (k <? List.length l)%nat with true
      by (symmetry; apply Nat.ltb_lt; lia).
    reflexivity.
  - now rewrite andb_false_r.
Qed.

Lemma chunks_length {A} (l : list A) :
  Z.of_nat (List.length (chunks l))
  = ceilDiv (Z.of_nat (List.length l)) MAX_CONCURRENT_GENERATIONS.
Proof.
  unfold ceilDiv, MAX_CONCURRENT_GENERATIONS.
  assert (Hi : 4 * Z.of_nat (List.length (chunks l)) >= Z.of_nat (List.length l)).
  { pose proof (chunks_nth l (List.length (chunks l))) as H.
    rewrite (proj2 (nth_error_None _ _)) in H by lia.
    unfold MAX_CONCURRENT_GENERATIONS in H.
    destruct (4 * Z.of_nat _ <? _) eqn:E; [discriminate|].
    apply Z.ltb_ge in E. lia. }
  assert (Lo : (0 < List.length (chunks l))%nat ->
               4 * (Z.of_nat (List.length (chunks l)) - 1) < Z.of_nat (List.length l)).
  { intro P. pose proof (chunks_nth l (List.length (chunks l) - 1)) as H.
    unfold MAX_CONCURRENT_GENERATIONS in H.
    destruct (4 * Z.of_nat _ <? _) eqn:E.
    - apply Z.ltb_lt in E. lia.
    - apply nth_error_None in H. lia. }
  pose proof (Z.div_mod (Z.of_nat (List.length l) + 4 - 1) 4 ltac:(lia)) as D.
  pose proof (Z.mod_pos_bound (Z.of_nat (List.length l) + 4 - 1) 4 ltac:(lia)) as B.
  destruct (List.length (chunks l)) as [|n] eqn:E.
  - lia.
  - specialize (Lo ltac:(lia)). lia.
Qed.

Lemma slice_chunk_length {A} (j : nat) (l : list A) :
  (j < List.length l)%nat ->
  (1 <= List.length (slice (Z.of_nat j)
                       (Z.of_nat j + MAX_CONCURRENT_GENERATIONS) l) <= 4)%nat.
Proof.
  intro H. rewrite slice_chunk, length_firstn, length_skipn. lia.
Qed.

Lemma chunks_sizes {A} (l : list A) :
  Forall (fun g => (1 <= List.length g <= 4)%nat) (chunks l).
Proof.
  apply Forall_forall. intros g Hin.
  apply In_nth_error in Hin. destruct Hin as [k Hk].
  rewrite chunks_nth in Hk. unfold MAX_CONCURRENT_GENERATIONS in Hk.
  destruct (4 * Z.of_nat k <? Z.of_nat (List.length l)) eqn:E; [|discriminate].
  apply Z.ltb_lt in E.
  assert (G : g = slice (4 * Z.of_nat k) (4 * Z.of_nat k + 4) l) by congruence.
  rewrite G. replace (4 * Z.of_nat k) with (Z.of_nat (4 * k)) by lia.
  apply (slice_chunk_length (4 * k) l). lia.
Qed.

Lemma chunks_of_ten {A} (l : list A) :
  List.length l = 10%nat -> map (@List.length A) (chunks l) = [4; 4; 2]%nat.
Proof.
  intro H. do 11 (destruct l as [|? l]; try discriminate). reflexivity.
Qed.

(* ----------------------------------------------------------------- *)
(** ** One invocation of the batch handler, step by step *)

Lemma removeNth_perm {A} (k : nat) (l : list A) (x : A) :
  nth_error l k = Some x -> Permutation l (x :: removeNth k l).
Proof.
  revert l. induction k as [|k IH]; intros [|y r] H; simpl in *; try discriminate.
  - inversion H; subst. reflexivity.
  - etransitivity; [apply perm_skip, (IH r H)|apply perm_swap].
Qed.

Lemma removeNth_length {A} (k : nat) (l : list A) (x : A) :
  nth_error l k = Some x -> List.length l = S (List.length (removeNth k l)).
Proof.
  intro H. apply removeNth_perm in H. apply Permutation_length in H.
  exact H.
Qed.

Lemma skipn_nth {A} (n : nat) (l : list A) :
  skipn n l = match nth_error l n with
              | Some x => x :: skipn (S n) l
              | None => []
              end.
Proof.
  revert l. induction n as [|n IH]; intros [|y r]; simpl; auto.
Qed.

Lemma chunks_skipn {A} (l : list A) (n : nat) :
  skipn n (chunks l)
  = if MAX_CONCURRENT_GENERATIONS * Z.of_nat n <? Z.of_nat (List.length l)
    then slice (MAX_CONCURRENT_GENERATIONS * Z.of_nat n)
           (MAX_CONCURRENT_GENERATIONS * Z.of_nat n + MAX_CONCURRENT_GENERATIONS) l
         :: skipn (S n) (chunks l)
    else [].
Proof.
  rewrite skipn_nth, chunks_nth. destruct (_ <? _); reflexivity.
Qed.

Lemma skipn_done {A B} (f : A -> B) (done : list A) (x : B) (rest : list B) :
  skipn (List.length done) (map f done ++ x :: rest) = x :: rest
  /\ skipn (S (List.length done)) (map f done ++ x :: rest) = rest.
Proof.
  rewrite !skipn_app, length_map.
  rewrite (skipn_all2 (n := List.length done) (map f done))
    by (rewrite length_map; lia).
  rewrite (skipn_all2 (n := S (List.length done)) (map f done))
    by (rewrite length_map; lia).
  replace (List.length done - List.length done)%nat with 0%nat by lia.
  replace (S (List.length done) - List.length done)%nat with 1%nat by lia.
  split; reflexivity.
Qed.

Lemma resolvedIn_snoc (l : list (ScenePrompt * Settlement)) (s : ScenePrompt * Settlement) :
  resolvedIn (l ++ [s]) = (resolvedIn l + if isResolved s then 1 else 0)%nat.
Proof.
  unfold resolvedIn. rewrite filter_app, length_app. simpl.
  destruct (isResolved s); reflexivity.
Qed.

Lemma rejectedIn_snoc (l : list (ScenePrompt * Settlement)) (s : ScenePrompt * Settlement) :
  rejectedIn (l ++ [s]) = (rejectedIn l + if isResolved s then 0 else 1)%nat.
Proof.
  unfold rejectedIn. rewrite filter_app, length_app. simpl.
  destruct (isResolved s); reflexivity.
Qed.

Lemma tally_after (s : ScenePrompt * Settlement) (t : Tally) :
  successCount (if isResolved s then countSuccess t else countFailure t)
  = (successCount t + if isResolved s then 1 else 0)%nat
  /\ failureCount (if isResolved s then countSuccess t else countFailure t)
     = (failureCount t + if isResolved s then 0 else 1)%nat.
Proof. destruct (isResolved s); simpl; lia. Qed.

Lemma slice_chunk_nonempty {A} (n : nat) (l : list A) :
  MAX_CONCURRENT_GENERATIONS * Z.of_nat n < Z.of_nat (List.length l) ->
  slice (MAX_CONCURRENT_GENERATIONS * Z.of_nat n)
    (MAX_CONCURRENT_GENERATIONS * Z.of_nat n + MAX_CONCURRENT_GENERATIONS) l <> [].
Proof.
  unfold MAX_CONCURRENT_GENERATIONS. intros H E.
  pose proof (slice_chunk_length (4 * n) l ltac:(lia)) as L.
  replace (Z.of_nat (4 * n)) with (4 * Z.of_nat n) in L by lia.
  unfold MAX_CONCURRENT_GENERATIONS in L. rewrite E in L. simpl in L. lia.
Qed.

Lemma handleGenerateAllImages_spec (prompts : list ScenePrompt) :
  handleGenerateAllImages prompts
  = match prompts with
    | [] =>
        ({| snapshot := []; i := 0; awaited := []; tally := noTally;
            status := Returned |}, [])
    | _ =>
        if 0 <? Z.of_nat (List.length (pendingOf prompts)) then
          ({| snapshot := prompts; i := 0;
              awaited := slice 0 (0 + MAX_CONCURRENT_GENERATIONS) (pendingOf prompts);
              tally := noTally; status := Waiting |},
           SetIsBatchGenerating true
             :: launchEffects (slice 0 (0 + MAX_CONCURRENT_GENERATIONS)
                                 (pendingOf prompts)))
        else
          ({| snapshot := prompts; i := 0; awaited := []; tally := noTally;
              status := Completed |},
           [SetIsBatchGenerating true; SetIsBatchGenerating false;
            batchToast noTally])
    end.
Proof.
  unfold handleGenerateAllImages. destruct prompts as [|p ps]; auto.
  rewrite enterLoop_spec. unfold pendingPrompts. cbn [snapshot tally].
  destruct (0 <? _); reflexivity.
Qed.

Lemma invoke_orderly (prompts : list ScenePrompt) :
  Orderly (record [] (handleGenerateAllImages prompts)).
Proof.
  unfold Orderly. rewrite handleGenerateAllImages_spec.
  destruct prompts as [|p ps].
  - unfold InOrder. simpl. auto.
  - set (P := pendingOf (p :: ps)).
    pose proof (chunks_skipn P 0) as K. simpl skipn in K.
    change (MAX_CONCURRENT_GENERATIONS * Z.of_nat 0) with 0 in K.
    destruct (0 <? Z.of_nat (List.length P)) eqn:E.
    + unfold InOrder, record, pendingPrompts.
      cbn [fst snd batch status log snapshot awaited i tally app].
      fold P. exists [], (slice 0 (0 + MAX_CONCURRENT_GENERATIONS) P), (skipn 1 (chunks P)), [].
      simpl map. simpl flat_map. cbn [app]. unfold settleEffects. simpl flat_map.
      rewrite app_nil_r. repeat split; auto.
      apply Z.ltb_lt in E. apply (slice_chunk_nonempty 0 P).
      simpl. exact E.
    + unfold InOrder, record, pendingPrompts.
      cbn [fst snd batch status log snapshot awaited i tally app].
      fold P. exists []. simpl. repeat split; auto. discriminate.
Qed.

Lemma memberSettles_none (k : nat) (r : Settlement) (b : Batch) :
  nth_error (awaited b) k = None -> memberSettles k r b = (b, []).
Proof. intro H. unfold memberSettles. now rewrite H. Qed.

Lemma memberSettles_spec (k : nat) (r : Settlement) (b : Batch) (p : ScenePrompt) :
  nth_error (awaited b) k = Some p ->
  status b = Waiting ->
  memberSettles k r b
  = let t := if isResolved (p, r) then countSuccess (tally b)
             else countFailure (tally b) in
    match removeNth k (awaited b) with
    | [] =>
        (fst (enterLoop (i b + MAX_CONCURRENT_GENERATIONS)
                {| snapshot := snapshot b; i := i b; awaited := []; tally := t;
                   status := Waiting |}),
         settleEffect (p, r)
         ++ snd (enterLoop (i b + MAX_CONCURRENT_GENERATIONS)
                   {| snapshot := snapshot b; i := i b; awaited := []; tally := t;
                      status := Waiting |}))
    | rest =>
        ({| snapshot := snapshot b; i := i b; awaited := rest; tally := t;
            status := Waiting |}, settleEffect (p, r))
    end.
Proof.
  intros H W. unfold memberSettles. rewrite H, memberResume_spec, W.
  cbv zeta. destruct (removeNth k (awaited b)) as [|x xs]; auto.
  destruct (enterLoop _ _); reflexivity.
Qed.

Lemma rounds_snoc (done : list Round) (round : Round) :
  flat_map roundEffects (done ++ [round])
  = flat_map roundEffects done ++ roundEffects round.
Proof. rewrite flat_map_app. simpl. now rewrite app_nil_r. Qed.

Lemma snds_snoc (done : list Round) (round : Round) :
  flat_map snd (done ++ [round]) = flat_map snd done ++ snd round.
Proof. rewrite flat_map_app. simpl. now rewrite app_nil_r. Qed.

Lemma settleEffects_snoc (settled : list (ScenePrompt * Settlement))
    (s : ScenePrompt * Settlement) :
  settleEffects (settled ++ [s]) = settleEffects settled ++ settleEffect s.
Proof. unfold settleEffects. rewrite flat_map_app. simpl. now rewrite app_nil_r. Qed.

Lemma settle_orderly (k : nat) (r : Settlement) (inv : Invocation) :
  Orderly inv -> Orderly (record (log inv) (memberSettles k r (batch inv))).
Proof.
  intro O. destruct (nth_error (awaited (batch inv)) k) as [p|] eqn:N.
  2:{ rewrite (memberSettles_none _ _ _ N). unfold record. simpl.
      rewrite app_nil_r. destruct inv; exact O. }
  unfold Orderly, InOrder in O.
  destruct (status (batch inv)) eqn:W.
  - destruct O as [_ [A _]]. rewrite A in N. destruct k; discriminate.
  - destruct O as [done [group [rest [settled
      [G [F [Pm [Ne [I [L [Sc Fc]]]]]]]]]]].
    rewrite (memberSettles_spec _ r _ _ N W). cbv zeta.
    pose proof (removeNth_perm _ _ _ N) as Pa.
    pose proof (tally_after (p, r) (tally (batch inv))) as [Ts Tf].
    set (t := if isResolved (p, r) then countSuccess (tally (batch inv))
              else countFailure (tally (batch inv))) in *.
    set (settled' := settled ++ [(p, r)]).
    assert (Sc' : successCount t = resolvedIn (flat_map snd done ++ settled')).
    { unfold settled'. rewrite app_assoc, resolvedIn_snoc, <- Sc. exact Ts. }
    assert (Fc' : failureCount t = rejectedIn (flat_map snd done ++ settled')).
    { unfold settled'. rewrite app_assoc, rejectedIn_snoc, <- Fc. exact Tf. }
    assert (L' : log inv ++ settleEffect (p, r)
                 = SetIsBatchGenerating true
                     :: flat_map roundEffects done
                     ++ launchEffects group ++ settleEffects settled').
    { rewrite L. unfold settled'. rewrite settleEffects_snoc.
      rewrite <- app_comm_cons. now rewrite <- !app_assoc. }
    destruct (removeNth k (awaited (batch inv))) as [|x xs] eqn:R.
    + (* the last member of the group: the loop goes on *)
      assert (Fin : finishedRound (group, settled')).
      { unfold finishedRound, settled'. simpl. rewrite map_app. simpl.
        rewrite <- Pm. apply Permutation_app_head.
        symmetry. exact Pa. }
      rewrite enterLoop_spec. unfold Orderly, pendingPrompts.
      cbn [snapshot tally].
      fold (pendingPrompts (batch inv)).
      set (P := pendingPrompts (batch inv)) in *.
      assert (K1 : skipn (S (List.length done)) (chunks P) = rest)
        by (rewrite G; apply (skipn_done fst done group rest)).
      pose proof (chunks_skipn P (S (List.length done))) as K.
      rewrite K1 in K. clear K1.
      set (further := skipn (S (S (List.length done))) (chunks P)) in K.
      replace (i (batch inv) + MAX_CONCURRENT_GENERATIONS)
        with (MAX_CONCURRENT_GENERATIONS * Z.of_nat (S (List.length done)))
        by (rewrite I; unfold MAX_CONCURRENT_GENERATIONS; lia).
      destruct (_ <? _) eqn:E.
      * unfold InOrder, record, pendingPrompts.
        cbn [fst snd batch status log snapshot awaited i tally].
        fold (pendingPrompts (batch inv)). fold P.
        exists (done ++ [(group, settled')]),
          (slice (MAX_CONCURRENT_GENERATIONS * Z.of_nat (S (List.length done)))
             (MAX_CONCURRENT_GENERATIONS * Z.of_nat (S (List.length done))
              + MAX_CONCURRENT_GENERATIONS) P),
          further, [].
        repeat split.
        -- rewrite G, K, map_app. simpl. now rewrite <- app_assoc.
        -- apply Forall_app. split; auto.
        -- simpl. reflexivity.
        -- apply slice_chunk_nonempty. apply Z.ltb_lt. exact E.
        -- rewrite length_app. simpl List.length. f_equal. f_equal. lia.
        -- rewrite app_assoc, L', rounds_snoc.
           change (roundEffects (group, settled'))
             with (launchEffects group ++ settleEffects settled'). change (settleEffects []) with (@nil Effect).
           rewrite app_nil_r, <- app_comm_cons. now rewrite <- !app_assoc.
        -- rewrite snds_snoc, app_nil_r. exact Sc'.
        -- rewrite snds_snoc, app_nil_r. exact Fc'.
      * unfold InOrder, record, pendingPrompts.
        cbn [fst snd batch status log snapshot awaited i tally].
        fold (pendingPrompts (batch inv)). fold P.
        exists (done ++ [(group, settled')]).
        repeat split.
        -- rewrite G, K, map_app. reflexivity.
        -- apply Forall_app. split; auto.
        -- intro E0. unfold P, pendingPrompts in G. rewrite E0 in G.
           destruct (map fst done); discriminate.
        -- rewrite app_assoc, L', rounds_snoc.
           change (roundEffects (group, settled'))
             with (launchEffects group ++ settleEffects settled'). rewrite <- app_comm_cons. now rewrite <- !app_assoc.
        -- rewrite snds_snoc. exact Sc'.
        -- rewrite snds_snoc. exact Fc'.
    + (* other members are still awaited *)
      unfold InOrder, record, pendingPrompts.
      cbn [fst snd batch status log snapshot awaited i tally].
      exists done, group, rest, settled'.
      repeat split; auto.
      * unfold settled'. rewrite map_app. simpl. rewrite <- app_assoc. simpl.
        rewrite <- Pm. apply Permutation_app_head. symmetry. exact Pa.
      * discriminate.
  - destruct O as [done [_ [_ [A _]]]]. rewrite A in N. destruct k; discriminate.
  - contradiction.
Qed.

(* ----------------------------------------------------------------- *)
(** ** Effects on the app state *)

Lemma applyEffect_runs (a : App) (e : Effect) : runs (applyEffect a e) = runs a.
Proof. destruct e; reflexivity. Qed.

Lemma applyEffects_runs (out : list Effect) (a : App) :
  runs (applyEffects out a) = runs a.
Proof.
  unfold applyEffects. revert a. induction out as [|e r IH]; intro a; simpl; auto.
  rewrite IH. apply applyEffect_runs.
Qed.

Lemma applyEffect_calls (a : App) (e : Effect) : calls (applyEffect a e) = calls a.
Proof. destruct e; reflexivity. Qed.

Lemma applyEffects_calls (out : list Effect) (a : App) :
  calls (applyEffects out a) = calls a.
Proof.
  unfold applyEffects. revert a. induction out as [|e r IH]; intro a; simpl; auto.
  rewrite IH. apply applyEffect_calls.
Qed.

Lemma applyEffects_app (out out' : list Effect) (a : App) :
  applyEffects (out ++ out') a = applyEffects out' (applyEffects out a).
Proof. unfold applyEffects. apply fold_left_app. Qed.

Lemma replaceNth_Forall {A} (P : A -> Prop) (k : nat) (x : A) (l : list A) :
  Forall P l -> P x -> Forall P (replaceNth k x l).
Proof.
  intros F Hx. revert k. induction F as [|y r Hy F IH]; intro k.
  - destruct k; constructor.
  - destruct k; simpl; constructor; auto.
Qed.

Lemma step_runs (a : App) (act : Action) :
  runs (step a act)
  = match act with
    | GenerateAllImages => runs a ++ [record [] (handleGenerateAllImages (prompts a))]
    | MemberSettles run k r =>
        match nth_error (runs a) run with
        | Some inv =>
            replaceNth run (record (log inv) (memberSettles k r (batch inv))) (runs a)
        | None => runs a
        end
    | _ => runs a
    end.
Proof.
  destruct act; simpl; auto.
  - now rewrite applyEffects_runs.
  - destruct (handleGenerateImage id (prompts a)) as [[p out]|]; auto.
    now rewrite applyEffects_runs.
  - destruct (nth_error (runs a) run); auto. now rewrite applyEffects_runs.
  - destruct (nth_error (calls a) k); auto. rewrite callResume_spec.
    now rewrite applyEffects_runs.
  - destruct (nth_error (timeouts a) k); auto.
Qed.

Lemma step_orderly (a : App) (act : Action) :
  Forall Orderly (runs a) -> Forall Orderly (runs (step a act)).
Proof.
  intro F. rewrite step_runs. destruct act; auto.
  - apply Forall_app. split; auto. constructor; auto. apply invoke_orderly.
  - destruct (nth_error (runs a) run) as [inv|] eqn:N; auto.
    apply replaceNth_Forall; auto. apply settle_orderly.
    rewrite Forall_forall in F. apply F. eapply nth_error_In; eauto.
Qed.

Lemma session_orderly (acts : list Action) (a : App) :
  Forall Orderly (runs a) -> Forall Orderly (runs (session acts a)).
Proof.
  revert a. induction acts as [|act rest IH]; intros a F; simpl; auto.
  apply IH, step_orderly, F.
Qed.

(* ----------------------------------------------------------------- *)
(** ** Counting calls in a log *)

Lemma requested_app (l l' : list Effect) :
  requested (l ++ l') = (requested l + requested l')%nat.
Proof. unfold requested. now rewrite filter_app, length_app. Qed.

Lemma settledIn_app (l l' : list Effect) :
  settledIn (l ++ l') = (settledIn l + settledIn l')%nat.
Proof. unfold settledIn. now rewrite filter_app, length_app. Qed.

Lemma launch_counts (group : list ScenePrompt) :
  requested (launchEffects group) = List.length group
  /\ settledIn (launchEffects group) = 0%nat.
Proof.
  unfold requested, settledIn.
  induction group as [|p r [IH1 IH2]]; simpl; auto.
Qed.

Lemma settle_counts (settled : list (ScenePrompt * Settlement)) :
  requested (settleEffects settled) = 0%nat
  /\ settledIn (settleEffects settled) = List.length settled.
Proof.
  unfold requested, settledIn.
  induction settled as [|[p [u|e]] r [IH1 IH2]]; simpl; auto.
Qed.

Lemma round_counts (done : list Round) :
  Forall finishedRound done ->
  requested (flat_map roundEffects done) = settledIn (flat_map roundEffects done)
  /\ requested (flat_map roundEffects done) = List.length (flat_map snd done)
  /\ List.length (flat_map snd done) = List.length (List.concat (map fst done)).
Proof.
  induction 1 as [|[g s] r Fin F [IH1 [IH2 IH3]]]; [simpl; auto|].
  change (flat_map roundEffects ((g, s) :: r))
    with ((launchEffects g ++ settleEffects s) ++ flat_map roundEffects r).
  change (flat_map snd ((g, s) :: r)) with (s ++ flat_map snd r).
  change (List.concat (map fst ((g, s) :: r)))
    with (g ++ List.concat (map fst r)).
  rewrite !requested_app, !settledIn_app, !length_app.
  destruct (launch_counts g) as [L1 L2]. destruct (settle_counts s) as [S1 S2].
  unfold finishedRound in Fin. simpl in Fin.
  apply Permutation_length in Fin. rewrite length_map in Fin.
  rewrite L1, L2, S1, S2. lia.
Qed.

Lemma resolved_rejected (settled : list (ScenePrompt * Settlement)) :
  (resolvedIn settled + rejectedIn settled)%nat = List.length settled.
Proof.
  unfold resolvedIn, rejectedIn.
  induction settled as [|s r IH]; simpl; auto.
  destruct (isResolved s); simpl; lia.
Qed.

Lemma orderly_bound (inv : Invocation) :
  Orderly inv ->
  (List.length (awaited (batch inv)) <= 4)%nat
  /\ requested (log inv)
     = (settledIn (log inv) + List.length (awaited (batch inv)))%nat.
Proof.
  unfold Orderly, InOrder. destruct (status (batch inv)).
  - intros [_ [A L]]. rewrite A, L. simpl. split; [lia|reflexivity].
  - intros [done [group [rest [settled [G [F [Pm [_ [_ [L _]]]]]]]]]].
    assert (Hg : (List.length group <= 4)%nat).
    { pose proof (chunks_sizes (pendingPrompts (batch inv))) as S.
      rewrite G in S. apply Forall_app in S. destruct S as [_ S].
      inversion S; subst. lia. }
    apply Permutation_length in Pm. rewrite length_app, length_map in Pm.
    split; [lia|].
    rewrite L. change (SetIsBatchGenerating true :: ?x) with ([SetIsBatchGenerating true] ++ x).
    rewrite !requested_app, !settledIn_app.
    destruct (round_counts done F) as [R _].
    destruct (launch_counts group) as [L1 L2].
    destruct (settle_counts settled) as [S1 S2].
    rewrite R, L1, L2, S1, S2. simpl. lia.
  - intros [done [_ [F [A [_ [L _]]]]]]. rewrite A, L. split; [simpl; lia|].
    change (SetIsBatchGenerating true :: ?x) with ([SetIsBatchGenerating true] ++ x).
    rewrite !requested_app, !settledIn_app.
    destruct (round_counts done F) as [R _]. rewrite R.
    unfold requested, settledIn, batchToast. simpl. lia.
  - contradiction.
Qed.

(* ----------------------------------------------------------------- *)
(** ** Effects on the scene records *)

Lemma applyEffect_prompts (a : App) (e : Effect) :
  prompts (applyEffect a e) = rewritePrompts (prompts a) e.
Proof. destruct e; reflexivity. Qed.

Lemma applyEffects_prompts (out : list Effect) (a : App) :
  prompts (applyEffects out a) = fold_left rewritePrompts out (prompts a).
Proof.
  unfold applyEffects. revert a. induction out as [|e r IH]; intro a; simpl; auto.
  now rewrite IH, applyEffect_prompts.
Qed.

Lemma sceneOnly_apply (out : list Effect) (a : App) :
  forallb sceneOnly out = true ->
  applyEffects out a = withPrompts (fun ps => fold_left rewritePrompts out ps) a.
Proof.
  unfold applyEffects. revert a. induction out as [|e r IH]; intros a H.
  - destruct a; reflexivity.
  - simpl in H. apply andb_true_iff in H. destruct H as [He Hr].
    simpl fold_left. rewrite (IH _ Hr).
    destruct e; try discriminate; destruct a; reflexivity.
Qed.

Lemma launch_sceneOnly (group : list ScenePrompt) :
  forallb sceneOnly (launchEffects group) = true.
Proof. induction group as [|p r IH]; simpl; auto. Qed.

Lemma settle_sceneOnly (s : ScenePrompt * Settlement) :
  forallb sceneOnly (settleEffect s) = true.
Proof. destruct s as [p [u|e]]; reflexivity. Qed.

Lemma replaceNth_nth {A} (k : nat) (x y : A) (l : list A) :
  nth_error l k = Some y -> nth_error (replaceNth k x l) k = Some x.
Proof.
  revert l. induction k as [|k IH]; intros [|z r] H; simpl in *; try discriminate; auto.
Qed.

Lemma replaceNth_length {A} (k : nat) (x : A) (l : list A) :
  List.length (replaceNth k x l) = List.length l.
Proof.
  revert l. induction k as [|k IH]; intros [|z r]; simpl; auto.
Qed.

Lemma step_member (a : App) (run k : nat) (r : Settlement) (inv : Invocation) :
  nth_error (runs a) run = Some inv ->
  step a (MemberSettles run k r)
  = applyEffects (snd (memberSettles k r (batch inv)))
      (withRuns (replaceNth run (record (log inv) (memberSettles k r (batch inv)))
                   (runs a)) a).
Proof. intro H. simpl. now rewrite H. Qed.

Lemma among_step (outcome : nat -> Settlement) (n m : nat) :
  resolvedAmong outcome n (S m)
  = ((if resolves (outcome n) then 1 else 0) + resolvedAmong outcome (S n) m)%nat
  /\ rejectedAmong outcome n (S m)
     = ((if resolves (outcome n) then 0 else 1) + rejectedAmong outcome (S n) m)%nat.
Proof.
  unfold resolvedAmong, rejectedAmong. simpl.
  destruct (resolves (outcome n)); simpl; auto.
Qed.

Lemma among_total (outcome : nat -> Settlement) (n m : nat) :
  (resolvedAmong outcome n m + rejectedAmong outcome n m)%nat = m.
Proof.
  revert n. induction m as [|m IH]; intro n; [reflexivity|].
  destruct (among_step outcome n m) as [E1 E2]. rewrite E1, E2.
  specialize (IH (S n)). destruct (resolves (outcome n)); lia.
Qed.

Lemma waiting_facts (inv : Invocation) :
  Orderly inv -> status (batch inv) = Waiting ->
  awaited (batch inv) <> []
  /\ exists n : nat, i (batch inv) = Z.of_nat (4 * n).
Proof.
  unfold Orderly, InOrder. intros O W. rewrite W in O.
  destruct O as [done [group [rest [settled [_ [_ [_ [Ne [I _]]]]]]]]].
  split; auto. exists (List.length done). rewrite I.
  unfold MAX_CONCURRENT_GENERATIONS. lia.
Qed.

Lemma settle_first (b : Batch) (r : Settlement) (p : ScenePrompt)
    (rest : list ScenePrompt) (n : nat) :
  status b = Waiting -> awaited b = p :: rest -> i b = Z.of_nat (4 * n) ->
  snapshot (fst (memberSettles 0 r b)) = snapshot b
  /\ tally (fst (memberSettles 0 r b))
     = (if resolves r then countSuccess (tally b) else countFailure (tally b))
  /\ ((status (fst (memberSettles 0 r b)) = Waiting
       /\ S (remaining (fst (memberSettles 0 r b))) = remaining b
       /\ forallb sceneOnly (snd (memberSettles 0 r b)) = true)
      \/ (status (fst (memberSettles 0 r b)) = Completed
          /\ remaining b = 1%nat
          /\ snd (memberSettles 0 r b)
             = settleEffect (p, r)
               ++ [SetIsBatchGenerating false;
                   batchToast (if resolves r then countSuccess (tally b)
                               else countFailure (tally b))])).
Proof.
  intros W A I.
  assert (N : nth_error (awaited b) 0 = Some p) by (rewrite A; reflexivity).
  rewrite (memberSettles_spec 0 r b p N W). cbv zeta.
  change (isResolved (p, r)) with (resolves r).
  set (t := if resolves r then countSuccess (tally b) else countFailure (tally b)).
  rewrite A. simpl removeNth. destruct rest as [|x xs].
  - rewrite enterLoop_spec. unfold pendingPrompts. cbn [snapshot tally].
    fold (pendingPrompts b). set (P := pendingPrompts b).
    replace (i b + MAX_CONCURRENT_GENERATIONS) with (Z.of_nat (4 * n + 4))
      by (rewrite I; unfold MAX_CONCURRENT_GENERATIONS; lia).
    destruct (Z.of_nat (4 * n + 4) <? Z.of_nat (List.length P)) eqn:E.
    + apply Z.ltb_lt in E. cbn [fst snd snapshot tally status].
      repeat split; auto. left. repeat split.
      * unfold remaining, pendingPrompts. cbn [awaited i snapshot].
        fold (pendingPrompts b). fold P.
        rewrite slice_chunk, length_firstn, length_skipn, A, I.
        unfold MAX_CONCURRENT_GENERATIONS. simpl List.length. lia.
      * rewrite forallb_app, settle_sceneOnly, launch_sceneOnly. reflexivity.
    + apply Z.ltb_ge in E. cbn [fst snd snapshot tally status].
      repeat split; auto. right. repeat split.
      unfold remaining. fold P. rewrite A, I.
      unfold MAX_CONCURRENT_GENERATIONS. simpl List.length. lia.
  - cbn [fst snd snapshot tally status]. repeat split; auto. left. repeat split.
    + unfold remaining, pendingPrompts. cbn [awaited i snapshot].
      rewrite A. simpl List.length. lia.
    + apply settle_sceneOnly.
Qed.

Lemma drain_completes (m : nat) :
  forall (a : App) (run : nat) (inv : Invocation) (outcome : nat -> Settlement)
         (n : nat),
    nth_error (runs a) run = Some inv ->
    Orderly inv ->
    status (batch inv) = Waiting ->
    remaining (batch inv) = m ->
    exists inv',
      nth_error (runs (drain m run outcome n a)) run = Some inv'
      /\ Orderly inv'
      /\ status (batch inv') = Completed
      /\ snapshot (batch inv') = snapshot (batch inv)
      /\ successCount (tally (batch inv'))
         = (successCount (tally (batch inv)) + resolvedAmong outcome n m)%nat
      /\ failureCount (tally (batch inv'))
         = (failureCount (tally (batch inv)) + rejectedAmong outcome n m)%nat
      /\ toasts (drain m run outcome n a)
         = toasts a ++ [aggregateToast (random a) (tally (batch inv'))]
      /\ timeouts (drain m run outcome n a) = timeouts a
      /\ isBatchGenerating (drain m run outcome n a) = false.
Proof.
  induction m as [|m IH]; intros a run inv outcome n N O W R.
  - destruct (waiting_facts inv O W) as [Ne _].
    unfold remaining in R. destruct (awaited (batch inv)); [congruence|].
    simpl in R. lia.
  - destruct (waiting_facts inv O W) as [Ne [j I]].
    destruct (awaited (batch inv)) as [|p rest] eqn:A; [congruence|].
    cbn [drain]. rewrite (step_member a run 0 (outcome n) inv N).
    destruct (among_step outcome n m) as [E1 E2].
    destruct (settle_first (batch inv) (outcome n) p rest j W A I)
      as [Sn [Ta [[W' [R' Q]]|[C [R' Out]]]]].
    + set (res := memberSettles 0 (outcome n) (batch inv)) in *.
      set (a1 := applyEffects (snd res)
                   (withRuns (replaceNth run (record (log inv) res) (runs a)) a)).
      assert (N1 : nth_error (runs a1) run = Some (record (log inv) res)).
      { unfold a1. rewrite applyEffects_runs. simpl.
        eapply replaceNth_nth; eauto. }
      destruct (IH a1 run (record (log inv) res) outcome (S n) N1
                  (settle_orderly 0 (outcome n) inv O) W' ltac:(simpl; lia))
        as [inv' [Nf [Of [Cf [Sf [Tsf [Tff [To [Ti Fl]]]]]]]]].
      exists inv'. simpl batch in *. rewrite Ta in Tsf, Tff.
      assert (Q1 : toasts a1 = toasts a /\ timeouts a1 = timeouts a
                   /\ random a1 = random a).
      { unfold a1. rewrite (sceneOnly_apply _ _ Q). simpl. auto. }
      destruct Q1 as [Q1 [Q2 Q3]]. rewrite Q1, Q3 in To. rewrite Q2 in Ti.
      repeat split; auto; try congruence.
      * rewrite Tsf, E1. destruct (resolves (outcome n)); simpl; lia.
      * rewrite Tff, E2. destruct (resolves (outcome n)); simpl; lia.
    + assert (m = 0)%nat by lia. subst m.
      set (res := memberSettles 0 (outcome n) (batch inv)) in *.
      exists (record (log inv) res). cbn [drain].
      rewrite applyEffects_runs. simpl runs.
      repeat split.
      * eapply replaceNth_nth; eauto.
      * apply settle_orderly, O.
      * exact C.
      * exact Sn.
      * simpl batch. rewrite Ta, E1. unfold resolvedAmong.
        destruct (resolves (outcome n)); simpl; lia.
      * simpl batch. rewrite Ta, E2. unfold rejectedAmong.
        destruct (resolves (outcome n)); simpl; lia.
      * rewrite Out, applyEffects_app.
        rewrite (sceneOnly_apply _ _ (settle_sceneOnly _)).
        simpl batch. rewrite Ta. reflexivity.
      * rewrite Out, applyEffects_app.
        rewrite (sceneOnly_apply _ _ (settle_sceneOnly _)). reflexivity.
      * rewrite Out, applyEffects_app.
        rewrite (sceneOnly_apply _ _ (settle_sceneOnly _)). reflexivity.
Qed.

Lemma whole_batch (a : App) (outcome : nat -> Settlement) :
  prompts a <> [] ->
  exists inv,
    nth_error
      (runs (drain (List.length (pendingOf (prompts a))) (List.length (runs a))
               outcome 0 (step a GenerateAllImages)))
      (List.length (runs a)) = Some inv
    /\ Orderly inv
    /\ status (batch inv) = Completed
    /\ snapshot (batch inv) = prompts a
    /\ successCount (tally (batch inv))
       = resolvedAmong outcome 0 (List.length (pendingOf (prompts a)))
    /\ failureCount (tally (batch inv))
       = rejectedAmong outcome 0 (List.length (pendingOf (prompts a)))
    /\ toasts (drain (List.length (pendingOf (prompts a))) (List.length (runs a))
                 outcome 0 (step a GenerateAllImages))
       = toasts a ++ [aggregateToast (random a) (tally (batch inv))]
    /\ timeouts (drain (List.length (pendingOf (prompts a))) (List.length (runs a))
                   outcome 0 (step a GenerateAllImages))
       = timeouts a
    /\ isBatchGenerating
         (drain (List.length (pendingOf (prompts a))) (List.length (runs a))
            outcome 0 (step a GenerateAllImages)) = false.
Proof.
  intro Hp. set (P := pendingOf (prompts a)).
  pose proof (invoke_orderly (prompts a)) as O.
  pose proof (handleGenerateAllImages_spec (prompts a)) as H.
  destruct (prompts a) as [|p ps] eqn:Ep; [congruence|]. fold P in H.
  set (res := handleGenerateAllImages (p :: ps)) in *.
  assert (St : step a GenerateAllImages
               = applyEffects (snd res) (withRuns (runs a ++ [record [] res]) a)).
  { simpl. rewrite Ep. reflexivity. }
  rewrite St.
  set (a1 := applyEffects (snd res) (withRuns (runs a ++ [record [] res]) a)).
  assert (N1 : nth_error (runs a1) (List.length (runs a)) = Some (record [] res)).
  { unfold a1. rewrite applyEffects_runs. simpl.
    rewrite nth_error_app2 by lia. now rewrite Nat.sub_diag. }
  destruct (0 <? Z.of_nat (List.length P)) eqn:E.
  - apply Z.ltb_lt in E.
    assert (W : status (batch (record [] res)) = Waiting) by (simpl; now rewrite H).
    assert (R : remaining (batch (record [] res)) = List.length P).
    { simpl batch. rewrite H. unfold remaining, pendingPrompts.
      cbn [fst awaited i snapshot]. fold P.
      change 0 with (Z.of_nat 0) at 1 2.
      rewrite (slice_chunk 0 P), length_firstn. simpl skipn.
      unfold MAX_CONCURRENT_GENERATIONS. lia. }
    destruct (drain_completes (List.length P) a1 (List.length (runs a))
                (record [] res) outcome 0 N1 O W R)
      as [inv [Nf [Of [Cf [Sf [Tsf [Tff [To [Ti Fl]]]]]]]]].
    exists inv.
    assert (Q : toasts a1 = toasts a /\ timeouts a1 = timeouts a
                /\ random a1 = random a).
    { unfold a1. rewrite H. cbn [snd].
      change (SetIsBatchGenerating true :: ?l) with ([SetIsBatchGenerating true] ++ l).
      rewrite applyEffects_app, (sceneOnly_apply _ _ (launch_sceneOnly _)).
      simpl. auto. }
    destruct Q as [Q1 [Q2 Q3]]. rewrite Q1, Q3 in To. rewrite Q2 in Ti.
    simpl batch in Sf, Tsf, Tff. rewrite H in Sf, Tsf, Tff.
    cbn [fst snapshot tally successCount failureCount noTally] in Sf, Tsf, Tff.
    repeat split; auto.
  - apply Z.ltb_ge in E. assert (L0 : List.length P = 0%nat) by lia.
    rewrite L0. cbn [drain]. exists (record [] res).
    assert (C : status (batch (record [] res)) = Completed) by (simpl; now rewrite H).
    repeat split; auto.
    + simpl. now rewrite H.
    + simpl. now rewrite H.
    + simpl. now rewrite H.
    + unfold a1. simpl batch. rewrite H. reflexivity.
    + unfold a1. rewrite H. reflexivity.
    + unfold a1. rewrite H. reflexivity.
Qed.

(* ----------------------------------------------------------------- *)
(** ** The batch works through its groups one at a time *)

Lemma requestsOf_app (l l' : list Effect) :
  requestsOf (l ++ l') = requestsOf l ++ requestsOf l'.
Proof. apply flat_map_app. Qed.

Lemma requestsOf_launch (group : list ScenePrompt) :
  requestsOf (launchEffects group) = group.
Proof.
  induction group as [|p r IH]; [reflexivity|]. simpl. now rewrite IH.
Qed.

Lemma requestsOf_settle (settled : list (ScenePrompt * Settlement)) :
  requestsOf (settleEffects settled) = [].
Proof.
  induction settled as [|[p [u|e]] r IH]; [reflexivity| |];
    unfold settleEffects in *; cbn [flat_map settleEffect snd fst];
    rewrite requestsOf_app, IH; reflexivity.
Qed.

Lemma requestsOf_rounds (done : list Round) :
  requestsOf (flat_map roundEffects done) = List.concat (map fst done).
Proof.
  induction done as [|[g s] r IH]; [reflexivity|].
  cbn [flat_map map List.concat fst]. unfold roundEffects at 1. cbn [fst snd].
  now rewrite !requestsOf_app, requestsOf_launch, requestsOf_settle, IH, app_nil_r.
Qed.

(** C1: every invocation of the batch handler takes the prompts without
    an image from the plan it saw, cuts them in their order into
    ceil(n/4) groups of at most four (of sizes 4, 4, 2 for ten of them),
    and works through the groups one after the other.  At every moment of
    every session its log is one round per group, each round starting all
    members of the group and then settling exactly these members before
    the next round begins, and no more than four of its calls are
    outstanding.  A settling call starts no call while other members of
    its group are awaited; the call that settles last starts all members
    of the next group at once, or ends the batch when there is none.
    Driven to its end, the batch has dispatched every group, in order,
    and requested exactly the pending prompts. *)
Theorem batch_groups_in_order :
  (forall plan acts inv,
      In inv (runs (session acts (showing plan))) ->
      pendingPrompts (batch inv)
        = filter (fun p => negb (truthy (ScenePrompt.generatedImageUrl p)))
            (snapshot (batch inv))
      /\ List.concat (chunks (pendingPrompts (batch inv))) = pendingPrompts (batch inv)
      /\ Forall (fun g => (1 <= List.length g <= 4)%nat)
           (chunks (pendingPrompts (batch inv)))
      /\ Z.of_nat (List.length (chunks (pendingPrompts (batch inv))))
         = ceilDiv (Z.of_nat (List.length (pendingPrompts (batch inv)))) 4
      /\ (List.length (pendingPrompts (batch inv)) = 10%nat ->
          map (@List.length ScenePrompt) (chunks (pendingPrompts (batch inv)))
          = [4; 4; 2]%nat)
      /\ InOrder (chunks (pendingPrompts (batch inv))) inv
      /\ (List.length (awaited (batch inv)) <= 4)%nat
      /\ requested (log inv)
         = (settledIn (log inv) + List.length (awaited (batch inv)))%nat)
  /\ (forall b k r p,
        status b = Waiting -> nth_error (awaited b) k = Some p ->
        (removeNth k (awaited b) <> [] ->
         status (fst (memberSettles k r b)) = Waiting
         /\ i (fst (memberSettles k r b)) = i b
         /\ awaited (fst (memberSettles k r b)) = removeNth k (awaited b)
         /\ snd (memberSettles k r b) = settleEffect (p, r))
        /\ (removeNth k (awaited b) = [] ->
            i b + MAX_CONCURRENT_GENERATIONS
              < Z.of_nat (List.length (pendingPrompts b)) ->
            status (fst (memberSettles k r b)) = Waiting
            /\ i (fst (memberSettles k r b)) = i b + MAX_CONCURRENT_GENERATIONS
            /\ awaited (fst (memberSettles k r b))
               = slice (i b + MAX_CONCURRENT_GENERATIONS)
                   (i b + MAX_CONCURRENT_GENERATIONS + MAX_CONCURRENT_GENERATIONS)
                   (pendingPrompts b)
            /\ snd (memberSettles k r b)
               = settleEffect (p, r)
                 ++ launchEffects
                      (slice (i b + MAX_CONCURRENT_GENERATIONS)
                         (i b + MAX_CONCURRENT_GENERATIONS
                          + MAX_CONCURRENT_GENERATIONS)
                         (pendingPrompts b)))
        /\ (removeNth k (awaited b) = [] ->
            Z.of_nat (List.length (pendingPrompts b))
              <= i b + MAX_CONCURRENT_GENERATIONS ->
            status (fst (memberSettles k r b)) = Completed
            /\ awaited (fst (memberSettles k r b)) = []
            /\ requestsOf (snd (memberSettles k r b)) = []))
  /\ (forall a outcome,
        prompts a <> [] ->
        exists inv done,
          nth_error
            (runs (drain (List.length (pendingOf (prompts a)))
                     (List.length (runs a)) outcome 0 (step a GenerateAllImages)))
            (List.length (runs a)) = Some inv
          /\ status (batch inv) = Completed
          /\ map fst done = chunks (pendingOf (prompts a))
          /\ Forall finishedRound done
          /\ log inv
             = SetIsBatchGenerating true
                 :: flat_map roundEffects done
                 ++ [SetIsBatchGenerating false; batchToast (tally (batch inv))]
          /\ requestsOf (log inv) = pendingOf (prompts a)).
Proof.
  split; [|split].
  - intros plan acts inv Hin.
    assert (O : Orderly inv).
    { pose proof (session_orderly acts (showing plan) (Forall_nil _)) as F.
      rewrite Forall_forall in F. apply F, Hin. }
    destruct (orderly_bound inv O) as [B C].
    repeat split.
    + apply chunks_concat.
    + apply chunks_sizes.
    + apply chunks_length.
    + apply chunks_of_ten.
    + exact O.
    + exact B.
    + exact C.
  - intros b k r p St Aw. rewrite (memberSettles_spec k r b p Aw St). cbv zeta.
    split; [|split].
    + intro N. destruct (removeNth k (awaited b)) as [|x xs]; [congruence|].
      cbn [fst snd status i awaited]. repeat split; reflexivity.
    + intros E L. rewrite E, enterLoop_spec.
      unfold pendingPrompts in *. cbn [snapshot].
      apply Z.ltb_lt in L. rewrite L.
      cbv zeta. cbn [fst snd status i awaited]. repeat split; reflexivity.
    + intros E L. rewrite E, enterLoop_spec.
      unfold pendingPrompts in *. cbn [snapshot].
      apply Z.ltb_ge in L. rewrite L.
      cbn [fst snd status i awaited]. split; [reflexivity|]. split; [reflexivity|].
      rewrite requestsOf_app. destruct r; reflexivity.
  - intros a outcome N.
    destruct (whole_batch a outcome N) as [inv [H [O [St [Sn _]]]]].
    unfold Orderly, InOrder in O. rewrite St in O.
    destruct O as [done [G [F [_ [_ [L _]]]]]].
    assert (P : pendingPrompts (batch inv) = pendingOf (prompts a))
      by (unfold pendingPrompts; now rewrite Sn).
    rewrite P in G. exists inv, done.
    split; [exact H|]. split; [exact St|]. split; [now symmetry|].
    split; [exact F|]. split; [exact L|].
    rewrite L.
    change (SetIsBatchGenerating true :: ?l) with ([SetIsBatchGenerating true] ++ l).
    rewrite !requestsOf_app, requestsOf_rounds.
    cbn [requestsOf flat_map app batchToast]. rewrite app_nil_r, <- G.
    apply chunks_concat.
Qed.

Lemma batch_groups_in_order_ten :
  exists (inv : Invocation) (done : list Round),
    nth_error
      (runs (drain 10 0 threeFail 0 (step (showing tenScenes) GenerateAllImages)))
      0 = Some inv
    /\ status (batch inv) = Completed
    /\ map (@List.length ScenePrompt) (map fst done) = [4; 4; 2]%nat
    /\ requestsOf (log inv) = tenScenes.
Proof.
  assert (N : prompts (showing tenScenes) <> []) by discriminate.
  destruct (proj2 (proj2 batch_groups_in_order) (showing tenScenes) threeFail N)
    as [inv [done [H [St [G [_ [_ R]]]]]]].
  exists inv, done. split; [exact H|]. split; [exact St|].
  split; [rewrite G; reflexivity | exact R].
Defined.

Lemma sceneOnly_no_toast (l : list Effect) :
  forallb sceneOnly l = true -> filter isToast l = [].
Proof.
  induction l as [|e r IH]; simpl; auto.
  intro H. apply andb_true_iff in H. destruct H as [He Hr].
  rewrite (IH Hr). destruct e; try discriminate; reflexivity.
Qed.

Lemma rounds_sceneOnly (done : list Round) :
  forallb sceneOnly (flat_map roundEffects done) = true.
Proof.
  induction done as [|[g s] r IH]; simpl; auto.
  unfold roundEffects at 1. simpl fst. simpl snd.
  rewrite !forallb_app, launch_sceneOnly, IH, andb_true_r.
  unfold settleEffects. induction s as [|x xs IHs]; simpl; auto.
  now rewrite forallb_app, settle_sceneOnly, IHs.
Qed.

Lemma settled_sceneOnly (settled : list (ScenePrompt * Settlement)) :
  forallb sceneOnly (settleEffects settled) = true.
Proof.
  unfold settleEffects. induction settled as [|x xs IH]; simpl; auto.
  now rewrite forallb_app, settle_sceneOnly, IH.
Qed.

Lemma in_session_orderly (plan : list ScenePrompt) (acts : list Action)
    (inv : Invocation) :
  In inv (runs (session acts (showing plan))) -> Orderly inv.
Proof.
  intro Hin.
  pose proof (session_orderly acts (showing plan) (Forall_nil _)) as F.
  rewrite Forall_forall in F. apply F, Hin.
Qed.

Lemma chunks_nil_inv {A} (l : list A) : chunks l <> [] -> l <> [].
Proof. intros H E. subst l. apply H. reflexivity. Qed.

Lemma pendingOf_nil_inv (prompts : list ScenePrompt) :
  pendingOf prompts <> [] -> prompts <> [].
Proof. intros H E. subst prompts. apply H. reflexivity. Qed.

(* ----------------------------------------------------------------- *)
(** ** The aggregate notification *)

(** C2 (as amended): an invocation of the batch handler on a scene
    sequence that is not empty posts, when it has run to its end, exactly
    one toast, as its last effect and after all its calls have settled;
    the toast is persistent and reports a success count and a failure
    count whose sum is the number of prompts that were pending at the
    start.  Before its end it posts none, and on an empty scene sequence
    the handler returns at its guard without any effect.  Run on its own
    from a plan, the batch leaves exactly this toast in the list of toasts
    and no timeout to remove it. *)
Theorem batch_notification :
  (forall plan acts inv,
      In inv (runs (session acts (showing plan))) ->
      (status (batch inv) = Returned <-> snapshot (batch inv) = [])
      /\ (status (batch inv) = Returned -> log inv = [])
      /\ (status (batch inv) = Waiting -> filter isToast (log inv) = [])
      /\ (status (batch inv) = Completed ->
          exists body,
            log inv = body ++ [SetIsBatchGenerating false;
                               batchToast (tally (batch inv))]
            /\ filter isToast body = []
            /\ requested body = List.length (pendingPrompts (batch inv))
            /\ settledIn body = List.length (pendingPrompts (batch inv))
            /\ (successCount (tally (batch inv)) + failureCount (tally (batch inv)))%nat
               = List.length (pendingPrompts (batch inv))))
  /\ (forall t, exists type message,
        batchToast t = AddToast type "Batch Generation Complete" message (Some true))
  /\ (forall plan outcome,
        plan <> [] ->
        let n := List.length (pendingOf plan) in
        let a := drain n 0 outcome 0 (step (showing plan) GenerateAllImages) in
        toasts a = [aggregateToast 0 {| successCount := resolvedAmong outcome 0 n;
                                        failureCount := rejectedAmong outcome 0 n |}]
        /\ timeouts a = []
        /\ (resolvedAmong outcome 0 n + rejectedAmong outcome 0 n)%nat = n).
Proof.
  split; [|split].
  - intros plan acts inv Hin.
    pose proof (in_session_orderly plan acts inv Hin) as O.
    unfold Orderly, InOrder in O.
    destruct (status (batch inv)) eqn:W.
    + destruct O as [S [_ L]]. repeat split; auto; discriminate.
    + destruct O as [done [group [rest [settled [G [F [_ [_ [_ [L _]]]]]]]]]].
      repeat split; try discriminate.
      * intro S. exfalso.
        assert (Hc : chunks (pendingPrompts (batch inv)) <> [])
          by (rewrite G; destruct (map fst done); discriminate).
        apply chunks_nil_inv, pendingOf_nil_inv in Hc. contradiction.
      * intros _. rewrite L. simpl. apply sceneOnly_no_toast.
        rewrite !forallb_app, rounds_sceneOnly, launch_sceneOnly,
          settled_sceneOnly. reflexivity.
    + destruct O as [done [G [F [_ [Sn [L [Sc Fc]]]]]]].
      destruct (round_counts done F) as [R1 [R2 R3]].
      assert (Len : List.length (flat_map snd done)
                    = List.length (pendingPrompts (batch inv))).
      { rewrite R3, <- G, chunks_concat. reflexivity. }
      repeat split; try discriminate; try contradiction.
      intros _. exists (SetIsBatchGenerating true :: flat_map roundEffects done).
      repeat split.
      * exact L.
      * simpl. apply sceneOnly_no_toast, rounds_sceneOnly.
      * change (requested (flat_map roundEffects done)
                = List.length (pendingPrompts (batch inv))). congruence.
      * change (settledIn (flat_map roundEffects done)
                = List.length (pendingPrompts (batch inv))). congruence.
      * rewrite Sc, Fc, resolved_rejected. exact Len.
    + contradiction.
  - intro t. eexists. eexists. reflexivity.
  - intros plan outcome Hp n a.
    destruct (whole_batch (showing plan) outcome Hp)
      as [inv [_ [_ [_ [_ [Ts [Tf [To [Ti _]]]]]]]]].
    simpl prompts in *. simpl runs in *. simpl List.length in To, Ti.
    fold n in Ts, Tf, To, Ti. fold a in To, Ti.
    repeat split.
    + rewrite To. simpl. f_equal. unfold aggregateToast.
      rewrite Ts, Tf. reflexivity.
    + exact Ti.
    + apply among_total.
Qed.

Lemma batch_notification_three_of_ten_fail :
  map ToastMessage.message
    (toasts (drain 10 0 threeFail 0 (step (showing tenScenes) GenerateAllImages)))
  = [("Successfully generated: 7 images." ++ String (ascii_of_nat 10) "Failed: 3 images.")%string]
  /\ map ToastMessage.persistent
       (toasts (drain 10 0 threeFail 0 (step (showing tenScenes) GenerateAllImages)))
     = [Some true]
  /\ timeouts (drain 10 0 threeFail 0 (step (showing tenScenes) GenerateAllImages)) = [].
Proof.
  destruct batch_notification as [_ [_ H]].
  destruct (H tenScenes threeFail ltac:(discriminate)) as [To [Ti _]].
  cbv zeta in To, Ti.
  change (List.length (pendingOf tenScenes)) with 10%nat in To, Ti.
  rewrite To, Ti. repeat split; reflexivity.
Defined.

(** C2 (as stated) fails on the empty scene sequence: the handler runs to
    its end, at the guard, and no notification is posted. *)
Lemma batch_on_empty_plan_posts_nothing :
  exists inv,
    runs (step (showing []) GenerateAllImages) = [inv]
    /\ status (batch inv) = Returned
    /\ filter isToast (log inv) = []
    /\ toasts (step (showing []) GenerateAllImages) = [].
Proof. eexists. repeat split. Qed.

(* ----------------------------------------------------------------- *)
(** ** A failing member *)

Lemma control_independent (k : nat) (r r' : Settlement) (b : Batch) :
  control (fst (memberSettles k r b)) = control (fst (memberSettles k r' b)).
Proof.
  unfold memberSettles. destruct (nth_error (awaited b) k) as [p|]; auto.
  rewrite !memberResume_spec. cbv zeta.
  destruct (status b); auto.
  destruct (removeNth k (awaited b)) as [|x xs]; auto.
  rewrite !enterLoop_spec. unfold pendingPrompts. cbn [snapshot tally].
  destruct (_ <? _); reflexivity.
Qed.

Lemma setFailed_state (id : Z) (q : ScenePrompt) :
  ScenePrompt.id (setFailed id q) = ScenePrompt.id q
  /\ (ScenePrompt.id q = id -> generationState (setFailed id q) = Failed)
  /\ (ScenePrompt.id q <> id -> setFailed id q = q).
Proof.
  unfold setFailed. destruct (ScenePrompt.id q =? id) eqn:E.
  - repeat split; auto. intro N. apply Z.eqb_eq in E. contradiction.
  - repeat split; auto. intro N. apply Z.eqb_neq in E. contradiction.
Qed.

(** C3: a member whose call fails never throws: its callback logs the
    error, marks the records with its id as failed (their state is then
    Failed) and counts one failure.  The group's wait is therefore never
    rejected (no invocation in any session is ever aborted), the other
    members of the group stay awaited and settle on their own, the way the
    invocation goes on does not depend on whether a call resolved or
    rejected, and whatever the outcomes of the calls are, the batch works
    through all its groups to its end, the failures being counted. *)
Theorem failure_is_absorbed :
  (forall p r t, exists out t', memberResume p r t = (out, t', Normal tt))
  /\ (forall p e t,
        memberResume p (Rejected e) t
        = ([ConsoleError e; SetFailed p], countFailure t, Normal tt))
  /\ (forall a p q,
        In q (prompts (applyEffect a (SetFailed p))) ->
        ScenePrompt.id q = ScenePrompt.id p -> generationState q = Failed)
  /\ (forall k r r' b,
        control (fst (memberSettles k r b)) = control (fst (memberSettles k r' b)))
  /\ (forall b k r p,
        nth_error (awaited b) k = Some p -> status b = Waiting ->
        removeNth k (awaited b) <> [] ->
        awaited (fst (memberSettles k r b)) = removeNth k (awaited b)
        /\ status (fst (memberSettles k r b)) = Waiting)
  /\ (forall plan acts inv e,
        In inv (runs (session acts (showing plan))) ->
        status (batch inv) <> Aborted e)
  /\ (forall a outcome,
        prompts a <> [] ->
        exists inv,
          nth_error
            (runs (drain (List.length (pendingOf (prompts a)))
                     (List.length (runs a)) outcome 0 (step a GenerateAllImages)))
            (List.length (runs a)) = Some inv
          /\ status (batch inv) = Completed
          /\ InOrder (chunks (pendingOf (prompts a))) inv
          /\ failureCount (tally (batch inv))
             = rejectedAmong outcome 0 (List.length (pendingOf (prompts a)))).
Proof.
  split.
  { intros p r t. rewrite memberResume_spec. eexists. eexists. reflexivity. }
  split.
  { intros p e t. reflexivity. }
  split.
  { intros a p q Hin Hid. rewrite applyEffect_prompts in Hin. simpl in Hin.
    apply in_map_iff in Hin. destruct Hin as [q0 [E _]]. subst q.
    destruct (setFailed_state (ScenePrompt.id p) q0) as [I [F _]].
    apply F. congruence. }
  split.
  { apply control_independent. }
  split.
  { intros b k r p N W Ne. rewrite (memberSettles_spec k r b p N W). cbv zeta.
    destruct (removeNth k (awaited b)); [congruence|split; reflexivity]. }
  split.
  { intros plan acts inv e Hin A.
    pose proof (in_session_orderly plan acts inv Hin) as O.
    unfold Orderly, InOrder in O. rewrite A in O. exact O. }
  intros a outcome Hp.
  destruct (whole_batch a outcome Hp)
    as [inv [N [O [C [S [_ [Tf _]]]]]]].
  exists inv. repeat split; auto.
  unfold Orderly, pendingPrompts in O. rewrite S in O. exact O.
Qed.

Lemma failure_is_absorbed_all_fail :
  exists inv,
    nth_error (runs (drain 10 0 allFail 0 (step (showing tenScenes) GenerateAllImages))) 0
    = Some inv
    /\ status (batch inv) = Completed
    /\ failureCount (tally (batch inv)) = 10%nat.
Proof.
  destruct failure_is_absorbed as [_ [_ [_ [_ [_ [_ H]]]]]].
  destruct (H (showing tenScenes) allFail ltac:(discriminate))
    as [inv [N [C [_ F]]]].
  exists inv. repeat split; auto.
Defined.

(* ----------------------------------------------------------------- *)
(** ** Plan generation that fails *)

Lemma sceneOnly_keepsPlan (l : list Effect) :
  forallb sceneOnly l = true -> forallb keepsPlan l = true.
Proof.
  induction l as [|e r IH]; simpl; auto.
  intro H. apply andb_true_iff in H. destruct H as [He Hr].
  rewrite (IH Hr). destruct e; try discriminate; reflexivity.
Qed.

Lemma memberSettles_keepsPlan (k : nat) (r : Settlement) (b : Batch) :
  forallb keepsPlan (snd (memberSettles k r b)) = true.
Proof.
  unfold memberSettles. destruct (nth_error (awaited b) k) as [p|]; auto.
  rewrite memberResume_spec. cbv zeta.
  pose proof (sceneOnly_keepsPlan _ (settle_sceneOnly (p, r))) as S.
  destruct (status b); auto.
  destruct (removeNth k (awaited b)) as [|x xs]; auto.
  rewrite enterLoop_spec. destruct (_ <? _); cbn [snd].
  - rewrite forallb_app, S. apply sceneOnly_keepsPlan, launch_sceneOnly.
  - rewrite forallb_app, S. reflexivity.
Qed.

Lemma keepsPlan_nil (out : list Effect) (a : App) :
  forallb keepsPlan out = true -> prompts a = [] ->
  prompts (applyEffects out a) = [].
Proof.
  intros K H. rewrite applyEffects_prompts, H. clear H.
  induction out as [|e r IH]; simpl; auto.
  simpl in K. apply andb_true_iff in K. destruct K as [Ke Kr].
  destruct e; try discriminate; simpl; auto.
Qed.

Lemma step_prompts_nil (a : App) (act : Action) :
  prompts a = [] -> prompts (step a act) = [].
Proof.
  intro H. destruct act; simpl.
  - rewrite H. simpl. exact H.
  - unfold handleGenerateImage. rewrite H. simpl. exact H.
  - destruct (nth_error (runs a) run) as [inv|]; auto.
    apply keepsPlan_nil; auto. apply memberSettles_keepsPlan.
  - destruct (nth_error (calls a) k) as [p|]; auto.
    rewrite callResume_spec. apply keepsPlan_nil; auto.
    destruct r; reflexivity.
  - exact H.
  - destruct (nth_error (timeouts a) k); auto.
Qed.

Lemma session_prompts_nil (acts : list Action) (a : App) :
  prompts a = [] -> prompts (session acts a) = [].
Proof.
  revert a. induction acts as [|act rest IH]; intros a H; simpl; auto.
  apply IH, step_prompts_nil, H.
Qed.

(** C10: plan generation empties the scene sequence before the call to
    the text service is made; whatever the image handlers do in between,
    the sequence stays empty, and when the call delivers no text or a text
    that does not parse, the handler posts the error toast, clears
    [isBuilding] and leaves the sequence empty: the former plan and its
    images are gone. *)
Theorem failed_plan_leaves_no_scenes
    (JSON_parse : string -> Exception + list ScenePrompt)
    (a : App) (acts : list Action) (reply : Reply) :
  (reply = Response None \/ reply = Response (Some "")
   \/ exists text e, reply = Response (Some text) /\ JSON_parse text = inl e) ->
  prompts (buildPromptsBegin a) = []
  /\ prompts (session acts (buildPromptsBegin a)) = []
  /\ prompts (buildPromptsEnd JSON_parse reply (session acts (buildPromptsBegin a))) = []
  /\ isBuilding (buildPromptsEnd JSON_parse reply (session acts (buildPromptsBegin a)))
     = false
  /\ exists message,
       toasts (buildPromptsEnd JSON_parse reply (session acts (buildPromptsBegin a)))
       = toasts (session acts (buildPromptsBegin a))
         ++ [ {| ToastMessage.id := random (session acts (buildPromptsBegin a));
                 ToastMessage.type := error;
                 ToastMessage.title := "Generation Failed";
                 ToastMessage.message := message;
                 ToastMessage.persistent := None |} ].
Proof.
  intro H.
  assert (B : prompts (buildPromptsBegin a) = []) by reflexivity.
  pose proof (session_prompts_nil acts _ B) as S.
  set (s := session acts (buildPromptsBegin a)) in *.
  assert (F : exists e,
            buildPromptsResume JSON_parse reply tt
            = ([ConsoleError e;
                AddToast error "Generation Failed" (errorMessage e) None;
                SetIsBuilding false], tt, Normal tt)).
  { destruct H as [H|[H|[text [e [H P]]]]]; subst reply.
    - eexists. reflexivity.
    - eexists. reflexivity.
    - destruct text as [|c r].
      + eexists. reflexivity.
      + exists e. unfold buildPromptsResume, tryFinally, tryCatch, bind, ret.
        cbn [truthy orEmpty]. rewrite P. reflexivity. }
  destruct F as [e F]. unfold buildPromptsEnd. rewrite F.
  repeat split; auto.
  exists (errorMessage e). reflexivity.
Qed.

Lemma failed_plan_leaves_no_scenes_sample :
  prompts (buildPromptsEnd rejectingParser (Response (Some "[{"))
             (session [GenerateAllImages] (buildPromptsBegin (showing tenScenes))))
  = [].
Proof.
  refine (proj1 (proj2 (proj2
    (failed_plan_leaves_no_scenes rejectingParser (showing tenScenes)
       [GenerateAllImages] (Response (Some "[{")) _)))).
  right. right. exists "[{", (Error "Unexpected token"). split; reflexivity.
Defined.

(* ----------------------------------------------------------------- *)
(** ** One batch at a time *)

Lemma settle_cases (b : Batch) (k : nat) (r : Settlement) (p : ScenePrompt) :
  nth_error (awaited b) k = Some p -> status b = Waiting ->
  (status (fst (memberSettles k r b)) = Waiting
   /\ forallb sceneOnly (snd (memberSettles k r b)) = true)
  \/ (status (fst (memberSettles k r b)) = Completed
      /\ exists body t,
           forallb sceneOnly body = true
           /\ snd (memberSettles k r b)
              = body ++ [SetIsBatchGenerating false; batchToast t]).
Proof.
  intros N W. rewrite (memberSettles_spec k r b p N W). cbv zeta.
  destruct (removeNth k (awaited b)) as [|x xs].
  - rewrite enterLoop_spec. destruct (_ <? _); cbn [fst snd status].
    + left. split; auto.
      now rewrite forallb_app, settle_sceneOnly, launch_sceneOnly.
    + right. split; auto. eexists. eexists. split; [|reflexivity].
      apply settle_sceneOnly.
  - left. split; auto. apply settle_sceneOnly.
Qed.

Lemma sceneOnly_flag (out : list Effect) (a : App) :
  forallb sceneOnly out = true ->
  isBatchGenerating (applyEffects out a) = isBatchGenerating a.
Proof. intro H. now rewrite (sceneOnly_apply _ _ H). Qed.

Lemma replaceNth_count {A} (f : A -> bool) (k : nat) (x y : A) (l : list A) :
  nth_error l k = Some y ->
  (List.length (filter f (replaceNth k x l)) + (if f y then 1 else 0)
   = List.length (filter f l) + (if f x then 1 else 0))%nat.
Proof.
  revert l. induction k as [|k IH]; intros [|z r] H; simpl in *; try discriminate.
  - inversion H; subst. destruct (f x), (f y); simpl; lia.
  - specialize (IH r H). destruct (f z); simpl; lia.
Qed.

Lemma record_unchanged (inv : Invocation) :
  record (log inv) (batch inv, []) = inv.
Proof. unfold record. simpl. rewrite app_nil_r. destruct inv; reflexivity. Qed.

Lemma replaceNth_same {A} (k : nat) (x : A) (l : list A) :
  nth_error l k = Some x -> replaceNth k x l = l.
Proof.
  revert l. induction k as [|k IH]; intros [|z r] H; simpl in *; try discriminate.
  - inversion H; reflexivity.
  - now rewrite (IH r H).
Qed.

(** The number of invocations that are waiting agrees with the flag. *)
Lemma page_step (a : App) (act : Action) :
  Forall Orderly (runs a) ->
  List.length (filter isWaiting (runs a))
    = (if isBatchGenerating a then 1 else 0)%nat ->
  offered a act = true ->
  List.length (filter isWaiting (runs (step a act)))
    = (if isBatchGenerating (step a act) then 1 else 0)%nat.
Proof.
  intros F J Off. destruct act.
  - (* the batch button *)
    simpl in Off. apply andb_true_iff in Off. destruct Off as [Ne Fl].
    apply negb_true_iff in Fl. rewrite Fl in J.
    simpl step. pose proof (handleGenerateAllImages_spec (prompts a)) as H.
    destruct (prompts a) as [|p ps] eqn:Ep; [discriminate|].
    set (res := handleGenerateAllImages (p :: ps)) in *.
    rewrite applyEffects_runs. simpl runs.
    rewrite filter_app, length_app, J.
    destruct (0 <? _) in H; rewrite H; cbn [fst snd].
    + change (SetIsBatchGenerating true :: ?l) with ([SetIsBatchGenerating true] ++ l).
      rewrite applyEffects_app, (sceneOnly_flag _ _ (launch_sceneOnly _)).
      reflexivity.
    + reflexivity.
  - (* a card button *)
    simpl step. destruct (handleGenerateImage id (prompts a)) as [[p out]|] eqn:E; auto.
    unfold handleGenerateImage in E. destruct (findPrompt id (prompts a)); [|discriminate].
    inversion E; subst. rewrite applyEffects_runs. exact J.
  - (* a call of a batch settles *)
    destruct (nth_error (runs a) run) as [inv|] eqn:N.
    2:{ simpl. rewrite N. exact J. }
    rewrite (step_member a run k r inv N), applyEffects_runs. simpl runs.
    assert (O : Orderly inv).
    { rewrite Forall_forall in F. apply F. eapply nth_error_In; eauto. }
    destruct (nth_error (awaited (batch inv)) k) as [p|] eqn:Na.
    2:{ rewrite (memberSettles_none _ _ _ Na), record_unchanged.
        rewrite (replaceNth_same _ _ _ N). exact J. }
    destruct (status (batch inv)) eqn:W.
    + unfold Orderly, InOrder in O. rewrite W in O. destruct O as [_ [A _]].
      rewrite A in Na. destruct k; discriminate.
    + pose proof (replaceNth_count isWaiting run
                    (record (log inv) (memberSettles k r (batch inv))) inv
                    (runs a) N) as C.
      assert (Wi : isWaiting inv = true) by (unfold isWaiting; now rewrite W).
      rewrite Wi in C.
      assert (Fl : isBatchGenerating a = true).
      { destruct (isBatchGenerating a); auto.
        assert (In inv (filter isWaiting (runs a))).
        { apply filter_In. split; auto. eapply nth_error_In; eauto. }
        destruct (filter isWaiting (runs a)); [contradiction|discriminate]. }
      rewrite Fl in J.
      destruct (settle_cases (batch inv) k r p Na W) as [[W' Q]|[C' [body [t [Q E]]]]].
      * assert (Wn : isWaiting (record (log inv) (memberSettles k r (batch inv)))
                     = true)
          by (unfold isWaiting, record; cbn [batch]; now rewrite W').
        rewrite Wn in C.
        rewrite (sceneOnly_flag _ _ Q). simpl. rewrite Fl. lia.
      * assert (Wn : isWaiting (record (log inv) (memberSettles k r (batch inv)))
                     = false)
          by (unfold isWaiting, record; cbn [batch]; now rewrite C').
        rewrite Wn in C.
        rewrite E, applyEffects_app, (sceneOnly_apply _ _ Q). simpl. lia.
    + unfold Orderly, InOrder in O. rewrite W in O.
      destruct O as [done [_ [_ [A _]]]].
      rewrite A in Na. destruct k; discriminate.
    + unfold Orderly, InOrder in O. rewrite W in O. contradiction.
  - (* a single call settles *)
    simpl step. destruct (nth_error (calls a) k) as [p|]; auto.
    rewrite callResume_spec, applyEffects_runs. simpl runs.
    destruct r; exact J.
  - exact J.
  - simpl step. destruct (nth_error (timeouts a) k); exact J.
Qed.

Lemma page_session (acts : list Action) (a : App) :
  Forall Orderly (runs a) ->
  List.length (filter isWaiting (runs a))
    = (if isBatchGenerating a then 1 else 0)%nat ->
  throughPage acts a = true ->
  List.length (filter isWaiting (runs (session acts a)))
    = (if isBatchGenerating (session acts a) then 1 else 0)%nat.
Proof.
  revert a. induction acts as [|act rest IH]; intros a F J T; simpl; auto.
  simpl in T. apply andb_true_iff in T. destruct T as [Off T].
  apply IH; auto.
  - apply step_orderly, F.
  - apply page_step; auto.
Qed.

(** C4 (as amended): the handler does not look at the flag; what keeps a
    second batch from starting is the page, which offers the batch button
    only while the flag is clear (and there are prompts).  In a session
    driven through the page at most one invocation is waiting at any time,
    the flag is set exactly while one is, and the button is not offered
    then.  In every session, an invocation that passed the guard sets the
    flag before it does anything else, keeps it set while it waits, and
    clears it after its last call has settled, immediately before it posts
    the toast. *)
Theorem one_batch_through_page :
  (forall plan acts,
      throughPage acts (showing plan) = true ->
      (List.length (filter isWaiting (runs (session acts (showing plan)))) <= 1)%nat
      /\ (isBatchGenerating (session acts (showing plan)) = true
          <-> exists inv, In inv (runs (session acts (showing plan)))
                          /\ status (batch inv) = Waiting)
      /\ ((exists inv, In inv (runs (session acts (showing plan)))
                       /\ status (batch inv) = Waiting) ->
          offered (session acts (showing plan)) GenerateAllImages = false))
  /\ (forall plan acts inv,
        In inv (runs (session acts (showing plan))) ->
        (status (batch inv) = Waiting ->
         exists body, log inv = SetIsBatchGenerating true :: body
                      /\ forallb sceneOnly body = true)
        /\ (status (batch inv) = Completed ->
            exists body, log inv = SetIsBatchGenerating true :: body
                           ++ [SetIsBatchGenerating false;
                               batchToast (tally (batch inv))]
                         /\ forallb sceneOnly body = true
                         /\ settledIn body = requested body)).
Proof.
  split.
  - intros plan acts T.
    pose proof (page_session acts (showing plan) (Forall_nil _) eq_refl T) as J.
    set (a := session acts (showing plan)) in *.
    assert (Iff : isBatchGenerating a = true
                  <-> exists inv, In inv (runs a) /\ status (batch inv) = Waiting).
    { split.
      - intro Fl. rewrite Fl in J.
        destruct (filter isWaiting (runs a)) as [|inv l] eqn:E; [discriminate|].
        exists inv. assert (In inv (filter isWaiting (runs a))) by (rewrite E; now left).
        apply filter_In in H. destruct H as [Hin Hw]. split; auto.
        unfold isWaiting in Hw. destruct (status (batch inv)); auto; discriminate.
      - intros [inv [Hin W]]. destruct (isBatchGenerating a); auto.
        assert (In inv (filter isWaiting (runs a))).
        { apply filter_In. split; auto. unfold isWaiting. now rewrite W. }
        destruct (filter isWaiting (runs a)); [contradiction|discriminate]. }
    split; [|split].
    + rewrite J. destruct (isBatchGenerating a); lia.
    + exact Iff.
    + intro E. apply Iff in E. simpl. rewrite E. apply andb_false_r.
  - intros plan acts inv Hin.
    pose proof (in_session_orderly plan acts inv Hin) as O.
    unfold Orderly, InOrder in O. split; intro W; rewrite W in O.
    + destruct O as [done [group [rest [settled [_ [_ [_ [_ [_ [L _]]]]]]]]]].
      eexists. split; [exact L|].
      now rewrite !forallb_app, rounds_sceneOnly, launch_sceneOnly, settled_sceneOnly.
    + destruct O as [done [_ [F [_ [_ [L _]]]]]].
      eexists. split; [exact L|]. split; [apply rounds_sceneOnly|].
      destruct (round_counts done F) as [R _]. now rewrite R.
Qed.

Lemma one_batch_through_page_sample :
  (List.length (filter isWaiting
      (runs (session [GenerateAllImages] (showing [scene 1])))) <= 1)%nat
  /\ offered (session [GenerateAllImages] (showing [scene 1])) GenerateAllImages
     = false.
Proof.
  destruct (proj1 one_batch_through_page [scene 1] [GenerateAllImages] eq_refl)
    as [A [B C]].
  split; [exact A|]. apply C, B. reflexivity.
Defined.

(** C4 (as stated) fails: invoked while a batch is waiting for its call,
    the handler starts a second batch with a call of its own; when the
    first batch ends it clears the flag although the second still waits. *)
Lemma second_invocation_starts_second_batch :
  isBatchGenerating (session [GenerateAllImages] (showing [scene 1])) = true
  /\ map (fun inv => (status (batch inv), requested (log inv)))
       (runs (session [GenerateAllImages; GenerateAllImages] (showing [scene 1])))
     = [(Waiting, 1%nat); (Waiting, 1%nat)]
  /\ map (fun inv => status (batch inv))
       (runs (session [GenerateAllImages; GenerateAllImages;
                       MemberSettles 0 0 (Resolved "data:image/png;base64,AAAA")]
                (showing [scene 1])))
     = [Completed; Waiting]
  /\ isBatchGenerating
       (session [GenerateAllImages; GenerateAllImages;
                 MemberSettles 0 0 (Resolved "data:image/png;base64,AAAA")]
          (showing [scene 1])) = false.
Proof. repeat split. Qed.

(* ----------------------------------------------------------------- *)
(** ** Image and generation state *)

(** C5 (as stated) fails: a scene gets its image, is regenerated, and the
    regeneration fails; the record then has its image and is Failed. *)
Lemma failed_regeneration_keeps_image :
  throughPage
    [GenerateImage 1; CallSettles 0 (Resolved "data:image/png;base64,AAAA");
     GenerateImage 1; CallSettles 0 (Rejected (Error "503"))]
    (showing [scene 1]) = true
  /\ map (fun p => (hasImage p, generationState p))
       (prompts (session
          [GenerateImage 1; CallSettles 0 (Resolved "data:image/png;base64,AAAA");
           GenerateImage 1; CallSettles 0 (Rejected (Error "503"))]
          (showing [scene 1])))
     = [(true, Failed)].
Proof. split; reflexivity. Qed.

Lemma setLoading_spec (id : Z) (q : ScenePrompt) :
  ScenePrompt.id (setLoading id q) = ScenePrompt.id q
  /\ ScenePrompt.generatedImageUrl (setLoading id q) = ScenePrompt.generatedImageUrl q
  /\ (ScenePrompt.id q = id ->
      ScenePrompt.isLoading (setLoading id q) = Some true
      /\ ScenePrompt.generationFailed (setLoading id q) = Some false)
  /\ (ScenePrompt.id q <> id -> setLoading id q = q).
Proof.
  unfold setLoading. destruct (Z.eqb_spec (ScenePrompt.id q) id) as [E|E].
  - split; [reflexivity|]. split; [reflexivity|].
    split; [intros _; split; reflexivity|intro N; contradiction].
  - split; [reflexivity|]. split; [reflexivity|].
    split; [intro N; contradiction|reflexivity].
Qed.

Lemma setImage_spec (id : Z) (u : string) (q : ScenePrompt) :
  ScenePrompt.id (setImage id u q) = ScenePrompt.id q
  /\ (ScenePrompt.id q = id ->
      ScenePrompt.isLoading (setImage id u q) = Some false
      /\ ScenePrompt.generationFailed (setImage id u q)
         = ScenePrompt.generationFailed q)
  /\ (ScenePrompt.id q <> id -> setImage id u q = q).
Proof.
  unfold setImage. destruct (Z.eqb_spec (ScenePrompt.id q) id) as [E|E].
  - split; [reflexivity|].
    split; [intros _; split; reflexivity|intro N; contradiction].
  - split; [reflexivity|].
    split; [intro N; contradiction|reflexivity].
Qed.

Lemma setFailed_spec (id : Z) (q : ScenePrompt) :
  ScenePrompt.id (setFailed id q) = ScenePrompt.id q
  /\ ScenePrompt.generatedImageUrl (setFailed id q) = ScenePrompt.generatedImageUrl q
  /\ (ScenePrompt.id q = id ->
      ScenePrompt.isLoading (setFailed id q) = Some false
      /\ ScenePrompt.generationFailed (setFailed id q) = Some true)
  /\ (ScenePrompt.id q <> id -> setFailed id q = q).
Proof.
  unfold setFailed. destruct (Z.eqb_spec (ScenePrompt.id q) id) as [E|E].
  - split; [reflexivity|]. split; [reflexivity|].
    split; [intros _; split; reflexivity|intro N; contradiction].
  - split; [reflexivity|]. split; [reflexivity|].
    split; [intro N; contradiction|reflexivity].
Qed.

Lemma loadAll_spec (started : list ScenePrompt) (q : ScenePrompt) :
  ScenePrompt.id (loadAll started q) = ScenePrompt.id q
  /\ ScenePrompt.generatedImageUrl (loadAll started q)
     = ScenePrompt.generatedImageUrl q
  /\ (In (ScenePrompt.id q) (map ScenePrompt.id started) ->
      ScenePrompt.isLoading (loadAll started q) = Some true
      /\ ScenePrompt.generationFailed (loadAll started q) = Some false)
  /\ (~ In (ScenePrompt.id q) (map ScenePrompt.id started) -> loadAll started q = q).
Proof.
  unfold loadAll. revert q. induction started as [|s r IH]; intro q; simpl.
  - split; [reflexivity|]. split; [reflexivity|].
    split; [intro H; contradiction|reflexivity].
  - destruct (setLoading_spec (ScenePrompt.id s) q) as [I [G [Y N]]].
    destruct (IH (setLoading (ScenePrompt.id s) q)) as [I' [G' [Y' N']]].
    rewrite I in *.
    split; [congruence|]. split; [congruence|]. split.
    + intro H.
      destruct (in_dec Z.eq_dec (ScenePrompt.id q) (map ScenePrompt.id r)) as [Hr|Hr].
      * apply Y', Hr.
      * rewrite (N' Hr). destruct H as [H|H]; [|contradiction]. apply Y. auto.
    + intro H. rewrite N'.
      * apply N. intro E. apply H. left. auto.
      * intro Hr. apply H. right. exact Hr.
Qed.

Lemma launch_fold (group ps : list ScenePrompt) :
  fold_left rewritePrompts (launchEffects group) ps = map (loadAll group) ps.
Proof.
  revert ps. induction group as [|s r IH]; intro ps; simpl.
  - unfold loadAll. simpl. now rewrite map_id.
  - rewrite IH, map_map. reflexivity.
Qed.

Lemma settle_fold (s : ScenePrompt * Settlement) (ps : list ScenePrompt) :
  fold_left rewritePrompts (settleEffect s) ps = map (settleOne s) ps.
Proof. destruct s as [p [u|e]]; reflexivity. Qed.

Lemma loadAll_none (ps : list ScenePrompt) : map (loadAll []) ps = ps.
Proof. unfold loadAll. simpl. apply map_id. Qed.

Lemma nth_split {A} (k : nat) (l : list A) (y : A) :
  nth_error l k = Some y ->
  exists l1 l2,
    l = l1 ++ y :: l2
    /\ (forall x, replaceNth k x l = l1 ++ x :: l2)
    /\ removeNth k l = l1 ++ l2.
Proof.
  revert l. induction k as [|k IH]; intros [|z r] H; simpl in *; try discriminate.
  - inversion H; subst. exists [], r. repeat split.
  - destruct (IH r H) as [l1 [l2 [E [R D]]]].
    exists (z :: l1), l2. simpl. repeat split.
    + now rewrite E.
    + intro x. now rewrite R.
    + now rewrite D.
Qed.

Lemma outstanding_runs (a : App) (l1 l2 : list Invocation) (inv : Invocation) :
  runs a = l1 ++ inv :: l2 ->
  outstanding a
  = map ScenePrompt.id (calls a)
    ++ flat_map (fun inv => map ScenePrompt.id (awaited (batch inv))) l1
    ++ map ScenePrompt.id (awaited (batch inv))
    ++ flat_map (fun inv => map ScenePrompt.id (awaited (batch inv))) l2.
Proof. intro E. unfold outstanding. rewrite E, flat_map_app. reflexivity. Qed.

Lemma perm_pull {A} (x : A) (c f1 w f2 : list A) :
  Permutation (c ++ f1 ++ (x :: w) ++ f2) (x :: (c ++ f1 ++ w ++ f2)).
Proof.
  symmetry.
  replace (c ++ f1 ++ (x :: w) ++ f2) with ((c ++ f1) ++ x :: (w ++ f2))
    by (rewrite <- app_assoc; reflexivity).
  replace (c ++ f1 ++ w ++ f2) with ((c ++ f1) ++ (w ++ f2))
    by (rewrite <- app_assoc; reflexivity).
  apply Permutation_middle.
Qed.

Lemma perm_push {A} (c f1 w s f2 : list A) :
  Permutation (c ++ f1 ++ (w ++ s) ++ f2) ((c ++ f1 ++ w ++ f2) ++ s).
Proof.
  rewrite <- !app_assoc.
  do 3 apply Permutation_app_head. apply Permutation_app_comm.
Qed.

Lemma settled_member_shape (a : App) (run k : nat) (r : Settlement)
    (inv : Invocation) (p : ScenePrompt) :
  nth_error (runs a) run = Some inv ->
  nth_error (awaited (batch inv)) k = Some p ->
  status (batch inv) = Waiting ->
  let res := memberSettles k r (batch inv) in
  let started := if i (fst res) =? i (batch inv) then [] else awaited (fst res) in
  fold_left rewritePrompts (snd res) (prompts a)
  = map (fun q => loadAll started (settleOne (p, r) q)) (prompts a)
  /\ awaited (fst res) = removeNth k (awaited (batch inv)) ++ started.
Proof.
  intros N Na W. cbv zeta.
  rewrite (memberSettles_spec k r (batch inv) p Na W). cbv zeta.
  destruct (removeNth k (awaited (batch inv))) as [|x xs] eqn:R.
  - rewrite enterLoop_spec.
    assert (Ne : (i (batch inv) + MAX_CONCURRENT_GENERATIONS =? i (batch inv)) = false)
      by (apply Z.eqb_neq; unfold MAX_CONCURRENT_GENERATIONS; lia).
    destruct (_ <? _); cbn [fst snd i awaited]; rewrite Ne.
    + split; auto.
      rewrite fold_left_app, settle_fold, launch_fold, map_map. reflexivity.
    + split; auto.
      rewrite fold_left_app, settle_fold. simpl.
      apply map_ext. intro q. reflexivity.
  - cbn [fst snd i awaited]. rewrite Z.eqb_refl, app_nil_r. split; auto.
    rewrite settle_fold. apply map_ext. intro q. reflexivity.
Qed.

Lemma step_shape (a : App) (act : Action) :
  Forall Orderly (runs a) ->
  prompts (step a act)
  = map (fun q => loadAll (startedBy a act)
                    (match settledBy a act with
                     | Some s => settleOne s q
                     | None => q
                     end)) (prompts a)
  /\ exists rest,
       Permutation (outstanding a)
         (match settledBy a act with
          | Some s => [ScenePrompt.id (fst s)]
          | None => []
          end ++ rest)
       /\ Permutation (outstanding (step a act))
            (rest ++ map ScenePrompt.id (startedBy a act)).
Proof.
  intro F. destruct act.
  - (* handleGenerateAllImages *)
    cbn [startedBy settledBy]. simpl step.
    set (res := handleGenerateAllImages (prompts a)).
    split.
    + rewrite applyEffects_prompts. simpl prompts. unfold res.
      rewrite handleGenerateAllImages_spec.
      destruct (prompts a) as [|p ps]; [reflexivity|].
      destruct (_ <? _); cbn [fst snd awaited].
      * simpl fold_left. apply launch_fold.
      * unfold batchToast. cbn [fold_left rewritePrompts].
        symmetry. apply loadAll_none.
    + exists (outstanding a). split; [reflexivity|].
      unfold outstanding. rewrite applyEffects_runs, applyEffects_calls.
      simpl. rewrite flat_map_app. simpl. rewrite app_nil_r, app_assoc.
      reflexivity.
  - (* handleGenerateImage *)
    cbn [startedBy settledBy]. simpl step. unfold handleGenerateImage.
    destruct (findPrompt id (prompts a)) as [p|].
    + split.
      * rewrite applyEffects_prompts. simpl prompts.
        exact (launch_fold [p] (prompts a)).
      * exists (outstanding a). split; [reflexivity|].
        unfold outstanding. rewrite applyEffects_runs, applyEffects_calls.
        simpl. rewrite map_app. simpl. rewrite <- !app_assoc.
        apply Permutation_app_head. apply Permutation_app_comm.
    + split; [symmetry; apply loadAll_none|].
      exists (outstanding a). simpl. rewrite app_nil_r. split; reflexivity.
  - (* a call of a batch settles *)
    cbn [startedBy settledBy].
    destruct (nth_error (runs a) run) as [inv|] eqn:N.
    2:{ simpl step. rewrite N. split; [symmetry; apply loadAll_none|].
        exists (outstanding a). simpl. rewrite app_nil_r. split; reflexivity. }
    rewrite (step_member a run k r inv N).
    destruct (nth_error (awaited (batch inv)) k) as [p|] eqn:Na.
    2:{ rewrite (memberSettles_none _ _ _ Na), record_unchanged.
        rewrite (replaceNth_same _ _ _ N). cbn [fst snd]. rewrite Z.eqb_refl.
        split.
        - rewrite applyEffects_prompts. simpl. symmetry. apply loadAll_none.
        - exists (outstanding a). simpl. rewrite app_nil_r.
          unfold applyEffects. simpl. split; [reflexivity|].
          destruct a; reflexivity. }
    assert (O : Orderly inv).
    { rewrite Forall_forall in F. apply F. eapply nth_error_In; eauto. }
    assert (W : status (batch inv) = Waiting).
    { unfold Orderly, InOrder in O. destruct (status (batch inv)); auto.
      - destruct O as [_ [A _]]. rewrite A in Na. destruct k; discriminate.
      - destruct O as [done [_ [_ [A _]]]]. rewrite A in Na.
        destruct k; discriminate.
      - contradiction. }
    destruct (settled_member_shape a run k r inv p N Na W) as [Pr Aw].
    cbv zeta in Pr, Aw.
    set (res := memberSettles k r (batch inv)) in *.
    set (started := if i (fst res) =? i (batch inv) then [] else awaited (fst res)) in *.
    split.
    + rewrite applyEffects_prompts. simpl prompts. exact Pr.
    + destruct (nth_split run (runs a) inv N) as [l1 [l2 [E [Rp _]]]].
      destruct (nth_split k (awaited (batch inv)) p Na) as [w1 [w2 [Ew [_ Rm]]]].
      exists (map ScenePrompt.id (calls a)
              ++ flat_map (fun inv => map ScenePrompt.id (awaited (batch inv))) l1
              ++ map ScenePrompt.id (w1 ++ w2)
              ++ flat_map (fun inv => map ScenePrompt.id (awaited (batch inv))) l2).
      split.
      * rewrite (outstanding_runs a l1 l2 inv E). cbn [fst app].
        etransitivity; [|apply perm_pull].
        do 2 apply Permutation_app_head. apply Permutation_app_tail.
        rewrite Ew, !map_app. simpl. symmetry. apply Permutation_middle.
      * unfold outstanding. rewrite applyEffects_runs, applyEffects_calls.
        simpl runs. simpl calls. rewrite Rp, flat_map_app. simpl flat_map.
        rewrite Aw, Rm, (map_app _ (w1 ++ w2) started).
        apply perm_push.
  - (* a single call settles *)
    cbn [startedBy settledBy]. simpl step.
    destruct (nth_error (calls a) k) as [p|] eqn:N.
    + rewrite callResume_spec. split.
      * rewrite applyEffects_prompts. simpl prompts.
        destruct r; reflexivity.
      * destruct (nth_split k (calls a) p N) as [c1 [c2 [E [_ Rm]]]].
        exists (map ScenePrompt.id (c1 ++ c2)
                ++ flat_map (fun inv => map ScenePrompt.id (awaited (batch inv)))
                     (runs a)).
        split.
        -- unfold outstanding. rewrite E, !map_app. simpl.
           rewrite <- !app_assoc. simpl. symmetry. apply Permutation_middle.
        -- unfold outstanding. rewrite applyEffects_runs, applyEffects_calls.
           simpl. rewrite Rm, app_nil_r. reflexivity.
    + split; [symmetry; apply loadAll_none|].
      exists (outstanding a). simpl. rewrite app_nil_r. split; reflexivity.
  - (* removeToast *)
    cbn [startedBy settledBy]. split; [symmetry; apply loadAll_none|].
    exists (outstanding a). simpl. rewrite app_nil_r. split; reflexivity.
  - (* a timeout *)
    cbn [startedBy settledBy]. simpl step.
    destruct (nth_error (timeouts a) k);
      (split; [symmetry; apply loadAll_none|];
       exists (outstanding a); simpl; rewrite app_nil_r; split; reflexivity).
Qed.

Lemma settled_record (o : option (ScenePrompt * Settlement)) (q : ScenePrompt) :
  ScenePrompt.id (match o with Some s => settleOne s q | None => q end)
    = ScenePrompt.id q
  /\ (~ In (ScenePrompt.id q)
         (match o with Some s => [ScenePrompt.id (fst s)] | None => [] end) ->
      match o with Some s => settleOne s q | None => q end = q)
  /\ (In (ScenePrompt.id q)
        (match o with Some s => [ScenePrompt.id (fst s)] | None => [] end) ->
      ScenePrompt.isLoading (match o with Some s => settleOne s q | None => q end)
        = Some false
      /\ (ScenePrompt.generationFailed
            (match o with Some s => settleOne s q | None => q end)
          = ScenePrompt.generationFailed q
          \/ (ScenePrompt.generationFailed
                (match o with Some s => settleOne s q | None => q end) = Some true
              /\ ScenePrompt.generatedImageUrl
                   (match o with Some s => settleOne s q | None => q end)
                 = ScenePrompt.generatedImageUrl q))).
Proof.
  destruct o as [[p [u|e]]|]; unfold settleOne; cbn [fst snd].
  - destruct (setImage_spec (ScenePrompt.id p) u q) as [I [Y N]].
    split; [exact I|]. split.
    + intro H. apply N. intro E. apply H. left. auto.
    + intros [H|[]]. destruct (Y (eq_sym H)) as [L G]. split; auto.
  - destruct (setFailed_spec (ScenePrompt.id p) q) as [I [G [Y N]]].
    split; [exact I|]. split.
    + intro H. apply N. intro E. apply H. left. auto.
    + intros [H|[]]. destruct (Y (eq_sym H)) as [L G']. split; auto.
  - split; [reflexivity|]. split; [reflexivity|]. intros [].
Qed.

Lemma careful_step (a : App) (act : Action) :
  Forall Orderly (runs a) -> Consistent a -> careful a act ->
  Consistent (step a act).
Proof.
  intros F [ND K] [NDs Cs].
  destruct (step_shape a act F) as [Pr [rest [P1 P2]]].
  set (started := startedBy a act) in *.
  set (o := settledBy a act) in *.
  set (sid := match o with Some s => [ScenePrompt.id (fst s)] | None => [] end) in *.
  assert (NDr : NoDup (sid ++ rest)) by (eapply Permutation_NoDup; eauto).
  assert (Out : forall x, In x (outstanding a) <-> In x sid \/ In x rest).
  { intro x. split; intro H.
    - apply in_app_or. eapply Permutation_in; eauto.
    - eapply Permutation_in; [symmetry; exact P1|]. apply in_or_app. exact H. }
  assert (Out' : forall x, In x (outstanding (step a act))
                           <-> In x rest \/ In x (map ScenePrompt.id started)).
  { intro x. split; intro H.
    - apply in_app_or. eapply Permutation_in; eauto.
    - eapply Permutation_in; [symmetry; exact P2|]. apply in_or_app. exact H. }
  assert (St : forall x, In x (map ScenePrompt.id started) ->
                 ~ In x (outstanding a)).
  { intros x H. apply in_map_iff in H. destruct H as [q [E Hq]]. subst x.
    apply (Cs q Hq). }
  assert (Sep : forall x, In x sid -> ~ In x rest).
  { intros x H Hr. destruct o as [s|]; [|contradiction].
    unfold sid in *. destruct H as [H|[]]. subst x.
    simpl in NDr. apply NoDup_cons_iff in NDr. tauto. }
  split.
  - eapply Permutation_NoDup; [symmetry; exact P2|].
    apply NoDup_app; auto.
    + eapply NoDup_app_remove_l; eauto.
    + intros x Hr Hs. apply (St x Hs). apply Out. right. exact Hr.
  - intros p' Hin. rewrite Pr in Hin. apply in_map_iff in Hin.
    destruct Hin as [q [E Hq]]. subst p'.
    destruct (settled_record o q) as [Is [Ns Ys]]. fold sid in Ns, Ys.
    set (q1 := match o with Some s => settleOne s q | None => q end) in *.
    destruct (loadAll_spec started q1) as [Il [Gl [Yl Nl]]].
    rewrite Is in Il, Yl, Nl.
    destruct (K q Hq) as [Kin Kout].
    destruct (in_dec Z.eq_dec (ScenePrompt.id q) (map ScenePrompt.id started))
      as [Hs|Hs].
    + (* a call is started for the record *)
      assert (Nout : ~ In (ScenePrompt.id q) (outstanding a)) by (apply St, Hs).
      assert (Nsid : ~ In (ScenePrompt.id q) sid)
        by (intro H; apply Nout, Out; left; exact H).
      assert (Eq1 : q1 = q) by (apply Ns, Nsid).
      destruct (Yl Hs) as [L G].
      assert (Img : hasImage q = false).
      { apply in_map_iff in Hs. destruct Hs as [s [Es Hs]].
        apply (proj2 (Cs s Hs) q Hq). congruence. }
      split.
      * intros _. rewrite L, G. unfold hasImage. rewrite Gl, Eq1.
        repeat split; auto.
      * intro H. exfalso. apply H. rewrite Il. apply Out'. right. exact Hs.
    + (* no call is started for the record *)
      rewrite (Nl Hs).
      destruct (in_dec Z.eq_dec (ScenePrompt.id q) sid) as [Hd|Hd].
      * (* its call settles *)
        assert (Hout : In (ScenePrompt.id q) (outstanding a))
          by (apply Out; left; exact Hd).
        destruct (Kin Hout) as [Lq [Fq Iq]].
        destruct (Ys Hd) as [L G].
        split.
        -- intro H. exfalso. rewrite Is in H. apply Out' in H.
           destruct H as [H|H]; [exact (Sep _ Hd H)|contradiction].
        -- intros _. rewrite L. split; auto.
           intro Im. destruct G as [G|[G G']].
           ++ rewrite G. exact Fq.
           ++ unfold hasImage in Im, Iq. rewrite G' in Im. congruence.
      * (* untouched *)
        rewrite (Ns Hd).
        assert (Same : In (ScenePrompt.id q) (outstanding (step a act))
                       <-> In (ScenePrompt.id q) (outstanding a)).
        { rewrite Out, Out'. tauto. }
        split; intro H.
        -- apply Kin, Same, H.
        -- apply Kout. intro H'. apply H, Same, H'.
Qed.

Lemma consistent_state (a : App) (p : ScenePrompt) :
  Consistent a -> In p (prompts a) ->
  (hasImage p = true <-> generationState p = Succeeded).
Proof.
  intros [_ K] Hin. destruct (K p Hin) as [Kin Kout].
  unfold generationState.
  destruct (in_dec Z.eq_dec (ScenePrompt.id p) (outstanding a)) as [H|H].
  - destruct (Kin H) as [L [_ I]]. rewrite L, I. split; discriminate.
  - destruct (Kout H) as [L G]. rewrite L.
    destruct (hasImage p).
    + rewrite (G eq_refl). split; reflexivity.
    + destruct (istrue (ScenePrompt.generationFailed p)); split; discriminate.
Qed.

Lemma careful_session (acts : list Action) (a : App) :
  Forall Orderly (runs a) -> Consistent a -> carefully acts a ->
  Consistent (session acts a).
Proof.
  revert a. induction acts as [|act rest IH]; intros a F C H; simpl; auto.
  destruct H as [Hc Hr]. apply IH; auto.
  - apply step_orderly, F.
  - apply careful_step; auto.
Qed.

Lemma showing_consistent (plan : list ScenePrompt) :
  Forall isPlanned plan -> Consistent (showing plan).
Proof.
  intro F. split.
  - constructor.
  - intros p Hin. rewrite Forall_forall in F.
    destruct (F p Hin) as [G [L _]]. split.
    + intros [].
    + intros _. rewrite L. unfold hasImage. rewrite G. split; auto. discriminate.
Qed.

(** C5 (as amended): in a session that starts from a fresh plan and in
    which a call is started only for scenes that have no image yet and no
    call outstanding (so no scene is regenerated and no id has two calls
    at a time), every record has its image exactly when its state is
    Succeeded.  Neither the update that sets a record loading nor the one
    that marks it failed touches the image, so outside such sessions a
    record can be Pending or Failed and have an image. *)
Theorem image_iff_succeeded (plan : list ScenePrompt) (acts : list Action)
    (p : ScenePrompt) :
  Forall isPlanned plan ->
  carefully acts (showing plan) ->
  In p (prompts (session acts (showing plan))) ->
  (hasImage p = true <-> generationState p = Succeeded)
  /\ (forall id q,
        ScenePrompt.generatedImageUrl (setLoading id q)
          = ScenePrompt.generatedImageUrl q
        /\ ScenePrompt.generatedImageUrl (setFailed id q)
           = ScenePrompt.generatedImageUrl q).
Proof.
  intros F C Hin. split.
  - apply (consistent_state (session acts (showing plan))); [|exact Hin].
    apply careful_session;
      [constructor|apply showing_consistent, F|exact C].
  - intros id q. split.
    + apply setLoading_spec.
    + apply setFailed_spec.
Qed.

Lemma distinct_sound (l : list Z) : distinct l = true -> NoDup l.
Proof.
  induction l as [|x r IH]; simpl; intro H; constructor.
  - apply andb_true_iff in H. destruct H as [H _].
    apply negb_true_iff in H. intro Hin.
    assert (E : existsb (Z.eqb x) r = true).
    { apply existsb_exists. exists x. split; auto. apply Z.eqb_refl. }
    congruence.
  - apply IH. apply andb_true_iff in H. tauto.
Qed.

Lemma carefulb_sound (a : App) (act : Action) :
  carefulb a act = true -> careful a act.
Proof.
  unfold carefulb, careful. intro H.
  apply andb_true_iff in H. destruct H as [D Fa]. split.
  - apply distinct_sound, D.
  - intros q Hq. rewrite forallb_forall in Fa. specialize (Fa q Hq).
    apply andb_true_iff in Fa. destruct Fa as [No Im]. split.
    + intro Hin. apply negb_true_iff in No.
      assert (E : existsb (Z.eqb (ScenePrompt.id q)) (outstanding a) = true).
      { apply existsb_exists. exists (ScenePrompt.id q). split; auto.
        apply Z.eqb_refl. }
      congruence.
    + intros p Hp E. rewrite forallb_forall in Im. specialize (Im p Hp).
      rewrite E, Z.eqb_refl in Im. simpl in Im.
      now apply negb_true_iff in Im.
Qed.

Lemma carefullyb_sound (acts : list Action) (a : App) :
  carefullyb acts a = true -> carefully acts a.
Proof.
  revert a. induction acts as [|act rest IH]; intros a H; simpl in *; auto.
  apply andb_true_iff in H. destruct H as [H1 H2]. split.
  - apply carefulb_sound, H1.
  - apply IH, H2.
Qed.

Lemma image_iff_succeeded_sample :
  map (fun p => (hasImage p, generationState p))
    (prompts (session oneOfTwoFails (showing twoScenes)))
  = [(true, Succeeded); (false, Failed)]
  /\ (hasImage (nth 0 (prompts (session oneOfTwoFails (showing twoScenes))) (scene 0))
      = true
      <-> generationState
            (nth 0 (prompts (session oneOfTwoFails (showing twoScenes))) (scene 0))
          = Succeeded).
Proof.
  split; [reflexivity|].
  refine (proj1 (image_iff_succeeded twoScenes oneOfTwoFails _ _ _ _)).
  - repeat constructor.
  - apply carefullyb_sound. vm_compute. reflexivity.
  - vm_compute. left. reflexivity.
Defined.

(* ================================================================= *)
(** * Further properties *)

(* ----------------------------------------------------------------- *)
(** ** The scene count asked of the text service *)

(** X1: whenever the build button's predicate [canBuild] holds and the
    seconds of the video, [60 * d], stay below 2^53 (so that the product
    is computed exactly), the scene count that [buildPrompts] puts into
    its request is a number, at least 8, and the least count of
    eight-second scenes that covers the duration: [8 * n] seconds reach
    the [60 * d] seconds of the video and [8 * (n - 1)] do not.  Beyond
    that bound the product is rounded and the count can fall short, as
    for 600479950316067 minutes. *)
Lemma totalScenes_covers (refs : list ImageFile) (name : option string)
    (text : Text) (d : Z) :
  canBuild refs name text (Num d) = true ->
  60 * d < 2 ^ 53 ->
  (exists n,
      totalScenes (Num d) = DNum n
      /\ 8 <= n
      /\ 8 * (n - 1) < 60 * d <= 8 * n)
  /\ totalScenes (Num 600479950316067) = DNum 4503599627370502.
Proof.
  unfold canBuild. intros H B. apply andb_true_iff in H. destruct H as [_ H].
  cbn [positive] in H. apply Z.ltb_lt in H.
  split; [|vm_compute; reflexivity].
  exists (ceilDiv (d * 60) SCENE_DURATION_SECONDS).
  assert (R : roundDouble (d * 60) = DNum (d * 60)).
  { unfold roundDouble. cbv zeta.
    assert (L : (Z.abs (d * 60) <? 2 ^ 53) = true) by (apply Z.ltb_lt; lia).
    now rewrite L. }
  cbn [totalScenes]. rewrite R.
  assert (P : 0 < 8) by lia.
  pose proof (ceilDiv_bounds (d * 60) 8 P) as C. unfold SCENE_DURATION_SECONDS.
  split; [reflexivity|]. lia.
Qed.

Lemma totalScenes_covers_one_minute :
  canBuild threeImages (Some "script.txt") [] (Num 1) = true
  /\ exists n,
       totalScenes (Num 1) = DNum n
       /\ 8 <= n /\ 8 * (n - 1) < 60 * 1 <= 8 * n.
Proof.
  split; [reflexivity|].
  apply (totalScenes_covers threeImages (Some "script.txt") [] 1).
  - reflexivity.
  - reflexivity.
Defined.

(* ----------------------------------------------------------------- *)
(** ** What the word count of a script counts *)

(** X2: the pieces that [text.split(/\s+/)] yields contain no white space,
    and their number, which [handleScriptUpload] takes for the word count,
    is the number of words (non-empty pieces) plus one if the text is
    empty or starts with white space, plus one if it ends with white
    space: a script with a trailing line break counts one word too many,
    and the empty script counts one word. *)
Lemma wordCount_words (text : Text) :
  Forall (Forall (fun c => isWhiteSpace c = false)) (split_ws text)
  /\ Forall (fun word => word <> []) (wordsOf text)
  /\ wordCount text
     = Z.of_nat (List.length (wordsOf text))
       + Z.b2z (headBlank text) + Z.b2z (lastBlank text)
  /\ Z.of_nat (List.length (wordsOf text)) <= wordCount text
     <= Z.of_nat (List.length (wordsOf text)) + 2.
Proof.
  assert (C : wordCount text
              = Z.of_nat (List.length (wordsOf text))
                + Z.b2z (headBlank text) + Z.b2z (lastBlank text)).
  { unfold wordCount, wordsOf, split_ws.
    rewrite (proj1 (splitSpaces_count text)).
    destruct (headBlank text), (lastBlank text); cbn [Nat.b2n Z.b2z]; lia. }
  split; [apply splitSpaces_pieces|]. split; [|split; [exact C|]].
  - unfold wordsOf. apply Forall_forall. intros word H.
    apply filter_In in H. destruct H as [_ H]. now destruct word.
  - rewrite C. destruct (headBlank text), (lastBlank text); cbn [Z.b2z]; lia.
Qed.

(* ----------------------------------------------------------------- *)
(** ** A script and the build button *)

Lemma wordCount_positive (text : Text) : 1 <= ceilDiv (wordCount text) 150.
Proof.
  assert (P : 0 < 150) by lia.
  pose proof (ceilDiv_bounds (wordCount text) 150 P) as B.
  unfold wordCount, split_ws in *. rewrite splitSpaces_length in *. lia.
Qed.

(** X3: once a script file with a non-empty name is loaded and three
    reference images are present, the build button's predicate holds
    whatever the file contains and whatever the scenario field holds, the
    empty file included; the narrative sent is the script unless the
    script is empty, in which case it is the scenario field (so an empty
    script over an empty scenario enables a build with an empty
    narrative).  Removing the script brings the narrative back to the
    scenario field and the predicate back to the test of that field. *)
Lemma script_upload_enables_build (fileName : string) (text : Text) (i : Inputs) :
  fileName <> "" ->
  List.length (referenceImages i) = 3%nat ->
  canBuild (referenceImages (handleScriptUpload fileName text i))
    (scriptFileName (handleScriptUpload fileName text i))
    (scenario (handleScriptUpload fileName text i))
    (duration (handleScriptUpload fileName text i)) = true
  /\ narrative (scriptContent (handleScriptUpload fileName text i))
       (scenario (handleScriptUpload fileName text i))
     = match text with [] => scenario i | _ => text end
  /\ narrative (scriptContent (handleRemoveScript (handleScriptUpload fileName text i)))
       (scenario (handleRemoveScript (handleScriptUpload fileName text i)))
     = scenario i
  /\ canBuild (referenceImages (handleRemoveScript (handleScriptUpload fileName text i)))
       (scriptFileName (handleRemoveScript (handleScriptUpload fileName text i)))
       (scenario (handleRemoveScript (handleScriptUpload fileName text i)))
       (duration (handleRemoveScript (handleScriptUpload fileName text i)))
     = negb (isEmptyText (trim (scenario i))).
Proof.
  intros N L. cbn [handleScriptUpload handleRemoveScript referenceImages
                   scriptFileName scenario duration scriptContent].
  unfold canBuild, MAX_REFERENCE_IMAGES. rewrite L.
  pose proof (wordCount_positive text) as W.
  split; [|split; [|split]].
  - destruct fileName; [congruence|]. cbn [truthy positive orb andb Z.of_nat].
    change (Z.of_nat 3 =? 3) with true. cbn [andb].
    apply Z.ltb_lt. lia.
  - destruct text; reflexivity.
  - reflexivity.
  - change (Z.of_nat 3 =? 3) with true. cbn [truthy positive orb andb].
    change (0 <? 1) with true. now rewrite andb_true_r.
Qed.

Lemma script_upload_enables_build_empty_file :
  canBuild threeImages (Some "script.txt") [] (Num (ceilDiv (wordCount []) 150)) = true
  /\ narrative (Some []) [] = [].
Proof.
  pose proof (script_upload_enables_build "script.txt" []
                {| scenario := []; duration := Num 1; referenceImages := threeImages;
                   scriptFileName := None; scriptContent := None |}) as H.
  cbn [handleScriptUpload handleRemoveScript referenceImages scriptFileName
       scenario duration scriptContent] in H.
  destruct H as [H1 [H2 _]]; [discriminate | reflexivity |].
  split; [exact H1 | exact H2].
Defined.

(* ----------------------------------------------------------------- *)
(** ** Uploads that add nothing *)

Lemma promiseAll_rejects {A} (l : list (option A)) :
  In None l -> promiseAll l = None.
Proof.
  induction l as [|[a|] r IH]; simpl; intro H.
  - contradiction.
  - destruct H as [H|H]; [discriminate|]. now rewrite IH.
  - reflexivity.
Qed.

Lemma slice_keeps_short {A} (l : list A) :
  (List.length l <= 3)%nat -> slice 0 MAX_REFERENCE_IMAGES l = l.
Proof.
  intro H. change MAX_REFERENCE_IMAGES with (Z.of_nat 3).
  rewrite slice_firstn. now apply firstn_all2.
Qed.

(** X4: [handleImageUpload] leaves a store of at most three images as it
    is when the file input delivers no file list, when the store it
    closed over is full (whatever is uploaded, unreadable files included,
    and without a rejection), and when one of the files it takes cannot
    be read, in which case its promise rejects and none of the readable
    files is stored either.  In every case the images already stored keep
    their places: the new store is the old one followed by what was
    added. *)
Lemma upload_edge_cases (snapshot prev : list ImageFile) :
  (List.length prev <= 3)%nat ->
  handleImageUpload None snapshot prev = (prev, false)
  /\ (forall files,
        List.length snapshot = 3%nat ->
        handleImageUpload (Some files) snapshot prev = (prev, false))
  /\ (forall files,
        In None (map toImageFile
                   (slice 0 (MAX_REFERENCE_IMAGES - Z.of_nat (List.length snapshot))
                      files)) ->
        handleImageUpload (Some files) snapshot prev = (prev, true))
  /\ (forall files, exists added,
        fst (handleImageUpload files snapshot prev) = prev ++ added).
Proof.
  intro L. split; [reflexivity|]. split; [|split].
  - intros files F. unfold handleImageUpload. rewrite F.
    change (MAX_REFERENCE_IMAGES - Z.of_nat 3) with (Z.of_nat 0).
    rewrite slice_firstn. cbn [firstn map promiseAll].
    rewrite app_nil_r. now rewrite slice_keeps_short.
  - intros files F. unfold handleImageUpload.
    now rewrite (promiseAll_rejects _ F).
  - intros [files|]; [|exists []; simpl; now rewrite app_nil_r].
    unfold handleImageUpload.
    destruct (promiseAll _) as [processed|]; cbn [fst].
    + exists (firstn (3 - List.length prev) processed).
      change MAX_REFERENCE_IMAGES with (Z.of_nat 3). rewrite slice_firstn.
      rewrite firstn_app. f_equal. now apply firstn_all2.
    + exists []. now rewrite app_nil_r.
Qed.

Lemma upload_edge_cases_full_store :
  handleImageUpload (Some [brokenFile; pngFile "4.png"]) threeImages threeImages
  = (threeImages, false)
  /\ handleImageUpload (Some [pngFile "1.png"; brokenFile]) [] [] = ([], true).
Proof.
  assert (L : (List.length threeImages <= 3)%nat) by (simpl; lia).
  assert (E : (List.length (@nil ImageFile) <= 3)%nat) by (simpl; lia).
  split.
  - apply (proj1 (proj2 (upload_edge_cases threeImages threeImages L))).
    reflexivity.
  - apply (proj1 (proj2 (proj2 (upload_edge_cases [] [] E)))).
    vm_compute. right. left. reflexivity.
Defined.

(* ----------------------------------------------------------------- *)
(** ** The payload of a data URL *)

Lemma splitComma_app (header rest : string) :
  noComma header = true ->
  splitComma (header ++ String "," rest) = header :: splitComma rest.
Proof.
  induction header as [|c r IH]; intro H; [reflexivity|].
  simpl in H. apply andb_true_iff in H. destruct H as [C H].
  apply negb_true_iff in C. cbn [String.append splitComma].
  now rewrite C, IH.
Qed.

Lemma splitComma_whole (s : string) : noComma s = true -> splitComma s = [s].
Proof.
  induction s as [|c r IH]; intro H; [reflexivity|].
  simpl in H. apply andb_true_iff in H. destruct H as [C H].
  apply negb_true_iff in C. cbn [splitComma]. now rewrite C, IH.
Qed.

(** X5: for a data URL made of a header without a comma, a comma and a
    payload without a comma, [dataUrlToBase64] returns the payload; for a
    string without any comma it returns [undefined], and the image record
    that [handleImageUpload] builds from a file read as such a string has
    no [base64] field although the upload succeeds. *)
Lemma dataUrlToBase64_payload (header payload : string) :
  noComma header = true ->
  (noComma payload = true ->
   dataUrlToBase64 (header ++ String "," payload) = Some payload)
  /\ dataUrlToBase64 header = None
  /\ (forall file,
        File.readAsDataURL file = Some header ->
        toImageFile file
        = Some {| name := File.name file; dataUrl := header; base64 := None;
                  mimeType := File.type file |}).
Proof.
  intro H. unfold dataUrlToBase64. split; [|split].
  - intro P. now rewrite (splitComma_app _ _ H), (splitComma_whole _ P).
  - now rewrite (splitComma_whole _ H).
  - intros file R. unfold toImageFile, fileToDataUrl, dataUrlToBase64.
    now rewrite R, (splitComma_whole _ H).
Qed.

Lemma dataUrlToBase64_payload_png :
  dataUrlToBase64 "data:image/png;base64,AAAA" = Some "AAAA"
  /\ dataUrlToBase64 "data:image/png;base64" = None.
Proof.
  assert (H : noComma "data:image/png;base64" = true) by reflexivity.
  split.
  - apply (proj1 (dataUrlToBase64_payload "data:image/png;base64" "AAAA" H)).
    reflexivity.
  - apply (proj1 (proj2 (dataUrlToBase64_payload "data:image/png;base64" "AAAA" H))).
Defined.

(* ----------------------------------------------------------------- *)
(** ** Downloading the images *)

Lemma scheduleDownloads_nth (images : list ScenePrompt) :
  forall (d : Z) (k : nat) (p : ScenePrompt),
    nth_error images k = Some p ->
    nth_error (scheduleDownloads d images) k
    = Some {| delay := d + 200 * Z.of_nat k;
              href := orEmpty (ScenePrompt.generatedImageUrl p);
              download := sceneFileName (ScenePrompt.id p) |}.
Proof.
  induction images as [|q rest IH]; intros d [|k] p H; try discriminate.
  - simpl in H. injection H as ->. simpl. now rewrite Z.add_0_r.
  - cbn [nth_error scheduleDownloads] in *. rewrite (IH _ _ _ H).
    do 2 f_equal. lia.
Qed.

Lemma scheduleDownloads_links (images : list ScenePrompt) (d : Z) :
  map (fun s => (href s, download s)) (scheduleDownloads d images)
  = map (fun p => (orEmpty (ScenePrompt.generatedImageUrl p),
                   sceneFileName (ScenePrompt.id p))) images.
Proof.
  revert d. induction images as [|q rest IH]; intro d; [reflexivity|].
  cbn [scheduleDownloads map href download]. now rewrite IH.
Qed.

Lemma downloads_are_images (prompts : list ScenePrompt) :
  fst (downloadAllImages prompts) = scheduleDownloads 0 (filter hasImage prompts).
Proof.
  unfold downloadAllImages. now destruct (filter hasImage prompts).
Qed.

Lemma filter_split_length {A} (f : A -> bool) (l : list A) :
  (List.length (filter f l) + List.length (filter (fun x => negb (f x)) l))%nat
  = List.length l.
Proof.
  induction l as [|x l IH]; [reflexivity|].
  simpl. destruct (f x); simpl; lia.
Qed.

(** X6: [downloadAllImages] schedules one download per scene that has an
    image, in plan order: the [k]-th of them fires after [200 * k]
    milliseconds, with the scene's image as link and [scene-<id>.png] as
    file name, which is the link the card's own download button clicks.
    The scenes without an image are the ones a batch would still request,
    so downloads and pending scenes add up to the plan.  The warning toast
    is posted exactly when no scene has an image, and then nothing is
    scheduled. *)
Lemma downloadAllImages_schedule (prompts : list ScenePrompt) :
  (forall k p,
      nth_error (filter hasImage prompts) k = Some p ->
      nth_error (fst (downloadAllImages prompts)) k
      = Some {| delay := 200 * Z.of_nat k;
                href := orEmpty (ScenePrompt.generatedImageUrl p);
                download := sceneFileName (ScenePrompt.id p) |})
  /\ map (fun s => Some (href s, download s)) (fst (downloadAllImages prompts))
     = map handleImageDownload (filter hasImage prompts)
  /\ (List.length (fst (downloadAllImages prompts))
      + List.length (pendingOf prompts))%nat = List.length prompts
  /\ (filter hasImage prompts = []
      <-> snd (downloadAllImages prompts)
          = AddToast warning "No Images" "Generate images first." None)
  /\ (filter hasImage prompts = [] -> fst (downloadAllImages prompts) = []).
Proof.
  rewrite downloads_are_images. split; [|split; [|split; [|split]]].
  - intros k p H. now rewrite (scheduleDownloads_nth _ 0 k p H).
  - rewrite <- (map_map (fun s => (href s, download s)) Some).
    rewrite scheduleDownloads_links, map_map.
    apply map_ext_in. intros p H. apply filter_In in H. destruct H as [_ H].
    unfold handleImageDownload. now rewrite H.
  - rewrite <- (filter_split_length hasImage prompts). unfold pendingOf.
    f_equal. rewrite <- (length_map (fun s => (href s, download s))).
    now rewrite scheduleDownloads_links, length_map.
  - unfold downloadAllImages. destruct (filter hasImage prompts); cbn [snd].
    + split; reflexivity.
    + split; discriminate.
  - now intros ->.
Qed.

Lemma downloadAllImages_schedule_second :
  nth_error (filter hasImage paintedScenes) 1
  = Some (setImage 2 "data:image/png;base64,AAAA" (scene 2))
  /\ nth_error (fst (downloadAllImages paintedScenes)) 1
     = Some {| delay := 200; href := "data:image/png;base64,AAAA";
               download := "scene-2.png" |}.
Proof.
  split; [reflexivity|].
  apply (proj1 (downloadAllImages_schedule paintedScenes) 1%nat
           (setImage 2 "data:image/png;base64,AAAA" (scene 2))).
  reflexivity.
Defined.

Lemma append_list (s t : string) :
  list_ascii_of_string (s ++ t)
  = list_ascii_of_string s ++ list_ascii_of_string t.
Proof.
  induction s as [|c r IH]; [reflexivity|].
  cbn [String.append list_ascii_of_string]. now rewrite IH.
Qed.

Lemma append_cancel_r (s s' t : string) : (s ++ t = s' ++ t)%string -> s = s'.
Proof.
  intro H. apply (f_equal list_ascii_of_string) in H.
  rewrite !append_list in H. apply app_inv_tail in H.
  rewrite <- (string_of_list_ascii_of_string s).
  rewrite <- (string_of_list_ascii_of_string s'). now rewrite H.
Qed.

Lemma showZ_inj (z z' : Z) : showZ z = showZ z' -> z = z'.
Proof.
  unfold showZ. intro H.
  assert (G : forall x, NilZero.int_of_string (NilZero.string_of_int (Z.to_int x))
                        = Some (Z.to_int x)).
  { intro x. apply NilZero.isi.
    - destruct x as [|p|p]; cbn; try discriminate.
      intro E. injection E as E. exact (DecimalPos.Unsigned.to_uint_nonnil p E).
    - destruct x as [|p|p]; cbn; try discriminate.
      intro E. injection E as E. exact (DecimalPos.Unsigned.to_uint_nonnil p E). }
  apply (f_equal NilZero.int_of_string) in H. rewrite !G in H.
  injection H as H. now apply DecimalZ.to_int_inj.
Qed.

(** X7: the file name [scene-<id>.png] that both download handlers give
    to an image determines the id, so in a plan whose ids are distinct no
    two images are downloaded under the same name. *)
Lemma download_names_distinct (prompts : list ScenePrompt) :
  NoDup (map ScenePrompt.id prompts) ->
  (forall id id', sceneFileName id = sceneFileName id' <-> id = id')
  /\ NoDup (map download (fst (downloadAllImages prompts))).
Proof.
  intro N.
  assert (I : forall id id', sceneFileName id = sceneFileName id' -> id = id').
  { unfold sceneFileName. intros id id' H. cbn [String.append] in H.
    injection H as H. apply append_cancel_r in H. now apply showZ_inj. }
  split; [intros id id'; split; [apply I | now intros ->]|].
  rewrite downloads_are_images.
  replace (map download (scheduleDownloads 0 (filter hasImage prompts)))
    with (map sceneFileName (map ScenePrompt.id (filter hasImage prompts))).
  - apply Finite.Injective_map_NoDup; [exact I|].
    clear I. induction prompts as [|p rest IH]; [constructor|].
    inversion N as [|? ? N1 N2]; subst. cbn [filter].
    destruct (hasImage p); [|now apply IH].
    cbn [map]. constructor; [|now apply IH].
    intro H. apply N1. apply in_map_iff in H. destruct H as [q [E Q]].
    apply filter_In in Q. apply in_map_iff. exists q. tauto.
  - rewrite map_map.
    rewrite <- (map_map (fun s => (href s, download s)) snd).
    now rewrite scheduleDownloads_links, map_map.
Qed.

Lemma download_names_distinct_painted :
  NoDup (map ScenePrompt.id paintedScenes)
  /\ map download (fst (downloadAllImages paintedScenes))
     = ["scene-1.png"; "scene-2.png"]
  /\ NoDup (map download (fst (downloadAllImages paintedScenes))).
Proof.
  assert (N : NoDup (map ScenePrompt.id paintedScenes)).
  { cbn. constructor; [|constructor; [|constructor]]; cbn; intuition discriminate. }
  split; [exact N|]. split; [reflexivity|].
  exact (proj2 (download_names_distinct paintedScenes N)).
Defined.

(* ----------------------------------------------------------------- *)
(** ** What the image handlers never change *)

Lemma handleGenerateAllImages_keepsPlan (prompts : list ScenePrompt) :
  forallb keepsPlan (snd (handleGenerateAllImages prompts)) = true.
Proof.
  rewrite handleGenerateAllImages_spec. destruct prompts as [|p ps]; [reflexivity|].
  destruct (0 <? _); cbn [snd forallb keepsPlan andb]; [|reflexivity].
  apply sceneOnly_keepsPlan, launch_sceneOnly.
Qed.

Lemma step_effects (a : App) (act : Action) :
  exists out,
    forallb keepsPlan out = true
    /\ prompts (step a act) = fold_left rewritePrompts out (prompts a).
Proof.
  destruct act; cbn [step].
  - exists (snd (handleGenerateAllImages (prompts a))).
    split; [apply handleGenerateAllImages_keepsPlan|].
    now rewrite applyEffects_prompts.
  - unfold handleGenerateImage. destruct (findPrompt id (prompts a)) as [p|].
    + exists [SetLoading p; Request p]. split; [reflexivity|].
      now rewrite applyEffects_prompts.
    + exists []. split; reflexivity.
  - destruct (nth_error (runs a) run) as [inv|]; [|exists []; split; reflexivity].
    exists (snd (memberSettles k r (batch inv))).
    split; [apply memberSettles_keepsPlan|]. now rewrite applyEffects_prompts.
  - destruct (nth_error (calls a) k) as [p|]; [|exists []; split; reflexivity].
    rewrite callResume_spec. eexists. split; [|now rewrite applyEffects_prompts].
    destruct r; reflexivity.
  - exists []. split; reflexivity.
  - destruct (nth_error (timeouts a) k); exists []; split; reflexivity.
Qed.

Lemma keepsPlan_rewrite (out : list Effect) (ps : list ScenePrompt) :
  forallb keepsPlan out = true ->
  fold_left rewritePrompts out ps
  = map (fun q => fold_left (fun q' e => rewriteOne e q') out q) ps.
Proof.
  revert ps. induction out as [|e r IH]; intros ps K.
  - simpl. now rewrite map_id.
  - simpl in K. apply andb_true_iff in K. destruct K as [Ke Kr].
    cbn [fold_left]. rewrite (IH _ Kr).
    destruct e; try discriminate; cbn [rewritePrompts rewriteOne];
      now rewrite ?map_map.
Qed.

Lemma laterForm_refl (p : ScenePrompt) : laterForm p p.
Proof. split; auto. Qed.

Lemma laterForm_trans (p q r : ScenePrompt) :
  laterForm p q -> laterForm q r -> laterForm p r.
Proof.
  intros [T1 U1] [T2 U2]. split; [congruence | auto].
Qed.

Lemma rewriteOne_later (e : Effect) (q : ScenePrompt) : laterForm q (rewriteOne e q).
Proof.
  destruct e; try apply laterForm_refl; cbn [rewriteOne];
    unfold setLoading, setImage, setFailed;
    destruct (_ =? _); try apply laterForm_refl; split; auto;
    intros _; discriminate.
Qed.

Lemma step_later (a : App) (act : Action) :
  Forall2 laterForm (prompts a) (prompts (step a act)).
Proof.
  destruct (step_effects a act) as [out [K E]]. rewrite E, (keepsPlan_rewrite _ _ K).
  clear. induction (prompts a) as [|p ps IH]; constructor; auto.
  clear. revert p. induction out as [|e r IH]; intro p; [apply laterForm_refl|].
  cbn [fold_left]. eapply laterForm_trans; [apply rewriteOne_later|]. apply IH.
Qed.

Lemma Forall2_trans {A} (R : A -> A -> Prop) (l1 l2 l3 : list A) :
  (forall x y z, R x y -> R y z -> R x z) ->
  Forall2 R l1 l2 -> Forall2 R l2 l3 -> Forall2 R l1 l3.
Proof.
  intros T H. revert l3. induction H; intros l3 G; inversion G; subst;
    constructor; eauto.
Qed.

Lemma session_later (acts : list Action) (a : App) :
  Forall2 laterForm (prompts a) (prompts (session acts a)).
Proof.
  revert a. induction acts as [|act rest IH]; intro a.
  - simpl. induction (prompts a); constructor; auto using laterForm_refl.
  - eapply (Forall2_trans laterForm); [apply laterForm_trans | apply step_later |].
    apply IH.
Qed.

Lemma later_texts (ps qs : list ScenePrompt) :
  Forall2 laterForm ps qs -> map sceneText qs = map sceneText ps.
Proof.
  induction 1 as [|p q ps qs [T _] _ IH]; [reflexivity|].
  simpl. now rewrite T, IH.
Qed.

(** X8: whatever the image handlers do, from any state and in any order
    (batches, single generations, settling calls, toasts going away), the
    plan keeps its scenes: the same number of records in the same order
    with the same id, phase, image prompt and video prompt, and a record
    that has an image field keeps having one (only a later image replaces
    it).  Hence what "Copy All" puts on the clipboard does not depend on
    the images generated in between. *)
Lemma session_keeps_scenes (acts : list Action) (a : App) (type : PromptKind) :
  Forall2 laterForm (prompts a) (prompts (session acts a))
  /\ map sceneText (prompts (session acts a)) = map sceneText (prompts a)
  /\ List.length (prompts (session acts a)) = List.length (prompts a)
  /\ fst (copyAllPrompts type (prompts (session acts a)))
     = fst (copyAllPrompts type (prompts a)).
Proof.
  pose proof (session_later acts a) as L.
  pose proof (later_texts _ _ L) as T.
  split; [exact L|]. split; [exact T|]. split.
  - rewrite <- (length_map sceneText), T. apply length_map.
  - unfold copyAllPrompts. cbn [fst]. f_equal. destruct type.
    + rewrite <- (map_map sceneText (fun t => snd (fst t))), T.
      now rewrite map_map.
    + rewrite <- (map_map sceneText (fun t => snd t)), T.
      now rewrite map_map.
Qed.

(* ----------------------------------------------------------------- *)
(** ** What a batch requests and what it counts *)

Lemma count_app {A} (f : A -> bool) (l l' : list A) :
  List.length (filter f (l ++ l'))
  = (List.length (filter f l) + List.length (filter f l'))%nat.
Proof. now rewrite filter_app, length_app. Qed.

Lemma count_launch (group : list ScenePrompt) :
  filter isSetImage (launchEffects group) = []
  /\ filter isSetFailed (launchEffects group) = [].
Proof. induction group as [|p r [IH1 IH2]]; split; auto. Qed.

Lemma count_settle (settled : list (ScenePrompt * Settlement)) :
  List.length (filter isSetImage (settleEffects settled)) = resolvedIn settled
  /\ List.length (filter isSetFailed (settleEffects settled)) = rejectedIn settled.
Proof.
  unfold resolvedIn, rejectedIn, settleEffects.
  induction settled as [|[p [u|e]] r [IH1 IH2]]; [split; reflexivity| |];
    cbn [flat_map settleEffect snd fst filter isResolved negb app
         isSetImage isSetFailed List.length]; rewrite IH1, IH2; split; reflexivity.
Qed.

Lemma count_rounds (done : list Round) :
  List.length (filter isSetImage (flat_map roundEffects done))
  = resolvedIn (flat_map snd done)
  /\ List.length (filter isSetFailed (flat_map roundEffects done))
     = rejectedIn (flat_map snd done).
Proof.
  induction done as [|[g s] r [IH1 IH2]]; [split; reflexivity|].
  cbn [flat_map snd]. unfold roundEffects at 1 3. cbn [fst snd].
  unfold resolvedIn, rejectedIn in *.
  rewrite !count_app, IH1, IH2.
  rewrite (proj1 (count_launch g)), (proj2 (count_launch g)).
  destruct (count_settle s) as [S1 S2]. unfold resolvedIn, rejectedIn in *.
  rewrite S1, S2. split; reflexivity.
Qed.

(** X9: a batch requests images for the scenes that had no image when it
    was invoked, and for nothing else: at every moment the prompts it has
    requested so far are an initial part of those scenes in plan order
    (so none is requested twice unless the plan lists it twice), and once
    the batch has completed they are all of them. *)
Lemma batch_requests_pending (plan : list ScenePrompt) (acts : list Action)
    (inv : Invocation) :
  In inv (runs (session acts (showing plan))) ->
  exists later,
    pendingPrompts (batch inv) = requestsOf (log inv) ++ later
    /\ (status (batch inv) = Completed -> later = [])
    /\ Forall (fun p => hasImage p = false /\ In p (snapshot (batch inv)))
         (requestsOf (log inv)).
Proof.
  intro H. apply in_session_orderly in H. unfold Orderly, InOrder in H.
  assert (F : forall l later,
             pendingPrompts (batch inv) = l ++ later ->
             Forall (fun p => hasImage p = false /\ In p (snapshot (batch inv))) l).
  { intros l later E. apply Forall_forall. intros p Hp.
    assert (Q : In p (pendingPrompts (batch inv)))
      by (rewrite E; apply in_or_app; now left).
    unfold pendingPrompts, pendingOf in Q. apply filter_In in Q.
    destruct Q as [Q1 Q2]. apply negb_true_iff in Q2. now split. }
  pose proof (chunks_concat (pendingPrompts (batch inv))) as C.
  destruct (status (batch inv)) eqn:St.
  - destruct H as [_ [_ L]]. rewrite L. exists (pendingPrompts (batch inv)).
    split; [reflexivity|]. split; [discriminate | constructor].
  - destruct H as [done [group [rest [settled [G [_ [_ [_ [_ [L _]]]]]]]]]].
    rewrite G in C. rewrite concat_app in C. cbn [List.concat] in C.
    assert (R : requestsOf (log inv) = List.concat (map fst done) ++ group).
    { rewrite L.
      change (SetIsBatchGenerating true :: ?l) with ([SetIsBatchGenerating true] ++ l).
      rewrite !requestsOf_app, requestsOf_rounds, requestsOf_launch,
        requestsOf_settle. cbn [requestsOf flat_map app]. now rewrite app_nil_r. }
    exists (List.concat rest).
    assert (E : pendingPrompts (batch inv) = requestsOf (log inv) ++ List.concat rest)
      by (rewrite R, <- app_assoc; now symmetry).
    split; [exact E|]. split; [discriminate | exact (F _ _ E)].
  - destruct H as [done [G [_ [_ [_ [L _]]]]]].
    rewrite G in C.
    assert (R : requestsOf (log inv) = List.concat (map fst done)).
    { rewrite L.
      change (SetIsBatchGenerating true :: ?l) with ([SetIsBatchGenerating true] ++ l).
      rewrite !requestsOf_app, requestsOf_rounds.
      cbn [requestsOf flat_map app batchToast]. now rewrite app_nil_r. }
    exists [].
    assert (E : pendingPrompts (batch inv) = requestsOf (log inv) ++ [])
      by (rewrite R, app_nil_r; now symmetry).
    split; [exact E|]. split; [reflexivity | exact (F _ _ E)].
  - contradiction.
Qed.

Lemma step_returned (a : App) (act : Action) :
  Forall (fun inv => Orderly inv
                     /\ (status (batch inv) = Returned -> tally (batch inv) = noTally))
    (runs a) ->
  Forall (fun inv => Orderly inv
                     /\ (status (batch inv) = Returned -> tally (batch inv) = noTally))
    (runs (step a act)).
Proof.
  intro F. rewrite step_runs. destruct act; auto.
  - apply Forall_app. split; [exact F|]. constructor; [|constructor].
    split; [apply invoke_orderly|].
    unfold record. cbn [batch]. rewrite handleGenerateAllImages_spec.
    destruct (prompts a); [reflexivity|].
    destruct (0 <? _); cbn [fst status]; discriminate.
  - destruct (nth_error (runs a) run) as [inv|] eqn:E; auto.
    apply replaceNth_Forall; auto.
    pose proof (proj1 (Forall_forall _ _) F inv (nth_error_In _ _ E)) as [O P].
    split; [now apply settle_orderly|].
    unfold record. cbn [batch]. intro St.
    destruct (nth_error (awaited (batch inv)) k) as [p|] eqn:Aw.
    + exfalso. unfold Orderly, InOrder in O.
      destruct (status (batch inv)) eqn:St'.
      * destruct O as [_ [O _]]. rewrite O in Aw. now destruct k.
      * destruct (settle_cases (batch inv) k r p Aw St') as [[S _]|[S _]];
          rewrite S in St; discriminate.
      * destruct O as [done [_ [_ [O _]]]]. rewrite O in Aw. now destruct k.
      * exact O.
    + rewrite (memberSettles_none _ _ _ Aw) in *. cbn [fst] in *. auto.
Qed.

Lemma session_returned (acts : list Action) (a : App) :
  Forall (fun inv => Orderly inv
                     /\ (status (batch inv) = Returned -> tally (batch inv) = noTally))
    (runs a) ->
  Forall (fun inv => Orderly inv
                     /\ (status (batch inv) = Returned -> tally (batch inv) = noTally))
    (runs (session acts a)).
Proof.
  revert a. induction acts as [|act rest IH]; intros a F; [exact F|].
  apply IH, step_returned, F.
Qed.

(** X10: the two counters of a batch are the numbers of updates the batch
    itself has made: [successCount] is the number of images it has stored
    and [failureCount] the number of scenes it has marked as failed, at
    every moment of every session. *)
Lemma tally_counts_updates (plan : list ScenePrompt) (acts : list Action)
    (inv : Invocation) :
  In inv (runs (session acts (showing plan))) ->
  successCount (tally (batch inv)) = List.length (filter isSetImage (log inv))
  /\ failureCount (tally (batch inv)) = List.length (filter isSetFailed (log inv)).
Proof.
  intro H. pose proof (in_session_orderly _ _ _ H) as O.
  unfold Orderly, InOrder in O. destruct (status (batch inv)) eqn:St.
  - destruct O as [_ [_ L]]. rewrite L.
    pose proof (session_returned acts (showing plan) (Forall_nil _)) as R.
    rewrite Forall_forall in R. destruct (R inv H) as [_ T].
    rewrite (T St). split; reflexivity.
  - destruct O as [done [group [rest [settled [_ [_ [_ [_ [_ [L [S1 S2]]]]]]]]]]].
    rewrite S1, S2, L.
    change (SetIsBatchGenerating true :: ?l) with ([SetIsBatchGenerating true] ++ l).
    rewrite !count_app.
    rewrite (proj1 (count_rounds done)), (proj2 (count_rounds done)).
    rewrite (proj1 (count_launch group)), (proj2 (count_launch group)).
    rewrite (proj1 (count_settle settled)), (proj2 (count_settle settled)).
    unfold resolvedIn, rejectedIn. rewrite !count_app. cbn. split; lia.
  - destruct O as [done [_ [_ [_ [_ [L [S1 S2]]]]]]].
    rewrite S1, S2, L.
    change (SetIsBatchGenerating true :: ?l) with ([SetIsBatchGenerating true] ++ l).
    rewrite !count_app.
    rewrite (proj1 (count_rounds done)), (proj2 (count_rounds done)).
    cbn. split; lia.
  - contradiction.
Qed.

Lemma batch_requests_pending_sample :
  In sampleRun (runs (session oneOfTwoFails (showing twoScenes)))
  /\ exists later,
       pendingPrompts (batch sampleRun) = requestsOf (log sampleRun) ++ later
       /\ (status (batch sampleRun) = Completed -> later = [])
       /\ Forall (fun p => hasImage p = false /\ In p (snapshot (batch sampleRun)))
            (requestsOf (log sampleRun)).
Proof.
  assert (H : In sampleRun (runs (session oneOfTwoFails (showing twoScenes))))
    by (vm_compute; left; reflexivity).
  split; [exact H|].
  exact (batch_requests_pending twoScenes oneOfTwoFails sampleRun H).
Defined.

Lemma tally_counts_updates_sample :
  In sampleRun (runs (session oneOfTwoFails (showing twoScenes)))
  /\ successCount (tally (batch sampleRun))
     = List.length (filter isSetImage (log sampleRun))
  /\ failureCount (tally (batch sampleRun))
     = List.length (filter isSetFailed (log sampleRun)).
Proof.
  assert (H : In sampleRun (runs (session oneOfTwoFails (showing twoScenes))))
    by (vm_compute; left; reflexivity).
  split; [exact H|].
  exact (tally_counts_updates twoScenes oneOfTwoFails sampleRun H).
Defined.

(* ----------------------------------------------------------------- *)
(** ** A batch with nothing to generate, and a batch under way *)

(** X11: on a plan that is not empty but in which every scene already has
    an image, "Generate All Images" makes no call and changes no scene;
    it sets and clears its flag at once and posts the persistent toast of
    a successful batch with both counts zero. *)
Lemma batch_with_nothing_pending (a : App) :
  prompts a <> [] ->
  pendingOf (prompts a) = [] ->
  prompts (step a GenerateAllImages) = prompts a
  /\ isBatchGenerating (step a GenerateAllImages) = false
  /\ toasts (step a GenerateAllImages)
     = toasts a ++ [aggregateToast (random a) noTally]
  /\ ToastMessage.type (aggregateToast (random a) noTally) = success
  /\ timeouts (step a GenerateAllImages) = timeouts a
  /\ runs (step a GenerateAllImages)
     = runs a
       ++ [ {| batch := {| snapshot := prompts a; i := 0; awaited := [];
                           tally := noTally; status := Completed |};
               log := [SetIsBatchGenerating true; SetIsBatchGenerating false;
                       batchToast noTally] |} ].
Proof.
  intros N P. cbn [step]. rewrite handleGenerateAllImages_spec, P.
  destruct (prompts a) as [|p ps] eqn:E; [congruence|].
  cbn [List.length Z.of_nat Z.ltb Z.compare snd fst].
  unfold record. cbn [fst snd app].
  destruct a. cbn in E. subst. repeat split; reflexivity.
Qed.

Lemma batch_with_nothing_pending_painted :
  prompts (step (showing paintedScenes) GenerateAllImages) = paintedScenes
  /\ toasts (step (showing paintedScenes) GenerateAllImages)
     = [aggregateToast 0 noTally].
Proof.
  assert (N : prompts (showing paintedScenes) <> []) by discriminate.
  assert (P : pendingOf (prompts (showing paintedScenes)) = []) by reflexivity.
  destruct (batch_with_nothing_pending (showing paintedScenes) N P)
    as [H1 [_ [H2 _]]].
  split; [exact H1 | exact H2].
Defined.

(** X12: a batch that is waiting at any moment of any session completes,
    whatever else has happened and however its calls end: after as many
    further settlements as it has calls left (awaited or not yet
    started), at least one, it has run to its end, the flag is cleared,
    its toast is the last one posted and its counters have grown by the
    numbers of resolutions and rejections among those settlements. *)
Lemma waiting_batch_completes (plan : list ScenePrompt) (acts : list Action)
    (run : nat) (inv : Invocation) (outcome : nat -> Settlement) :
  nth_error (runs (session acts (showing plan))) run = Some inv ->
  status (batch inv) = Waiting ->
  (0 < remaining (batch inv))%nat
  /\ exists inv',
       nth_error (runs (drain (remaining (batch inv)) run outcome 0
                          (session acts (showing plan)))) run = Some inv'
       /\ status (batch inv') = Completed
       /\ snapshot (batch inv') = snapshot (batch inv)
       /\ successCount (tally (batch inv'))
          = (successCount (tally (batch inv))
             + resolvedAmong outcome 0 (remaining (batch inv)))%nat
       /\ failureCount (tally (batch inv'))
          = (failureCount (tally (batch inv))
             + rejectedAmong outcome 0 (remaining (batch inv)))%nat
       /\ toasts (drain (remaining (batch inv)) run outcome 0
                    (session acts (showing plan)))
          = toasts (session acts (showing plan))
            ++ [aggregateToast (random (session acts (showing plan)))
                  (tally (batch inv'))]
       /\ isBatchGenerating (drain (remaining (batch inv)) run outcome 0
                               (session acts (showing plan))) = false.
Proof.
  intros H St.
  pose proof (in_session_orderly _ _ _ (nth_error_In _ _ H)) as O.
  split.
  - destruct (waiting_facts inv O St) as [Aw _]. unfold remaining.
    destruct (awaited (batch inv)); [congruence | simpl; lia].
  - destruct (drain_completes (remaining (batch inv)) _ run inv outcome 0%nat
                H O St eq_refl)
      as [inv' [H1 [_ [H2 [H3 [H4 [H5 [H6 [_ H7]]]]]]]]].
    exists inv'. repeat (split; [assumption|]). assumption.
Qed.

Lemma waiting_batch_completes_ten :
  exists inv',
    nth_error (runs (drain 10 0 allFail 0
                       (session [GenerateAllImages] (showing tenScenes)))) 0
    = Some inv'
    /\ status (batch inv') = Completed.
Proof.
  assert (H : nth_error (runs (session [GenerateAllImages] (showing tenScenes))) 0
              = Some (record [] (handleGenerateAllImages tenScenes)))
    by (vm_compute; reflexivity).
  assert (St : status (batch (record [] (handleGenerateAllImages tenScenes)))
               = Waiting) by reflexivity.
  destruct (waiting_batch_completes tenScenes [GenerateAllImages] 0 _ allFail H St)
    as [_ [inv' [H1 [H2 _]]]].
  exists inv'. split; [exact H1 | exact H2].
Defined.

(* ----------------------------------------------------------------- *)
(** ** One scene: from the click to the settled call *)

Lemma removeNth_last {A} (l : list A) (x : A) :
  nth_error (l ++ [x]) (List.length l) = Some x
  /\ removeNth (List.length l) (l ++ [x]) = l.
Proof.
  induction l as [|y r [IH1 IH2]]; [split; reflexivity|].
  simpl. split; [exact IH1 | now rewrite IH2].
Qed.

Lemma findPrompt_none (id : Z) (prompts : list ScenePrompt) :
  (forall p, In p prompts -> ScenePrompt.id p <> id) -> findPrompt id prompts = None.
Proof.
  unfold findPrompt. induction prompts as [|p r IH]; intro H; [reflexivity|].
  simpl. destruct (Z.eqb_spec (ScenePrompt.id p) id) as [E|E].
  - exfalso. apply (H p); [now left | exact E].
  - apply IH. intros q Hq. apply H. now right.
Qed.

(** X13: [handleGenerateImage] with an id that no scene has does nothing
    at all.  With an id of the plan it marks every record of that id as
    loading and starts one call; when the call resolves, those records
    get the image, stop loading and are not marked failed, and no toast
    appears; when it rejects, they stop loading, are marked failed, keep
    the image field they had, and one error toast named after the scene
    is posted with its removal timeout.  Either way no call remains
    outstanding and the records of other ids are as before. *)
Lemma single_generation (a : App) (id : Z) :
  ((forall p, In p (prompts a) -> ScenePrompt.id p <> id) ->
   step a (GenerateImage id) = a)
  /\ (forall prompt,
        findPrompt id (prompts a) = Some prompt ->
        ScenePrompt.id prompt = id
        /\ calls (step a (GenerateImage id)) = calls a ++ [prompt]
        /\ prompts (step a (GenerateImage id)) = map (setLoading id) (prompts a)
        /\ toasts (step a (GenerateImage id)) = toasts a
        /\ (forall url,
              calls (step (step a (GenerateImage id))
                       (CallSettles (List.length (calls a)) (Resolved url)))
              = calls a
              /\ prompts (step (step a (GenerateImage id))
                            (CallSettles (List.length (calls a)) (Resolved url)))
                 = map (fun q => setImage id url (setLoading id q)) (prompts a)
              /\ toasts (step (step a (GenerateImage id))
                           (CallSettles (List.length (calls a)) (Resolved url)))
                 = toasts a)
        /\ (forall e,
              calls (step (step a (GenerateImage id))
                       (CallSettles (List.length (calls a)) (Rejected e)))
              = calls a
              /\ prompts (step (step a (GenerateImage id))
                            (CallSettles (List.length (calls a)) (Rejected e)))
                 = map (fun q => setFailed id (setLoading id q)) (prompts a)
              /\ toasts (step (step a (GenerateImage id))
                           (CallSettles (List.length (calls a)) (Rejected e)))
                 = toasts a
                   ++ [ {| ToastMessage.id := random a;
                           ToastMessage.type := error;
                           ToastMessage.title := ("Scene " ++ showZ id ++ " Error")%string;
                           ToastMessage.message := "Failed to generate image.";
                           ToastMessage.persistent := None |} ]
              /\ timeouts (step (step a (GenerateImage id))
                             (CallSettles (List.length (calls a)) (Rejected e)))
                 = timeouts a ++ [random a]))
  /\ (forall q url,
        ScenePrompt.id q = id ->
        ScenePrompt.generatedImageUrl (setImage id url (setLoading id q)) = Some url
        /\ istrue (ScenePrompt.isLoading (setImage id url (setLoading id q))) = false
        /\ istrue (ScenePrompt.generationFailed (setImage id url (setLoading id q)))
           = false
        /\ ScenePrompt.generatedImageUrl (setFailed id (setLoading id q))
           = ScenePrompt.generatedImageUrl q
        /\ generationState (setFailed id (setLoading id q)) = Failed)
  /\ (forall q url,
        ScenePrompt.id q <> id ->
        setImage id url (setLoading id q) = q
        /\ setFailed id (setLoading id q) = q).
Proof.
  split; [|split; [|split]].
  - intro H. cbn [step]. unfold handleGenerateImage.
    now rewrite (findPrompt_none _ _ H).
  - intros prompt F.
    assert (I : ScenePrompt.id prompt = id).
    { unfold findPrompt in F. apply find_some in F. destruct F as [_ F].
      now apply Z.eqb_eq in F. }
    assert (S1 : step a (GenerateImage id)
                 = applyEffects [SetLoading prompt; Request prompt]
                     (withCalls (calls a ++ [prompt]) a)).
    { cbn [step]. unfold handleGenerateImage. now rewrite F. }
    destruct (removeNth_last (calls a) prompt) as [N R].
    split; [exact I|]. rewrite S1.
    split; [reflexivity|]. split; [cbn; now rewrite I|]. split; [reflexivity|].
    split.
    + intro url. cbn [step]. rewrite applyEffects_calls. cbn [withCalls calls].
      rewrite N, callResume_spec, R.
      cbn. rewrite I, map_map. repeat split; reflexivity.
    + intro e. cbn [step]. rewrite applyEffects_calls. cbn [withCalls calls].
      rewrite N, callResume_spec, R.
      cbn. rewrite I, map_map. repeat split; reflexivity.
  - intros q url E. unfold setImage, setLoading, setFailed, generationState.
    apply Z.eqb_eq in E. rewrite E. cbn. rewrite E. cbn. repeat split; reflexivity.
  - intros q url E. unfold setImage, setLoading, setFailed.
    apply Z.eqb_neq in E. rewrite E. rewrite E. split; reflexivity.
Qed.

Lemma single_generation_first_scene :
  findPrompt 1 (prompts (showing twoScenes)) = Some (scene 1)
  /\ prompts (step (step (showing twoScenes) (GenerateImage 1))
                (CallSettles 0 (Rejected (Error "503"))))
     = map (fun q => setFailed 1 (setLoading 1 q)) twoScenes
  /\ step (showing twoScenes) (GenerateImage 3) = showing twoScenes.
Proof.
  assert (F : findPrompt 1 (prompts (showing twoScenes)) = Some (scene 1))
    by reflexivity.
  split; [exact F|]. split.
  - destruct (proj1 (proj2 (single_generation (showing twoScenes) 1)) (scene 1) F)
      as [_ [_ [_ [_ [_ H]]]]].
    exact (proj1 (proj2 (H (Error "503")))).
  - apply (proj1 (single_generation (showing twoScenes) 3)).
    intros p [H|[H|H]]; try contradiction; subst p; discriminate.
Defined.

(* ----------------------------------------------------------------- *)
(** ** How plan generation ends *)

Lemma buildPromptsResume_cases
    (JSON_parse : string -> Exception + list ScenePrompt) (reply : Reply) :
  (exists text data,
      reply = Response (Some text) /\ text <> "" /\ JSON_parse text = inr data
      /\ buildPromptsResume JSON_parse reply tt
         = ([SetPrompts data;
             AddToast success "Prompts Generated"
               ("Successfully created " ++ showNat (List.length data)
                ++ " scene prompts.")%string None;
             SetIsBuilding false], tt, Normal tt))
  \/ (exists e,
        buildPromptsResume JSON_parse reply tt
        = ([ConsoleError e;
            AddToast error "Generation Failed" (errorMessage e) None;
            SetIsBuilding false], tt, Normal tt)
        /\ (forall text data,
              reply = Response (Some text) -> JSON_parse text = inr data ->
              text = "")
        /\ (forall reason, reply = Refused reason -> e = reason)).
Proof.
  destruct reply as [[text|]|reason].
  - destruct text as [|c r].
    + right. exists (Error "No response from AI").
      split; [reflexivity|]. split; [intros ? ? H _; congruence | discriminate].
    + destruct (JSON_parse (String c r)) as [e|data] eqn:P.
      * right. exists e. split.
        -- unfold buildPromptsResume, tryFinally, tryCatch, bind, ret.
           cbn [truthy orEmpty]. rewrite P. reflexivity.
        -- split; [|discriminate]. intros text data H Q.
           injection H as <-. congruence.
      * left. exists (String c r), data.
        split; [reflexivity|]. split; [discriminate|]. split; [exact P|].
        unfold buildPromptsResume, tryFinally, tryCatch, bind, ret.
        cbn [truthy orEmpty]. rewrite P. reflexivity.
  - right. exists (Error "No response from AI").
    split; [reflexivity|]. split; [discriminate | discriminate].
  - right. exists reason.
    split; [reflexivity|]. split; [discriminate|]. intros ? H. congruence.
Qed.

(** X14: [buildPrompts] disables its own button while the request is out
    and always comes to an end that clears [isBuilding] and posts exactly
    one toast, a success or an error toast that times out; outstanding
    image calls and running batches are not touched, so they settle on
    the new plan.  When the response text is not empty and is a JSON
    array of scene records, the plan becomes that array, whatever the
    plan was before, and the success toast names its length.  When the
    request is refused, when the text is missing or empty, and when the
    text is not JSON, the scene sequence is as the handler found it on
    return and the error toast carries the message of the reason.  (A
    text that is JSON of another shape is outside [JSON_parse] and is not
    spoken of.) *)
Lemma buildPrompts_outcome
    (JSON_parse : string -> Exception + list ScenePrompt)
    (reply : Reply) (a : App) :
  (isBuilding (buildPromptsBegin a) = true
   /\ forall canBuild hasApiKey,
        buildDisabled canBuild (isBuilding (buildPromptsBegin a)) hasApiKey = true)
  /\ isBuilding (buildPromptsEnd JSON_parse reply a) = false
  /\ timeouts (buildPromptsEnd JSON_parse reply a) = timeouts a ++ [random a]
  /\ runs (buildPromptsEnd JSON_parse reply a) = runs a
  /\ calls (buildPromptsEnd JSON_parse reply a) = calls a
  /\ (exists type title message,
        (type = success \/ type = error)
        /\ toasts (buildPromptsEnd JSON_parse reply a)
           = toasts a
             ++ [ {| ToastMessage.id := random a;
                     ToastMessage.type := type;
                     ToastMessage.title := title;
                     ToastMessage.message := message;
                     ToastMessage.persistent := None |} ])
  /\ (forall text data,
        reply = Response (Some text) -> text <> "" -> JSON_parse text = inr data ->
        prompts (buildPromptsEnd JSON_parse reply a) = data
        /\ toasts (buildPromptsEnd JSON_parse reply a)
           = toasts a
             ++ [ {| ToastMessage.id := random a;
                     ToastMessage.type := success;
                     ToastMessage.title := "Prompts Generated";
                     ToastMessage.message :=
                       ("Successfully created " ++ showNat (List.length data)
                        ++ " scene prompts.")%string;
                     ToastMessage.persistent := None |} ])
  /\ (forall e,
        (reply = Refused e
         \/ ((reply = Response None \/ reply = Response (Some ""))
             /\ e = Error "No response from AI")
         \/ (exists text, reply = Response (Some text) /\ text <> ""
                          /\ JSON_parse text = inl e)) ->
        prompts (buildPromptsEnd JSON_parse reply a) = prompts a
        /\ toasts (buildPromptsEnd JSON_parse reply a)
           = toasts a
             ++ [ {| ToastMessage.id := random a;
                     ToastMessage.type := error;
                     ToastMessage.title := "Generation Failed";
                     ToastMessage.message := errorMessage e;
                     ToastMessage.persistent := None |} ]).
Proof.
  split; [split; [reflexivity|]|].
  { intros c k. unfold buildDisabled. cbn. now rewrite orb_true_r. }
  assert (Ok : forall text data,
             reply = Response (Some text) -> text <> "" ->
             JSON_parse text = inr data ->
             buildPromptsResume JSON_parse reply tt
             = ([SetPrompts data;
                 AddToast success "Prompts Generated"
                   ("Successfully created " ++ showNat (List.length data)
                    ++ " scene prompts.")%string None;
                 SetIsBuilding false], tt, Normal tt)).
  { intros text data -> N P. destruct text as [|c r]; [congruence|].
    unfold buildPromptsResume, tryFinally, tryCatch, bind, ret.
    cbn [truthy orEmpty]. rewrite P. reflexivity. }
  assert (Ko : forall e,
             (reply = Refused e
              \/ ((reply = Response None \/ reply = Response (Some ""))
                  /\ e = Error "No response from AI")
              \/ (exists text, reply = Response (Some text) /\ text <> ""
                               /\ JSON_parse text = inl e)) ->
             buildPromptsResume JSON_parse reply tt
             = ([ConsoleError e;
                 AddToast error "Generation Failed" (errorMessage e) None;
                 SetIsBuilding false], tt, Normal tt)).
  { intros e [->|[[[->| ->] ->]|[text [-> [N P]]]]]; try reflexivity.
    destruct text as [|c r]; [congruence|].
    unfold buildPromptsResume, tryFinally, tryCatch, bind, ret.
    cbn [truthy orEmpty]. rewrite P. reflexivity. }
  unfold buildPromptsEnd.
  split; [|split; [|split; [|split; [|split; [|split]]]]].
  - destruct (buildPromptsResume_cases JSON_parse reply)
      as [[text [data [_ [_ [_ E]]]]]|[e [E _]]]; rewrite E; reflexivity.
  - destruct (buildPromptsResume_cases JSON_parse reply)
      as [[text [data [_ [_ [_ E]]]]]|[e [E _]]]; rewrite E; reflexivity.
  - destruct (buildPromptsResume_cases JSON_parse reply)
      as [[text [data [_ [_ [_ E]]]]]|[e [E _]]]; rewrite E; reflexivity.
  - destruct (buildPromptsResume_cases JSON_parse reply)
      as [[text [data [_ [_ [_ E]]]]]|[e [E _]]]; rewrite E; reflexivity.
  - destruct (buildPromptsResume_cases JSON_parse reply)
      as [[text [data [_ [_ [_ E]]]]]|[e [E _]]]; rewrite E;
      do 3 eexists; (split; [|reflexivity]); auto.
  - intros text data R N P. rewrite (Ok text data R N P). split; reflexivity.
  - intros e H. rewrite (Ko e H). split; reflexivity.
Qed.

(* ----------------------------------------------------------------- *)
(** ** Toasts and their timeouts *)

Lemma addToast_kept (type : ToastType) (title message : string)
    (persistent : option bool) (a : App) :
  ToastsKept a -> ToastsKept (addToast type title message persistent a).
Proof.
  intros [N1 [N2 [B1 [B2 [P1 P2]]]]]. unfold ToastsKept, addToast.
  cbn [toasts timeouts random].
  assert (Fr : ~ In (random a) (map ToastMessage.id (toasts a))).
  { intro H. apply in_map_iff in H. destruct H as [t [E H]].
    specialize (B1 t H). lia. }
  assert (Ft : ~ In (random a) (timeouts a)).
  { intro H. specialize (B2 _ H). lia. }
  split; [|split; [|split; [|split; [|split]]]].
  - rewrite map_app. cbn [map ToastMessage.id].
    apply NoDup_app; [exact N1 | repeat constructor; simpl; tauto |].
    intros x Hx [<-|[]]. exact (Fr Hx).
  - destruct (istrue persistent); [exact N2|].
    apply NoDup_app; [exact N2 | repeat constructor; simpl; tauto |].
    intros x Hx [<-|[]]. exact (Ft Hx).
  - intros t H. apply in_app_or in H. destruct H as [H|[<-|[]]].
    + specialize (B1 t H). lia.
    + cbn. lia.
  - intros id H.
    assert (G : In id (timeouts a) \/ id = random a).
    { destruct (istrue persistent); [now left|].
      apply in_app_or in H. destruct H as [H|[<-|[]]]; auto. }
    destruct G as [G | ->]; [specialize (B2 _ G)|]; lia.
  - intros t H T. apply in_app_or in H. destruct H as [H|[<-|[]]].
    + apply (P1 t H). destruct (istrue persistent); [exact T|].
      apply in_app_or in T. destruct T as [T|[T|[]]]; [exact T|].
      specialize (B1 t H). lia.
    + cbn [ToastMessage.id ToastMessage.persistent] in *.
      destruct (istrue persistent); [contradiction | reflexivity].
  - intros t H Np. apply in_app_or in H. destruct H as [H|[<-|[]]].
    + specialize (P2 t H Np). destruct (istrue persistent); [exact P2|].
      apply in_or_app. now left.
    + cbn [ToastMessage.id ToastMessage.persistent] in *. rewrite Np.
      apply in_or_app. right. now left.
Qed.

Lemma applyEffects_kept (out : list Effect) (a : App) :
  ToastsKept a -> ToastsKept (applyEffects out a).
Proof.
  unfold applyEffects. revert a. induction out as [|e r IH]; intros a K; [exact K|].
  cbn [fold_left]. apply IH. destruct e; try exact K. now apply addToast_kept.
Qed.

Lemma removeNth_In {A} (k : nat) (l : list A) (x : A) :
  In x (removeNth k l) -> In x l.
Proof.
  revert k. induction l as [|y r IH]; intros [|k] H; simpl in *; auto.
  destruct H as [H|H]; eauto.
Qed.

Lemma removeNth_NoDup {A} (k : nat) (l : list A) : NoDup l -> NoDup (removeNth k l).
Proof.
  intro N. revert k. induction N as [|y r Ny N IH]; intros [|k]; simpl;
    try constructor; auto.
  intro H. apply Ny. eapply removeNth_In, H.
Qed.

Lemma removeNth_other {A} (k : nat) (l : list A) (x y : A) :
  nth_error l k = Some y -> In x l -> x <> y -> In x (removeNth k l).
Proof.
  revert k. induction l as [|z r IH]; intros [|k] N H D; simpl in *;
    try contradiction.
  - injection N as ->. destruct H as [H|H]; [congruence | exact H].
  - destruct H as [H|H]; [now left | right; eauto].
Qed.

Lemma filter_kept_ids (id : nat) (l : list ToastMessage) :
  NoDup (map ToastMessage.id l) ->
  NoDup (map ToastMessage.id
           (filter (fun t => negb (ToastMessage.id t =? id)%nat) l)).
Proof.
  induction l as [|t r IH]; intro N; [constructor|].
  inversion N as [|? ? N1 N2]; subst. cbn [filter].
  destruct (negb _); [|now apply IH].
  cbn [map]. constructor; [|now apply IH].
  intro H. apply N1. apply in_map_iff in H. destruct H as [u [E U]].
  apply filter_In in U. apply in_map_iff. exists u. tauto.
Qed.

Lemma removeToast_kept (id : nat) (a : App) :
  ToastsKept a -> ToastsKept (removeToast id a).
Proof.
  intros [N1 [N2 [B1 [B2 [P1 P2]]]]]. unfold ToastsKept, removeToast.
  cbn [toasts timeouts random].
  split; [now apply filter_kept_ids|]. split; [exact N2|].
  split; [|split; [exact B2|split]]; intros t H; apply filter_In in H;
    destruct H as [H _]; auto.
Qed.

Lemma timeout_kept (k : nat) (a : App) :
  ToastsKept a -> ToastsKept (step a (TimeoutFires k)).
Proof.
  intro K. cbn [step]. destruct (nth_error (timeouts a) k) as [id|] eqn:E; [|exact K].
  destruct K as [N1 [N2 [B1 [B2 [P1 P2]]]]]. unfold ToastsKept, removeToast.
  cbn [toasts timeouts random].
  split; [now apply filter_kept_ids|]. split; [now apply removeNth_NoDup|].
  split; [|split; [|split]].
  - intros t H. apply filter_In in H. destruct H as [H _]. auto.
  - intros x H. apply B2. eapply removeNth_In, H.
  - intros t H T. apply filter_In in H. destruct H as [H _].
    apply (P1 t H). eapply removeNth_In, T.
  - intros t H Np. apply filter_In in H. destruct H as [H D].
    apply negb_true_iff, Nat.eqb_neq in D.
    apply (removeNth_other k _ _ id E); auto.
Qed.

Lemma step_kept (a : App) (act : Action) : ToastsKept a -> ToastsKept (step a act).
Proof.
  intro K. destruct act.
  - cbn [step]. apply applyEffects_kept. exact K.
  - cbn [step]. destruct (handleGenerateImage id (prompts a)) as [[p out]|];
      [|exact K]. apply applyEffects_kept. exact K.
  - cbn [step]. destruct (nth_error (runs a) run); [|exact K].
    apply applyEffects_kept. exact K.
  - cbn [step]. destruct (nth_error (calls a) k) as [p|]; [|exact K].
    destruct (callResume p r tt) as [[out u] c]. apply applyEffects_kept. exact K.
  - now apply removeToast_kept.
  - now apply timeout_kept.
Qed.

Lemma react_kept (JSON_parse : string -> Exception + list ScenePrompt)
    (a : App) (ev : Event) :
  ToastsKept a -> ToastsKept (react JSON_parse a ev).
Proof.
  intro K. destruct ev; cbn [react].
  - now apply step_kept.
  - now apply applyEffects_kept.
  - unfold buildPromptsEnd.
    destruct (buildPromptsResume JSON_parse reply tt) as [[out u] c].
    now apply applyEffects_kept.
  - now apply (applyEffects_kept [_]).
  - now apply (applyEffects_kept [_]).
Qed.

Lemma history_kept (JSON_parse : string -> Exception + list ScenePrompt)
    (evs : list Event) (a : App) :
  ToastsKept a -> ToastsKept (history JSON_parse evs a).
Proof.
  revert a. induction evs as [|ev rest IH]; intros a K; [exact K|].
  apply IH, react_kept, K.
Qed.

Lemma showing_kept (plan : list ScenePrompt) : ToastsKept (showing plan).
Proof.
  unfold ToastsKept, showing. cbn [toasts timeouts random map].
  split; [constructor|]. split; [constructor|].
  split; [|split; [|split]]; intros; contradiction.
Qed.

Lemma applyEffects_toasts (out : list Effect) (a : App) :
  exists new, toasts (applyEffects out a) = toasts a ++ new.
Proof.
  unfold applyEffects. revert a. induction out as [|e r IH]; intro a.
  - exists []. now rewrite app_nil_r.
  - cbn [fold_left]. destruct (IH (applyEffect a e)) as [new H]. rewrite H.
    destruct e; try (now exists new).
    cbn [applyEffect addToast toasts]. rewrite <- app_assoc. eauto.
Qed.

Lemma applyEffects_titles (out : list Effect) (a : App) :
  Forall batchOnlyPersistent out ->
  (forall t, In t (toasts a) -> istrue (ToastMessage.persistent t) = true ->
             ToastMessage.title t = "Batch Generation Complete") ->
  forall t, In t (toasts (applyEffects out a)) ->
            istrue (ToastMessage.persistent t) = true ->
            ToastMessage.title t = "Batch Generation Complete".
Proof.
  unfold applyEffects. intro F. revert a.
  induction F as [|e r He F IH]; intros a I; [exact I|].
  cbn [fold_left]. apply IH. destruct e; try exact I.
  cbn [applyEffect addToast toasts]. intros t H Ps.
  apply in_app_or in H. destruct H as [H|[<-|[]]]; [now apply I|].
  cbn [ToastMessage.title ToastMessage.persistent] in *. exact (He Ps).
Qed.

Lemma sceneOnly_titles (l : list Effect) :
  forallb sceneOnly l = true -> Forall batchOnlyPersistent l.
Proof.
  induction l as [|e r IH]; intro H; [constructor|].
  cbn [forallb] in H. apply andb_true_iff in H. destruct H as [He Hr].
  constructor; [|now apply IH]. destruct e; try discriminate; exact I.
Qed.

Lemma batchToast_title (t : Tally) : batchOnlyPersistent (batchToast t).
Proof. intros _. reflexivity. Qed.

Lemma handleGenerateAllImages_titles (prompts : list ScenePrompt) :
  Forall batchOnlyPersistent (snd (handleGenerateAllImages prompts)).
Proof.
  rewrite handleGenerateAllImages_spec. destruct prompts as [|p ps]; [constructor|].
  destruct (0 <? _); cbn [snd].
  - constructor; [exact I|]. apply sceneOnly_titles, launch_sceneOnly.
  - repeat first [apply batchToast_title | constructor].
Qed.

Lemma memberSettles_titles (k : nat) (r : Settlement) (b : Batch) :
  Forall batchOnlyPersistent (snd (memberSettles k r b)).
Proof.
  unfold memberSettles. destruct (nth_error (awaited b) k) as [p|]; [|constructor].
  rewrite memberResume_spec. cbv zeta.
  pose proof (sceneOnly_titles _ (settle_sceneOnly (p, r))) as S.
  destruct (status b); auto.
  destruct (removeNth k (awaited b)) as [|x xs]; auto.
  rewrite enterLoop_spec. destruct (_ <? _); cbn [snd]; apply Forall_app; split; auto.
  - apply sceneOnly_titles, launch_sceneOnly.
  - repeat first [apply batchToast_title | constructor].
Qed.

Lemma history_titles (JSON_parse : string -> Exception + list ScenePrompt)
    (plan : list ScenePrompt) (evs : list Event) :
  forall t, In t (toasts (history JSON_parse evs (showing plan))) ->
            istrue (ToastMessage.persistent t) = true ->
            ToastMessage.title t = "Batch Generation Complete".
Proof.
  unfold history. rewrite <- (rev_involutive evs).
  induction (rev evs) as [|ev rest IH]; [intros t []|].
  cbn [rev]. rewrite fold_left_app. cbn [fold_left].
  set (a := fold_left (react JSON_parse) (rev rest) (showing plan)) in *.
  assert (G : forall out a', toasts a' = toasts a ->
                Forall batchOnlyPersistent out ->
                forall t, In t (toasts (applyEffects out a')) ->
                          istrue (ToastMessage.persistent t) = true ->
                          ToastMessage.title t = "Batch Generation Complete").
  { intros out a' E F. apply applyEffects_titles; [exact F|]. now rewrite E. }
  destruct ev as [act| |reply|type|]; cbn [react].
  - destruct act; cbn [step].
    + apply G; [reflexivity | apply handleGenerateAllImages_titles].
    + unfold handleGenerateImage. destruct (findPrompt id (prompts a)); [|exact IH].
      apply G; [reflexivity | repeat constructor].
    + destruct (nth_error (runs a) run); [|exact IH].
      apply G; [reflexivity | apply memberSettles_titles].
    + destruct (nth_error (calls a) k) as [p|]; [|exact IH].
      rewrite callResume_spec. apply G; [reflexivity|].
      destruct r; repeat constructor. discriminate.
    + unfold removeToast. cbn [toasts]. intros t H. apply filter_In in H.
      destruct H as [H _]. now apply IH.
    + destruct (nth_error (timeouts a) k); [|exact IH].
      unfold removeToast. cbn [toasts]. intros t H. apply filter_In in H.
      destruct H as [H _]. now apply IH.
  - apply G; [reflexivity | repeat constructor].
  - unfold buildPromptsEnd.
    destruct (buildPromptsResume_cases JSON_parse reply)
      as [[text [data [_ [_ [_ E]]]]]|[e [E _]]]; rewrite E;
      (apply G; [reflexivity | repeat constructor; discriminate]).
  - apply (G [_]); [reflexivity | repeat constructor; discriminate].
  - apply (G [_]); [reflexivity|]. unfold downloadAllImages.
    destruct (filter hasImage (prompts a)); repeat constructor; discriminate.
Qed.

(** X15: the only persistent toasts are those of finished batches, and a
    persistent toast stays on the page: from the moment it is shown,
    nothing that happens (a timeout firing, any handler running to any
    outcome, another toast being dismissed) takes it away except the
    dismissal of this very toast.  Toasts get distinct ids in the model,
    as [Math.random] is taken to return a fresh token on every draw. *)
Lemma persistent_toast_stays
    (JSON_parse : string -> Exception + list ScenePrompt)
    (plan : list ScenePrompt) (evs : list Event) (t : ToastMessage) (ev : Event) :
  In t (toasts (history JSON_parse evs (showing plan))) ->
  istrue (ToastMessage.persistent t) = true ->
  ev <> Does (RemoveToast (ToastMessage.id t)) ->
  ToastMessage.title t = "Batch Generation Complete"
  /\ In t (toasts (react JSON_parse (history JSON_parse evs (showing plan)) ev)).
Proof.
  intros H Ps Ne. split; [exact (history_titles JSON_parse plan evs t H Ps)|].
  pose proof (history_kept JSON_parse evs _ (showing_kept plan)) as K.
  set (a := history JSON_parse evs (showing plan)) in *.
  assert (G : forall out a', toasts a' = toasts a ->
                             In t (toasts (applyEffects out a'))).
  { intros out a' E. destruct (applyEffects_toasts out a') as [new N].
    rewrite N, E. apply in_or_app. now left. }
  destruct ev as [act| |reply|type|]; cbn [react].
  - destruct act; cbn [step].
    + now apply G.
    + destruct (handleGenerateImage id (prompts a)) as [[p out]|]; [|exact H].
      now apply G.
    + destruct (nth_error (runs a) run); [|exact H]. now apply G.
    + destruct (nth_error (calls a) k) as [p|]; [|exact H].
      destruct (callResume p r tt) as [[out u] c]. now apply G.
    + unfold removeToast. cbn [toasts]. apply filter_In. split; [exact H|].
      apply negb_true_iff, Nat.eqb_neq. intro E. apply Ne. now rewrite E.
    + destruct (nth_error (timeouts a) k) as [id|] eqn:E; [|exact H].
      unfold removeToast. cbn [toasts]. apply filter_In. split; [exact H|].
      apply negb_true_iff, Nat.eqb_neq. intro D. subst id.
      destruct K as [_ [_ [_ [_ [P1 _]]]]].
      rewrite (P1 t H (nth_error_In _ _ E)) in Ps. discriminate.
  - now apply G.
  - unfold buildPromptsEnd.
    destruct (buildPromptsResume JSON_parse reply tt) as [[out u] c]. now apply G.
  - now apply (G [_]).
  - now apply (G [_]).
Qed.

Lemma addToast_as (type : ToastType) (title message : string)
    (persistent : option bool) (a : App) :
  addToast type title message persistent a
  = addToastAs (random a) type title message persistent a.
Proof. reflexivity. Qed.

Lemma toastStep_pending (a : App) (ev : ToastEvent) :
  TimeoutsPending a -> TimeoutsPending (toastStep a ev).
Proof.
  unfold TimeoutsPending. intro P. destruct ev as [id type title message ps|id|k];
    cbn [toastStep step].
  - unfold addToastAs. cbn [toasts timeouts]. intros t H Np.
    apply in_app_or in H. destruct H as [H|[<-|[]]].
    + specialize (P t H Np). destruct (istrue ps); [exact P|].
      apply in_or_app. now left.
    + cbn [ToastMessage.id ToastMessage.persistent] in *. rewrite Np.
      apply in_or_app. right. now left.
  - unfold removeToast. cbn [toasts timeouts]. intros t H.
    apply filter_In in H. destruct H as [H _]. now apply P.
  - destruct (nth_error (timeouts a) k) as [id|] eqn:E; [|exact P].
    unfold removeToast. cbn [toasts timeouts]. intros t H Np.
    apply filter_In in H. destruct H as [H D].
    apply negb_true_iff, Nat.eqb_neq in D.
    apply (removeNth_other k _ _ id E); auto.
Qed.

Lemma toastRun_pending (evs : list ToastEvent) (a : App) :
  TimeoutsPending a -> TimeoutsPending (toastRun evs a).
Proof.
  revert a. induction evs as [|ev rest IH]; intros a P; [exact P|].
  apply IH, toastStep_pending, P.
Qed.

(** X16: whatever ids the toasts are posted under, equal ids included,
    and in whatever order toasts are posted, dismissed and timed out,
    every toast on the page that is not persistent has a removal timeout
    pending; when that timeout fires, the toasts of its id leave the page
    and the toasts of every other id stay. *)
Lemma toast_times_out (a : App) (evs : list ToastEvent) (t : ToastMessage) :
  TimeoutsPending a ->
  In t (toasts (toastRun evs a)) ->
  istrue (ToastMessage.persistent t) = false ->
  exists k,
    nth_error (timeouts (toastRun evs a)) k = Some (ToastMessage.id t)
    /\ forall t',
         In t' (toasts (toastStep (toastRun evs a) (Fired k)))
         <-> In t' (toasts (toastRun evs a))
             /\ ToastMessage.id t' <> ToastMessage.id t.
Proof.
  intros P H Np.
  pose proof (toastRun_pending evs a P) as K.
  set (b := toastRun evs a) in *.
  destruct (In_nth_error _ _ (K t H Np)) as [k E]. exists k.
  split; [exact E|]. intro t'. cbn [toastStep step]. rewrite E.
  unfold removeToast. cbn [toasts]. rewrite filter_In, negb_true_iff, Nat.eqb_neq.
  reflexivity.
Qed.

Lemma filter_all {A} (f : A -> bool) (l : list A) :
  (forall x, In x l -> f x = true) -> filter f l = l.
Proof.
  induction l as [|x r IH]; intro H; [reflexivity|].
  cbn [filter]. rewrite (H x (or_introl eq_refl)). f_equal.
  apply IH. intros y Hy. apply H. now right.
Qed.

Lemma toastStep_absent (id : nat) (a : App) (ev : ToastEvent) :
  posts id ev = false ->
  (forall t, In t (toasts a) -> ToastMessage.id t <> id) ->
  forall t, In t (toasts (toastStep a ev)) -> ToastMessage.id t <> id.
Proof.
  intros N A. destruct ev as [id' type title message ps|id'|k];
    cbn [toastStep step posts] in *.
  - unfold addToastAs. cbn [toasts]. intros t H.
    apply in_app_or in H. destruct H as [H|[<-|[]]]; [now apply A|].
    cbn [ToastMessage.id]. now apply Nat.eqb_neq.
  - unfold removeToast. cbn [toasts]. intros t H.
    apply filter_In in H. destruct H as [H _]. now apply A.
  - destruct (nth_error (timeouts a) k); [|exact A].
    unfold removeToast. cbn [toasts]. intros t H.
    apply filter_In in H. destruct H as [H _]. now apply A.
Qed.

Lemma toastRun_absent (id : nat) (evs : list ToastEvent) (a : App) :
  existsb (posts id) evs = false ->
  (forall t, In t (toasts a) -> ToastMessage.id t <> id) ->
  forall t, In t (toasts (toastRun evs a)) -> ToastMessage.id t <> id.
Proof.
  revert a. induction evs as [|ev rest IH]; intros a N A; [exact A|].
  cbn [existsb] in N. apply orb_false_iff in N. destruct N as [N1 N2].
  apply (IH _ N2). now apply toastStep_absent.
Qed.

(** X17: dismissing a toast removes from the page the toasts of its id
    and no other, and leaves the timeouts as they are, so the timeout of
    a dismissed toast stays pending.  When it fires later, after any
    further posting, dismissing and timing out of toasts, the toasts
    shown are not changed by it, provided that no toast was posted under
    the same id in between. *)
Lemma dismissed_toast_times_out_quietly (a : App) (id : nat)
    (evs : list ToastEvent) (k : nat) :
  existsb (posts id) evs = false ->
  nth_error (timeouts (toastRun evs (toastStep a (Dismissed id)))) k = Some id ->
  (forall t, In t (toasts (toastStep a (Dismissed id)))
             <-> In t (toasts a) /\ ToastMessage.id t <> id)
  /\ timeouts (toastStep a (Dismissed id)) = timeouts a
  /\ toasts (toastStep (toastRun evs (toastStep a (Dismissed id))) (Fired k))
     = toasts (toastRun evs (toastStep a (Dismissed id))).
Proof.
  intros N E.
  assert (D : forall t, In t (toasts (toastStep a (Dismissed id)))
                        <-> In t (toasts a) /\ ToastMessage.id t <> id).
  { intro t. cbn [toastStep step]. unfold removeToast. cbn [toasts].
    rewrite filter_In, negb_true_iff, Nat.eqb_neq. reflexivity. }
  split; [exact D|]. split; [reflexivity|].
  assert (A : forall t, In t (toasts (toastRun evs (toastStep a (Dismissed id)))) ->
                        ToastMessage.id t <> id).
  { apply (toastRun_absent id evs _ N). intros t H. now apply D in H. }
  set (b := toastRun evs (toastStep a (Dismissed id))) in *.
  cbn [toastStep step]. rewrite E. unfold removeToast. cbn [toasts].
  apply filter_all. intros t H. apply negb_true_iff, Nat.eqb_neq. now apply A.
Qed.

Lemma persistent_toast_stays_sample :
  toasts (history sampleParser copyAfterBatch (showing paintedScenes))
  = [aggregateToast 0 noTally; copiedToast]
  /\ In (aggregateToast 0 noTally)
       (toasts (react sampleParser
                  (history sampleParser copyAfterBatch (showing paintedScenes))
                  (Does (TimeoutFires 0)))).
Proof.
  split; [reflexivity|].
  apply (persistent_toast_stays sampleParser paintedScenes copyAfterBatch
           (aggregateToast 0 noTally) (Does (TimeoutFires 0))).
  - vm_compute. left. reflexivity.
  - reflexivity.
  - discriminate.
Defined.

Lemma toast_times_out_sample :
  toasts (toastStep (toastRun sameIdTwice (showing twoScenes)) (Fired 0)) = []
  /\ exists k,
       nth_error (timeouts (toastRun sameIdTwice (showing twoScenes))) k = Some 3%nat
       /\ forall t',
            In t' (toasts (toastStep (toastRun sameIdTwice (showing twoScenes))
                             (Fired k)))
            <-> In t' (toasts (toastRun sameIdTwice (showing twoScenes)))
                /\ ToastMessage.id t' <> 3%nat.
Proof.
  split; [reflexivity|].
  assert (P : TimeoutsPending (showing twoScenes)) by (intros t []).
  assert (H : In firstOfTwo (toasts (toastRun sameIdTwice (showing twoScenes))))
    by (left; reflexivity).
  assert (Np : istrue (ToastMessage.persistent firstOfTwo) = false) by reflexivity.
  exact (toast_times_out (showing twoScenes) sameIdTwice firstOfTwo P H Np).
Defined.

Lemma dismissed_toast_times_out_quietly_sample :
  toasts (toastStep
            (toastRun [Posted 5 info "Downloading" "Downloading 2 images..." None]
               (toastStep
                  (history sampleParser copyAfterBatch (showing paintedScenes))
                  (Dismissed 1)))
            (Fired 0))
  = toasts (toastRun [Posted 5 info "Downloading" "Downloading 2 images..." None]
              (toastStep
                 (history sampleParser copyAfterBatch (showing paintedScenes))
                 (Dismissed 1))).
Proof.
  assert (N : existsb (posts 1)
                [Posted 5 info "Downloading" "Downloading 2 images..." None] = false)
    by reflexivity.
  assert (E : nth_error
                (timeouts
                   (toastRun
                      [Posted 5 info "Downloading" "Downloading 2 images..." None]
                      (toastStep
                         (history sampleParser copyAfterBatch (showing paintedScenes))
                         (Dismissed 1)))) 0 = Some 1%nat) by reflexivity.
  exact (proj2 (proj2
           (dismissed_toast_times_out_quietly
              (history sampleParser copyAfterBatch (showing paintedScenes)) 1
              [Posted 5 info "Downloading" "Downloading 2 images..." None] 0 N E))).
Defined.

(* ----------------------------------------------------------------- *)
(** ** The duration field *)

Lemma digitsValue_grows (s : Text) :
  forall acc, 0 <= acc -> acc <= digitsValue acc s.
Proof.
  induction s as [|c r IH]; intros acc H; cbn [digitsValue]; [lia|].
  destruct (isDigit c); [|lia].
  assert (G : 0 <= 10 * acc + Z.of_N (c - 48)) by lia.
  specialize (IH _ G). lia.
Qed.

Lemma digitsValue_stops (ds tail : Text) :
  forallb isDigit ds = true ->
  match tail with c :: _ => isDigit c = false | [] => True end ->
  forall acc, digitsValue acc (ds ++ tail) = digitsValue acc ds.
Proof.
  intros D T. induction ds as [|d r IH]; intro acc.
  - destruct tail as [|c t]; [reflexivity|]. cbn [app digitsValue]. now rewrite T.
  - cbn [forallb] in D. apply andb_true_iff in D. destruct D as [D1 D2].
    cbn [app digitsValue]. rewrite D1. now apply IH.
Qed.

Lemma parseInt_digit (d : N) (rest : Text) :
  isDigit d = true ->
  parseInt (d :: rest) = roundDouble (1 * digitsValue 0 (d :: rest)).
Proof.
  unfold isDigit. intro H. apply andb_true_iff in H. destruct H as [L U].
  apply N.leb_le in L. apply N.leb_le in U.
  assert (C : (d = 48 \/ d = 49 \/ d = 50 \/ d = 51 \/ d = 52 \/ d = 53
               \/ d = 54 \/ d = 55 \/ d = 56 \/ d = 57)%N) by lia.
  repeat (destruct C as [C|C]; [subst d; reflexivity|]).
  subst d. reflexivity.
Qed.

Lemma roundDouble_exact (z : Z) : Z.abs z < 2 ^ 53 -> roundDouble z = DNum z.
Proof.
  intro H. unfold roundDouble. cbv zeta.
  assert (L : (Z.abs z <? 2 ^ 53) = true) by (now apply Z.ltb_lt).
  now rewrite L.
Qed.

Lemma roundDouble_not_positive (z : Z) :
  z <= 0 -> dpositive (roundDouble z) = false.
Proof.
  intro H. unfold roundDouble. cbv zeta.
  destruct (Z.abs z <? 2 ^ 53) eqn:L.
  - cbn [dpositive]. apply Z.ltb_ge. exact H.
  - apply Z.ltb_ge in L.
    assert (N : z < 0) by lia.
    match goal with
    | |- context [Z.shiftl ?q ?e] =>
        assert (Q : 0 <= Z.shiftl q e)
    end.
    { apply Z.shiftl_nonneg.
      assert (S0 : 0 <= Z.shiftr (Z.abs z) (Z.log2 (Z.abs z) - 52))
        by (apply Z.shiftr_nonneg; lia).
      destruct (_ || _); lia. }
    destruct (2 ^ 1024 <=? _); cbn [dpositive].
    + apply Z.ltb_lt in N. now rewrite N.
    + apply Z.ltb_ge. rewrite (Z.sgn_neg z N). lia.
Qed.

(** X18: the duration typed into the field is read with [parseInt]: an
    emptied field gives NaN; NaN and zero leave the build button's
    predicate false whatever else is filled in, and what follows a minus
    sign is never a number above zero; a run of digits is read up to the
    first character that is not a digit as the double nearest to its
    decimal value, which is the value itself as long as that is below
    2^53, so that "2.9" gives 2 (and 9007199254740993 gives
    9007199254740992); and when the predicate holds after the change the
    field held a number of at least 1. *)
Lemma duration_field (value : Text) (i : Inputs) :
  parseInt [] = DNaN
  /\ (forall refs name text, canBuild refs name text NaN = false
                             /\ canBuild refs name text (Num 0) = false)
  /\ (dpositive (parseInt (45%N :: value)) = false
      /\ forall j refs name text,
           setDurationFromField (45%N :: value) i = Some j ->
           canBuild refs name text (duration j) = false)
  /\ (forall ds tail,
        ds <> [] -> forallb isDigit ds = true ->
        match tail with c :: _ => isDigit c = false | [] => True end ->
        parseInt (ds ++ tail) = roundDouble (digitsValue 0 ds)
        /\ (digitsValue 0 ds < 2 ^ 53 ->
            parseInt (ds ++ tail) = DNum (digitsValue 0 ds)))
  /\ parseInt [57; 48; 48; 55; 49; 57; 57; 50; 53; 52; 55; 52; 48; 57; 57; 51]%N
     = DNum 9007199254740992
  /\ (forall j,
        setDurationFromField value i = Some j ->
        canBuild (referenceImages j) (scriptFileName j) (scenario j) (duration j)
        = true ->
        exists z, parseInt value = DNum z /\ 1 <= z
                  /\ canBuild (referenceImages i) (scriptFileName i) (scenario i)
                       (Num z) = true).
Proof.
  split; [reflexivity|]. split; [|split; [|split; [|split]]].
  - intros refs name text. unfold canBuild. cbn [positive].
    change (0 <? 0) with false. now rewrite !andb_false_r.
  - assert (P : dpositive (parseInt (45%N :: value)) = false).
    { unfold parseInt. cbn [trimStart].
      change (isWhiteSpace 45) with false. cbn [fst snd].
      destruct value as [|c r]; [reflexivity|].
      destruct (isDigit c); [|reflexivity].
      apply roundDouble_not_positive.
      pose proof (digitsValue_grows (c :: r) 0 (Z.le_refl 0)) as G. lia. }
    split; [exact P|]. intros j refs name text H.
    unfold setDurationFromField in H.
    destruct (parseInt (45%N :: value)) as [|z|s]; cbn [asNumber] in H;
      try discriminate; injection H as <-; cbn [duration]; unfold canBuild;
      cbn [positive dpositive] in *; rewrite ?P; apply andb_false_r.
  - intros ds tail N D T. destruct ds as [|d r]; [congruence|].
    assert (D1 : isDigit d = true)
      by (cbn [forallb] in D; now apply andb_true_iff in D).
    assert (E : parseInt ((d :: r) ++ tail) = roundDouble (digitsValue 0 (d :: r))).
    { change ((d :: r) ++ tail) with (d :: r ++ tail).
      rewrite (parseInt_digit _ _ D1), Z.mul_1_l.
      change (d :: r ++ tail) with ((d :: r) ++ tail).
      now rewrite digitsValue_stops. }
    split; [exact E|]. intro B. rewrite E. apply roundDouble_exact.
    pose proof (digitsValue_grows (d :: r) 0 (Z.le_refl 0)) as G. lia.
  - vm_compute. reflexivity.
  - intros j H C. unfold setDurationFromField in H.
    destruct (parseInt value) as [|z|s]; cbn [asNumber] in H; try discriminate;
      injection H as <-;
      cbn [referenceImages scriptFileName scenario duration] in C.
    + unfold canBuild in C. cbn [positive] in C. now rewrite andb_false_r in C.
    + exists z. split; [reflexivity|]. split; [|exact C].
      unfold canBuild in C. apply andb_true_iff in C. destruct C as [_ C].
      cbn [positive] in C. apply Z.ltb_lt in C. lia.
Qed.

(* ----------------------------------------------------------------- *)
(** ** The key gate *)

(** X19: where [window.aistudio] is missing, or has no [openSelectKey]
    and reports no selected key, [hasApiKey] is false after mounting and
    stays false however often "Select API Key" is clicked, so the build
    button stays disabled; where [openSelectKey] is present and its
    promise resolves, one click sets [hasApiKey] whether or not a key was
    selected, and it is never cleared again. *)
Lemma key_gate (aistudio : option AIStudio) (n : nat) :
  ((aistudio = None
    \/ exists studio, aistudio = Some studio /\ openSelectKey studio = None
                      /\ (hasSelectedApiKey studio = None
                          \/ hasSelectedApiKey studio = Some false)) ->
   keyAfter aistudio n = false
   /\ forall canBuild isBuilding,
        buildDisabled canBuild isBuilding (keyAfter aistudio n) = true)
  /\ ((exists studio, aistudio = Some studio /\ openSelectKey studio = Some true) ->
      keyAfter aistudio (S n) = true)
  /\ (keyAfter aistudio n = true -> keyAfter aistudio (S n) = true).
Proof.
  split; [|split].
  - intro H.
    assert (K : keyAfter aistudio n = false).
    { induction n as [|n IH]; cbn [keyAfter].
      - destruct H as [->|[studio [-> [_ [H|H]]]]]; cbn [checkKey];
          try rewrite H; reflexivity.
      - rewrite IH.
        destruct H as [->|[studio [-> [H _]]]]; cbn [handleSelectKey];
          try rewrite H; reflexivity. }
    split; [exact K|]. intros c b. rewrite K. unfold buildDisabled.
    cbn [negb]. now rewrite orb_true_r.
  - intros [studio [-> H]]. cbn [keyAfter handleSelectKey]. now rewrite H.
  - intro H. cbn [keyAfter]. rewrite H. unfold handleSelectKey.
    destruct aistudio as [studio|]; [|reflexivity].
    destruct (openSelectKey studio) as [[|]|]; reflexivity.
Qed.

(* ----------------------------------------------------------------- *)
(** ** An image call that outlives its plan *)

(** X20: building a new plan does not cancel the image calls under way.
    When a call started by [handleGenerateImage] on the old plan settles
    after the new plan has arrived, its update is applied to the new
    plan: every record of the new plan that has the id of the old scene
    receives the image made from the old scene's prompt (or is marked as
    failed), and the other records are left as they are. *)
Lemma call_outlives_plan
    (JSON_parse : string -> Exception + list ScenePrompt)
    (a : App) (k : nat) (prompt : ScenePrompt) (text : string)
    (data : list ScenePrompt) :
  nth_error (calls a) k = Some prompt ->
  text <> "" ->
  JSON_parse text = inr data ->
  prompts (buildPromptsEnd JSON_parse (Response (Some text)) (buildPromptsBegin a))
  = data
  /\ (forall url,
        prompts (step (buildPromptsEnd JSON_parse (Response (Some text))
                         (buildPromptsBegin a))
                   (CallSettles k (Resolved url)))
        = map (setImage (ScenePrompt.id prompt) url) data)
  /\ (forall e,
        prompts (step (buildPromptsEnd JSON_parse (Response (Some text))
                         (buildPromptsBegin a))
                   (CallSettles k (Rejected e)))
        = map (setFailed (ScenePrompt.id prompt)) data).
Proof.
  intros C N P.
  destruct (buildPromptsResume_cases JSON_parse (Response (Some text)))
    as [[text' [data' [R [_ [P' E]]]]]|[e [_ [F _]]]].
  - injection R as <-. rewrite P in P'. injection P' as <-.
    assert (B : calls (buildPromptsEnd JSON_parse (Response (Some text))
                         (buildPromptsBegin a)) = calls a).
    { unfold buildPromptsEnd. rewrite E. reflexivity. }
    assert (D : prompts (buildPromptsEnd JSON_parse (Response (Some text))
                           (buildPromptsBegin a)) = data).
    { unfold buildPromptsEnd. rewrite E. reflexivity. }
    split; [exact D|]. split; intro x; cbn [step]; rewrite B, C, callResume_spec;
      rewrite applyEffects_prompts; cbn [withCalls prompts]; rewrite D; reflexivity.
  - exfalso. apply N. exact (F text data eq_refl P).
Qed.

Lemma call_outlives_plan_sample :
  prompts (step (buildPromptsEnd sampleParser (Response (Some "[{}]"))
                   (buildPromptsBegin (step (showing twoScenes) (GenerateImage 1))))
             (CallSettles 0 (Resolved "data:image/png;base64,AAAA")))
  = map (setImage 1 "data:image/png;base64,AAAA") [scene 1].
Proof.
  assert (C : nth_error (calls (step (showing twoScenes) (GenerateImage 1))) 0
              = Some (scene 1)) by reflexivity.
  assert (N : "[{}]" <> "") by discriminate.
  assert (P : sampleParser "[{}]" = inr [scene 1]) by reflexivity.
  exact (proj1 (proj2 (call_outlives_plan sampleParser _ 0 (scene 1) "[{}]"
                         [scene 1] C N P))
           "data:image/png;base64,AAAA").
Defined.
